(** * Scroll observers of anime.js ([src/scroll.js]): a shallow embedding

    The development follows the source file top to bottom: the threshold
    resolver ([convertValueToPx], [parseBoundValue]), the [ScrollContainer]
    and [ScrollObserver] classes with their methods in explicit
    state-passing style, and then the properties of the specification.

    Number model.  A JavaScript Number is modelled by [num]: an exact
    rational, one of the two infinities, or NaN.  Binary64 rounding and the
    sign of zero are not represented; every comparison, the division by
    zero and the propagation of NaN and Infinity follow the language. *)

From Stdlib Require Import ZArith QArith Qround Lqa Lia Bool List String Ascii Sorted.
From stdpp Require Import gmap.
Import ListNotations.

Open Scope Q_scope.

(** ** JavaScript numbers *)

Module JS.

Inductive num : Type :=
| NaN
| PInf
| NInf
| Fin (q : Q).

Definition Qltb (x y : Q) : bool := negb (Qle_bool y x).

Definition zero : num := Fin 0.
Definition one : num := Fin 1.

(** [a < b] *)
Definition lt (a b : num) : bool :=
  match a, b with
  | NaN, _ | _, NaN => false
  | Fin x, Fin y => Qltb x y
  | NInf, NInf => false
  | NInf, _ => true
  | PInf, _ => false
  | Fin _, PInf => true
  | Fin _, NInf => false
  end.

(** [a <= b] *)
Definition le (a b : num) : bool :=
  match a, b with
  | NaN, _ | _, NaN => false
  | Fin x, Fin y => Qle_bool x y
  | NInf, _ => true
  | PInf, PInf => true
  | PInf, _ => false
  | Fin _, PInf => true
  | Fin _, NInf => false
  end.

(** [a > b] and [a >= b] *)
Definition gt (a b : num) : bool := lt b a.
Definition ge (a b : num) : bool := le b a.

(** [a === b] on two numbers *)
Definition eq (a b : num) : bool :=
  match a, b with
  | Fin x, Fin y => Qeq_bool x y
  | PInf, PInf | NInf, NInf => true
  | _, _ => false
  end.

Definition isNaN (a : num) : bool :=
  match a with NaN => true | _ => false end.

(** Truthiness of a number: everything but [0] and [NaN]. *)
Definition truthy (a : num) : bool :=
  match a with
  | NaN => false
  | Fin q => negb (Qeq_bool q 0)
  | _ => true
  end.

Definition neg (a : num) : num :=
  match a with
  | NaN => NaN
  | PInf => NInf
  | NInf => PInf
  | Fin q => Fin (- q)
  end.

(** [a + b] *)
Definition add (a b : num) : num :=
  match a, b with
  | NaN, _ | _, NaN => NaN
  | Fin x, Fin y => Fin (x + y)
  | PInf, NInf | NInf, PInf => NaN
  | PInf, _ | _, PInf => PInf
  | NInf, _ | _, NInf => NInf
  end.

(** [a - b] *)
Definition sub (a b : num) : num :=
  match a, b with
  | NaN, _ | _, NaN => NaN
  | Fin x, Fin y => Fin (x - y)
  | PInf, PInf | NInf, NInf => NaN
  | PInf, _ | _, NInf => PInf
  | NInf, _ | _, PInf => NInf
  end.

(** Sign of a rational: [Gt], [Eq] or [Lt] against zero. *)
Definition sgn (q : Q) : comparison := Qcompare q 0.

(** [a * b] *)
Definition mul (a b : num) : num :=
  match a, b with
  | NaN, _ | _, NaN => NaN
  | Fin x, Fin y => Fin (x * y)
  | Fin x, PInf | PInf, Fin x =>
      match sgn x with Eq => NaN | Gt => PInf | Lt => NInf end
  | Fin x, NInf | NInf, Fin x =>
      match sgn x with Eq => NaN | Gt => NInf | Lt => PInf end
  | PInf, PInf | NInf, NInf => PInf
  | PInf, NInf | NInf, PInf => NInf
  end.

(** [a / b]; the zero divisor is the positive zero. *)
Definition div (a b : num) : num :=
  match a, b with
  | NaN, _ | _, NaN => NaN
  | Fin x, Fin y =>
      match sgn y with
      | Eq => match sgn x with Eq => NaN | Gt => PInf | Lt => NInf end
      | _ => Fin (x / y)
      end
  | Fin _, (PInf | NInf) => Fin 0
  | PInf, Fin y => match sgn y with Lt => NInf | _ => PInf end
  | NInf, Fin y => match sgn y with Lt => PInf | _ => NInf end
  | (PInf | NInf), (PInf | NInf) => NaN
  end.

(** [Math.round]: the nearest integer, a tie going up. *)
Definition Math_round (a : num) : num :=
  match a with
  | Fin q => Fin (inject_Z (Qfloor (q + (1 # 2))))
  | _ => a
  end.

(** [10 ** d] *)
Definition pow10 (d : nat) : Q := inject_Z (10 ^ Z.of_nat d).

End JS.

Import JS.

Declare Scope js_scope.
Delimit Scope js_scope with js.
Bind Scope js_scope with num.
Infix "+" := JS.add : js_scope.
Infix "-" := JS.sub : js_scope.
Infix "*" := JS.mul : js_scope.
Infix "/" := JS.div : js_scope.
Infix "<?" := JS.lt : js_scope.
Infix "<=?" := JS.le : js_scope.
Infix ">?" := JS.gt (at level 70) : js_scope.
Infix ">=?" := JS.ge (at level 70) : js_scope.
Infix "===" := JS.eq (at level 70) : js_scope.

(** ** helpers.js

    [clamp] and [round] are imported by scroll.js from helpers.js. *)

(** Modelled from the spec: helpers.js is not among the sources; the spec
    writes the raw progress as [clamp((scroll - start)/distance, 0, 1)], a
    value below [min] becoming [min] and one above [max] becoming [max]. *)
Definition clamp (v min max : num) : num :=
  if (v <? min)%js then min else if (v >? max)%js then max else v.

(** Modelled from the spec: helpers.js is not among the sources; the spec
    has scroll offsets and resolved thresholds "rounded to the nearest
    integer pixel".  [round v d] keeps [d] decimals: [Math.round(v)] for
    [d = 0] and [Math.round(v * 10**d) / 10**d] otherwise.  [Qred] only
    normalises the representation of the fraction. *)
Definition round (v : num) (decimalLength : nat) : num :=
  match decimalLength with
  | O => Math_round v
  | _ =>
      match Math_round (v * Fin (pow10 decimalLength))%js with
      | Fin z => Fin (Qred (z / pow10 decimalLength))
      | r => r
      end
  end.

Arguments clamp : simpl never.
Arguments round : simpl never.

(** ** Strings

    The string operations scroll.js applies to a threshold expression. *)

Module Str.

Open Scope string_scope.

(** [sep] is a prefix of [s] *)
Fixpoint startsWith (sep s : string) : bool :=
  match sep, s with
  | EmptyString, _ => true
  | String a sep', String b s' => Ascii.eqb a b && startsWith sep' s'
  | String _ _, EmptyString => false
  end.

(** [s.split(sep)] for a non-empty separator: [skip] counts the characters
    of a matched separator still to pass over, [cur] is the piece read so
    far. *)
Fixpoint split_from (sep s : string) (skip : nat) (cur : string) : list string :=
  match s with
  | EmptyString => [cur]
  | String c rest =>
      match skip with
      | S k => split_from sep rest k cur
      | O =>
          if startsWith sep s
          then cur :: split_from sep rest (String.length sep - 1) ""
          else split_from sep rest 0 (cur ++ String c "")
      end
  end.

Definition split (s sep : string) : list string := split_from sep s 0 "".

(** [arr[i]] on an array of strings read where the index exists. *)
Definition item (arr : list string) (i : nat) : string := nth i arr "".

Definition digit_of (c : ascii) : option Z :=
  let n := nat_of_ascii c in
  if (48 <=? n)%nat && (n <=? 57)%nat then Some (Z.of_nat (n - 48)) else None.

(** Reads a run of decimal digits: the value accumulated, how many digits
    were read, and what follows them. *)
Fixpoint read_digits (s : string) (acc : Z) (count : nat) : Z * nat * string :=
  match s with
  | String c rest =>
      match digit_of c with
      | Some d => read_digits rest (10 * acc + d)%Z (S count)
      | None => (acc, count, s)
      end
  | EmptyString => (acc, count, s)
  end.

(** A decimal numeral at the head of [s]: optional sign, digits, optional
    fraction; at least one digit.  Returns its value and the rest. *)
Definition read_number (s : string) : option (Q * string) :=
  let '(negative, body) :=
    match s with
    | String "-" rest => (true, rest)
    | String "+" rest => (false, rest)
    | _ => (false, s)
    end in
  let '(int, ni, after_int) := read_digits body 0%Z 0 in
  let '(frac, nf, rest) :=
    match after_int with
    | String "." after_dot =>
        match read_digits after_dot 0%Z 0 with
        | (_, O, _) => (0%Z, O, after_int)
        | r => r
        end
    | _ => (0%Z, O, after_int)
    end in
  match (ni + nf)%nat with
  | O => None
  | _ =>
      let q := (inject_Z int + inject_Z frac / pow10 nf)%Q in
      Some (if negative then (- q)%Q else q, rest)
  end.

End Str.

(** ** consts.js and values.js *)

Open Scope string_scope.

(** A threshold value, [String|Number] in the source
    ([ScrollThresholdValue]). *)
Inductive ScrollThresholdValue : Type :=
| VNum (n : num)
| VStr (s : string).

Definition isStr (v : ScrollThresholdValue) : bool :=
  match v with VStr _ => true | VNum _ => false end.

(** [v === 'keyword'] *)
Definition equals (v : ScrollThresholdValue) (keyword : string) : bool :=
  match v with VStr s => String.eqb s keyword | VNum _ => false end.

(** Modelled from the spec: consts.js is not among the sources; the spec
    lists the relative-arithmetic operators [+=], [-=], [*=] and [/=]. *)
Definition is_relative_operator (c : ascii) : bool :=
  Ascii.eqb c "*" || Ascii.eqb c "+" || Ascii.eqb c "-" || Ascii.eqb c "/".

(** [relativeValuesExecRgx.exec(s)]: the leftmost operator-and-equals pair,
    [matchedOperator[0]], or [None] for [null]. *)
Fixpoint relativeValuesExec (s : string) : option string :=
  match s with
  | EmptyString => None
  | String c rest =>
      match rest with
      | String d _ =>
          if is_relative_operator c && Ascii.eqb d "="
          then Some (String c (String d ""))
          else relativeValuesExec rest
      | EmptyString => None
      end
  end.

(** [splitter[0]] *)
Definition first_char (s : string) : ascii :=
  match s with String c _ => c | EmptyString => " "%char end.

(** Modelled from the spec: values.js is not among the sources; the two
    resolved operands are "combined with the operator". *)
Definition getRelativeValue (x y : num) (operator : ascii) : num :=
  if Ascii.eqb operator "-" then (x - y)%js
  else if Ascii.eqb operator "+" then (x + y)%js
  else if Ascii.eqb operator "/" then (x / y)%js
  else (x * y)%js.

(** Modelled from the spec: values.js is not among the sources; an anchor
    is "a percentage string, a raw length with unit, or a plain number",
    and "unrecognized strings are passed to unit conversion".  The result
    is the number [n] and the unit [u] of the value; a string without a
    leading numeral is handed over whole as the unit. *)
Definition decomposeRawValue (rawValue : ScrollThresholdValue) : num * option string :=
  match rawValue with
  | VNum n => (n, None)
  | VStr s =>
      match Str.read_number s with
      | Some (q, "") => (Fin q, None)
      | Some (q, u) => (Fin q, Some u)
      | None => if String.eqb s "" then (Fin 0, None) else (Fin 0, Some s)
      end
  end.

(** ** The threshold resolver *)

Section Resolver.

(** [convertValueUnit($el, value, 'px', true).n] of units.js: the pixel
    length of [n] units [u] on the watched element, which depends on the
    document. *)
Variable convertValueUnit : num -> string -> num.

(** [under < 0] and [over > 0] on an optional argument: an omitted
    argument is [undefined], for which every comparison is false. *)
Definition below_zero (under : option num) : bool :=
  match under with Some u => (u <? zero)%js | None => false end.

Definition above_zero (over : option num) : bool :=
  match over with Some o => (o >? zero)%js | None => false end.

(** [px += x], reached only where [x] is a number *)
Definition plus_arg (px : num) (x : option num) : num :=
  match x with Some n => (px + n)%js | None => NaN end.

Definition convertValueToPx (v : ScrollThresholdValue) (size : num)
    (under over : option num) : num :=
  let clampMin := equals v "min" in
  let clampMax := equals v "max" in
  let value :=
    if equals v "top" || equals v "left" || equals v "start" || clampMin
    then VNum (Fin 0)
    else if equals v "bottom" || equals v "right" || equals v "end" || clampMax
    then VStr "100%"
    else if equals v "center" then VStr "50%"
    else v in
  let '(n, u) := decomposeRawValue value in
  let px :=
    match u with
    | Some unit =>
        if String.eqb unit "%" then ((n / Fin 100) * size)%js
        else convertValueUnit n unit
    | None => n
    end in
  let px := if clampMax && below_zero under then plus_arg px under else px in
  let px := if clampMin && above_zero over then plus_arg px over else px in
  px.

Definition parseBoundValue (v : ScrollThresholdValue) (size : num)
    (under over : option num) : num :=
  let value :=
    match v with
    | VStr s =>
        match relativeValuesExec s with
        | Some splitter =>
            let operator := first_char splitter in
            let splitted := Str.split s splitter in
            let clampMin := String.eqb (Str.item splitted 0) "min" in
            let clampMax := String.eqb (Str.item splitted 0) "max" in
            let valueAPx := convertValueToPx (VStr (Str.item splitted 0)) size under over in
            let valueBPx := convertValueToPx (VStr (Str.item splitted 1)) size under over in
            if clampMin then
              let min :=
                getRelativeValue (convertValueToPx (VStr "min") size None None)
                  valueBPx operator in
              if (min <? valueAPx)%js then valueAPx else min
            else if clampMax then
              let max :=
                getRelativeValue (convertValueToPx (VStr "max") size None None)
                  valueBPx operator in
              if (max >? valueAPx)%js then valueAPx else max
            else
              getRelativeValue valueAPx valueBPx operator
        | None => convertValueToPx v size under over
        end
    | VNum n => n
    end in
  round value 0.

End Resolver.

(** ** The linked object

    The timer, animation or timeline given to [link] belongs to other
    modules; scroll.js uses the members below. *)

Class Linked (L : Type) : Type := {
  (** [linked.currentTime] *)
  linked_currentTime : L -> num;
  (** [linked.progress] *)
  linked_progress : L -> num;
  (** [linked.duration] *)
  linked_duration : L -> num;
  (** [linked.completed] *)
  linked_completed : L -> bool;
  (** [linked.seek(time, muteCallbacks)] *)
  linked_seek : num -> bool -> L -> L;
  (** [linked[m]]: [None] where the member is undefined, otherwise the
      object after [linked[m]()] *)
  linked_method : string -> L -> option L
}.

(** ** Data model *)

(** The easing functions of eases.js: [none] is the identity ease the
    source compares against with [===]; [ease f] is any other function. *)
Inductive Easing : Type :=
| none
| ease (f : num -> num).

Definition is_none (e : Easing) : bool :=
  match e with none => true | ease _ => false end.

Definition apply_ease (e : Easing) (p : num) : num :=
  match e with none => p | ease f => f p end.

(** The [enter] and [leave] options after [refresh] has resolved them: a
    string or a number, an object [{container, target}], or anything
    else. *)
Inductive ScrollThreshold : Type :=
| ThValue (v : ScrollThresholdValue)
| ThParam (container target : option ScrollThresholdValue)
| ThOther.

(** [$target.getBoundingClientRect()] *)
Record DOMRect : Type := {
  rect_left : num;
  rect_top : num;
  rect_width : num;
  rect_height : num
}.

(** The callbacks of an observer, by the name of the field called. *)
Inductive Callback : Type :=
| onSyncEnter_ | onSyncLeave_
| onSyncEnterForward_ | onSyncLeaveForward_
| onSyncEnterBackward_ | onSyncLeaveBackward_
| onEnter_ | onLeave_
| onEnterForward_ | onLeaveForward_
| onEnterBackward_ | onLeaveBackward_
| onUpdate_ | onSyncComplete_.

(** What a method does to the world outside the observer and its
    container, in the order it happens. *)
Inductive Event : Type :=
| Call (cb : Callback)
| LinkedMethod (m : string)
| LinkedSeek (time : num) (muteCallbacks : bool)
| WakeRestart
| ContainerRevert
| DebugRemove
| DebugStylesRevert
| DebugBuild.

(** [ScrollContainer]: the fields the observers read and write.  The DOM
    element, the four timers, the window size and the previous-sample
    coordinates stay outside; [children] is the list from [_head] to
    [_tail], holding the [index] of each attached observer, and [live] is
    false once [ScrollContainer.revert] has cancelled the timers and
    deleted the registry entry. *)
Record ScrollContainer : Type := {
  width : num;
  height : num;
  left : num;
  top : num;
  zIndex : nat;
  scrollX : num;
  scrollY : num;
  scrollWidth : num;
  scrollHeight : num;
  velocity : num;
  backwardX : bool;
  backwardY : bool;
  positionStatic : bool;
  children : list nat;
  live : bool
}.

Definition set_children (l : list nat) (c : ScrollContainer) : ScrollContainer :=
  {| width := width c; height := height c; left := left c; top := top c;
     zIndex := zIndex c; scrollX := scrollX c; scrollY := scrollY c;
     scrollWidth := scrollWidth c; scrollHeight := scrollHeight c;
     velocity := velocity c; backwardX := backwardX c; backwardY := backwardY c;
     positionStatic := positionStatic c; children := l; live := live c |}.

Definition set_zIndex (z : nat) (c : ScrollContainer) : ScrollContainer :=
  {| width := width c; height := height c; left := left c; top := top c;
     zIndex := z; scrollX := scrollX c; scrollY := scrollY c;
     scrollWidth := scrollWidth c; scrollHeight := scrollHeight c;
     velocity := velocity c; backwardX := backwardX c; backwardY := backwardY c;
     positionStatic := positionStatic c; children := children c; live := live c |}.

Definition set_live (b : bool) (c : ScrollContainer) : ScrollContainer :=
  {| width := width c; height := height c; left := left c; top := top c;
     zIndex := zIndex c; scrollX := scrollX c; scrollY := scrollY c;
     scrollWidth := scrollWidth c; scrollHeight := scrollHeight c;
     velocity := velocity c; backwardX := backwardX c; backwardY := backwardY c;
     positionStatic := positionStatic c; children := children c; live := b |}.

(** [updateScrollCoords]: the rounded scroll offsets read from the
    document. *)
Definition updateScrollCoords (x y : num) (c : ScrollContainer) : ScrollContainer :=
  {| width := width c; height := height c; left := left c; top := top c;
     zIndex := zIndex c; scrollX := round x 0; scrollY := round y 0;
     scrollWidth := scrollWidth c; scrollHeight := scrollHeight c;
     velocity := velocity c; backwardX := backwardX c; backwardY := backwardY c;
     positionStatic := positionStatic c; children := children c; live := live c |}.

Section Model.

Context {L : Type} `{Linked L}.

(** [ScrollObserver].  A sync callback field holds the name of the linked
    method its closure calls, [None] standing for [noop]; the callbacks of
    the parameters are user code and appear as [Call] events only, what
    they may do to the observer being left out.  [linked] holds the state
    of the linked object.  [debugEl] and [debugStyles] tell whether
    [$debug] and [debugStyles] are set. *)
Record ScrollObserver : Type := {
  index : nat;
  linked : option L;
  repeat : bool;
  horizontal : bool;
  enter : ScrollThreshold;
  leave : ScrollThreshold;
  sync : bool;
  syncEase : option Easing;
  syncSmooth : option num;
  onSyncEnter : option string;
  onSyncLeave : option string;
  onSyncEnterForward : option string;
  onSyncLeaveForward : option string;
  onSyncEnterBackward : option string;
  onSyncLeaveBackward : option string;
  reverted : bool;
  completed : bool;
  began : bool;
  isInView : bool;
  forceEnter : bool;
  hasEntered : bool;
  offset : num;
  offsetStart : num;
  offsetEnd : num;
  distance : num;
  prevProgress : num;
  thresholds : list ScrollThresholdValue;
  coords : list num;
  debugStyles : bool;
  debugEl : bool;
  _debug : bool
}.

(** One setter for each field a method assigns on its own. *)

Definition set_linked (l : option L) (o : ScrollObserver) : ScrollObserver :=
  {| index := index o; linked := l; repeat := repeat o;
     horizontal := horizontal o; enter := enter o; leave := leave o;
     sync := sync o; syncEase := syncEase o; syncSmooth := syncSmooth o;
     onSyncEnter := onSyncEnter o; onSyncLeave := onSyncLeave o;
     onSyncEnterForward := onSyncEnterForward o;
     onSyncLeaveForward := onSyncLeaveForward o;
     onSyncEnterBackward := onSyncEnterBackward o;
     onSyncLeaveBackward := onSyncLeaveBackward o; reverted := reverted o;
     completed := completed o; began := began o; isInView := isInView o;
     forceEnter := forceEnter o; hasEntered := hasEntered o;
     offset := offset o; offsetStart := offsetStart o;
     offsetEnd := offsetEnd o; distance := distance o;
     prevProgress := prevProgress o; thresholds := thresholds o;
     coords := coords o; debugStyles := debugStyles o; debugEl := debugEl o;
     _debug := _debug o |}.

Definition set_reverted (b : bool) (o : ScrollObserver) : ScrollObserver :=
  {| index := index o; linked := linked o; repeat := repeat o;
     horizontal := horizontal o; enter := enter o; leave := leave o;
     sync := sync o; syncEase := syncEase o; syncSmooth := syncSmooth o;
     onSyncEnter := onSyncEnter o; onSyncLeave := onSyncLeave o;
     onSyncEnterForward := onSyncEnterForward o;
     onSyncLeaveForward := onSyncLeaveForward o;
     onSyncEnterBackward := onSyncEnterBackward o;
     onSyncLeaveBackward := onSyncLeaveBackward o; reverted := b;
     completed := completed o; began := began o; isInView := isInView o;
     forceEnter := forceEnter o; hasEntered := hasEntered o;
     offset := offset o; offsetStart := offsetStart o;
     offsetEnd := offsetEnd o; distance := distance o;
     prevProgress := prevProgress o; thresholds := thresholds o;
     coords := coords o; debugStyles := debugStyles o; debugEl := debugEl o;
     _debug := _debug o |}.

Definition set_completed (b : bool) (o : ScrollObserver) : ScrollObserver :=
  {| index := index o; linked := linked o; repeat := repeat o;
     horizontal := horizontal o; enter := enter o; leave := leave o;
     sync := sync o; syncEase := syncEase o; syncSmooth := syncSmooth o;
     onSyncEnter := onSyncEnter o; onSyncLeave := onSyncLeave o;
     onSyncEnterForward := onSyncEnterForward o;
     onSyncLeaveForward := onSyncLeaveForward o;
     onSyncEnterBackward := onSyncEnterBackward o;
     onSyncLeaveBackward := onSyncLeaveBackward o; reverted := reverted o;
     completed := b; began := began o; isInView := isInView o;
     forceEnter := forceEnter o; hasEntered := hasEntered o;
     offset := offset o; offsetStart := offsetStart o;
     offsetEnd := offsetEnd o; distance := distance o;
     prevProgress := prevProgress o; thresholds := thresholds o;
     coords := coords o; debugStyles := debugStyles o; debugEl := debugEl o;
     _debug := _debug o |}.

Definition set_began (b : bool) (o : ScrollObserver) : ScrollObserver :=
  {| index := index o; linked := linked o; repeat := repeat o;
     horizontal := horizontal o; enter := enter o; leave := leave o;
     sync := sync o; syncEase := syncEase o; syncSmooth := syncSmooth o;
     onSyncEnter := onSyncEnter o; onSyncLeave := onSyncLeave o;
     onSyncEnterForward := onSyncEnterForward o;
     onSyncLeaveForward := onSyncLeaveForward o;
     onSyncEnterBackward := onSyncEnterBackward o;
     onSyncLeaveBackward := onSyncLeaveBackward o; reverted := reverted o;
     completed := completed o; began := b; isInView := isInView o;
     forceEnter := forceEnter o; hasEntered := hasEntered o;
     offset := offset o; offsetStart := offsetStart o;
     offsetEnd := offsetEnd o; distance := distance o;
     prevProgress := prevProgress o; thresholds := thresholds o;
     coords := coords o; debugStyles := debugStyles o; debugEl := debugEl o;
     _debug := _debug o |}.

Definition set_isInView (b : bool) (o : ScrollObserver) : ScrollObserver :=
  {| index := index o; linked := linked o; repeat := repeat o;
     horizontal := horizontal o; enter := enter o; leave := leave o;
     sync := sync o; syncEase := syncEase o; syncSmooth := syncSmooth o;
     onSyncEnter := onSyncEnter o; onSyncLeave := onSyncLeave o;
     onSyncEnterForward := onSyncEnterForward o;
     onSyncLeaveForward := onSyncLeaveForward o;
     onSyncEnterBackward := onSyncEnterBackward o;
     onSyncLeaveBackward := onSyncLeaveBackward o; reverted := reverted o;
     completed := completed o; began := began o; isInView := b;
     forceEnter := forceEnter o; hasEntered := hasEntered o;
     offset := offset o; offsetStart := offsetStart o;
     offsetEnd := offsetEnd o; distance := distance o;
     prevProgress := prevProgress o; thresholds := thresholds o;
     coords := coords o; debugStyles := debugStyles o; debugEl := debugEl o;
     _debug := _debug o |}.

Definition set_forceEnter (b : bool) (o : ScrollObserver) : ScrollObserver :=
  {| index := index o; linked := linked o; repeat := repeat o;
     horizontal := horizontal o; enter := enter o; leave := leave o;
     sync := sync o; syncEase := syncEase o; syncSmooth := syncSmooth o;
     onSyncEnter := onSyncEnter o; onSyncLeave := onSyncLeave o;
     onSyncEnterForward := onSyncEnterForward o;
     onSyncLeaveForward := onSyncLeaveForward o;
     onSyncEnterBackward := onSyncEnterBackward o;
     onSyncLeaveBackward := onSyncLeaveBackward o; reverted := reverted o;
     completed := completed o; began := began o; isInView := isInView o;
     forceEnter := b; hasEntered := hasEntered o; offset := offset o;
     offsetStart := offsetStart o; offsetEnd := offsetEnd o;
     distance := distance o; prevProgress := prevProgress o;
     thresholds := thresholds o; coords := coords o;
     debugStyles := debugStyles o; debugEl := debugEl o;
     _debug := _debug o |}.

Definition set_hasEntered (b : bool) (o : ScrollObserver) : ScrollObserver :=
  {| index := index o; linked := linked o; repeat := repeat o;
     horizontal := horizontal o; enter := enter o; leave := leave o;
     sync := sync o; syncEase := syncEase o; syncSmooth := syncSmooth o;
     onSyncEnter := onSyncEnter o; onSyncLeave := onSyncLeave o;
     onSyncEnterForward := onSyncEnterForward o;
     onSyncLeaveForward := onSyncLeaveForward o;
     onSyncEnterBackward := onSyncEnterBackward o;
     onSyncLeaveBackward := onSyncLeaveBackward o; reverted := reverted o;
     completed := completed o; began := began o; isInView := isInView o;
     forceEnter := forceEnter o; hasEntered := b; offset := offset o;
     offsetStart := offsetStart o; offsetEnd := offsetEnd o;
     distance := distance o; prevProgress := prevProgress o;
     thresholds := thresholds o; coords := coords o;
     debugStyles := debugStyles o; debugEl := debugEl o;
     _debug := _debug o |}.

Definition set_prevProgress (p : num) (o : ScrollObserver) : ScrollObserver :=
  {| index := index o; linked := linked o; repeat := repeat o;
     horizontal := horizontal o; enter := enter o; leave := leave o;
     sync := sync o; syncEase := syncEase o; syncSmooth := syncSmooth o;
     onSyncEnter := onSyncEnter o; onSyncLeave := onSyncLeave o;
     onSyncEnterForward := onSyncEnterForward o;
     onSyncLeaveForward := onSyncLeaveForward o;
     onSyncEnterBackward := onSyncEnterBackward o;
     onSyncLeaveBackward := onSyncLeaveBackward o; reverted := reverted o;
     completed := completed o; began := began o; isInView := isInView o;
     forceEnter := forceEnter o; hasEntered := hasEntered o;
     offset := offset o; offsetStart := offsetStart o;
     offsetEnd := offsetEnd o; distance := distance o; prevProgress := p;
     thresholds := thresholds o; coords := coords o;
     debugStyles := debugStyles o; debugEl := debugEl o;
     _debug := _debug o |}.

Definition set_debugStyles (b : bool) (o : ScrollObserver) : ScrollObserver :=
  {| index := index o; linked := linked o; repeat := repeat o;
     horizontal := horizontal o; enter := enter o; leave := leave o;
     sync := sync o; syncEase := syncEase o; syncSmooth := syncSmooth o;
     onSyncEnter := onSyncEnter o; onSyncLeave := onSyncLeave o;
     onSyncEnterForward := onSyncEnterForward o;
     onSyncLeaveForward := onSyncLeaveForward o;
     onSyncEnterBackward := onSyncEnterBackward o;
     onSyncLeaveBackward := onSyncLeaveBackward o; reverted := reverted o;
     completed := completed o; began := began o; isInView := isInView o;
     forceEnter := forceEnter o; hasEntered := hasEntered o;
     offset := offset o; offsetStart := offsetStart o;
     offsetEnd := offsetEnd o; distance := distance o;
     prevProgress := prevProgress o; thresholds := thresholds o;
     coords := coords o; debugStyles := b; debugEl := debugEl o;
     _debug := _debug o |}.

Definition set_debugEl (b : bool) (o : ScrollObserver) : ScrollObserver :=
  {| index := index o; linked := linked o; repeat := repeat o;
     horizontal := horizontal o; enter := enter o; leave := leave o;
     sync := sync o; syncEase := syncEase o; syncSmooth := syncSmooth o;
     onSyncEnter := onSyncEnter o; onSyncLeave := onSyncLeave o;
     onSyncEnterForward := onSyncEnterForward o;
     onSyncLeaveForward := onSyncLeaveForward o;
     onSyncEnterBackward := onSyncEnterBackward o;
     onSyncLeaveBackward := onSyncLeaveBackward o; reverted := reverted o;
     completed := completed o; began := began o; isInView := isInView o;
     forceEnter := forceEnter o; hasEntered := hasEntered o;
     offset := offset o; offsetStart := offsetStart o;
     offsetEnd := offsetEnd o; distance := distance o;
     prevProgress := prevProgress o; thresholds := thresholds o;
     coords := coords o; debugStyles := debugStyles o; debugEl := b;
     _debug := _debug o |}.

(** The fields [refresh] assigns from the parameters. *)
Definition set_options (rev rep hori : bool) (en le : ScrollThreshold)
    (o : ScrollObserver) : ScrollObserver :=
  {| index := index o; linked := linked o; repeat := rep; horizontal := hori;
     enter := en; leave := le; sync := sync o; syncEase := syncEase o;
     syncSmooth := syncSmooth o; onSyncEnter := onSyncEnter o;
     onSyncLeave := onSyncLeave o;
     onSyncEnterForward := onSyncEnterForward o;
     onSyncLeaveForward := onSyncLeaveForward o;
     onSyncEnterBackward := onSyncEnterBackward o;
     onSyncLeaveBackward := onSyncLeaveBackward o; reverted := rev;
     completed := completed o; began := began o; isInView := isInView o;
     forceEnter := forceEnter o; hasEntered := hasEntered o;
     offset := offset o; offsetStart := offsetStart o;
     offsetEnd := offsetEnd o; distance := distance o;
     prevProgress := prevProgress o; thresholds := thresholds o;
     coords := coords o; debugStyles := debugStyles o; debugEl := debugEl o;
     _debug := _debug o |}.

(** The fields [updateBounds] assigns from its measurements. *)
Definition set_bounds (off start end_ dist : num)
    (ths : list ScrollThresholdValue) (cs : list num)
    (o : ScrollObserver) : ScrollObserver :=
  {| index := index o; linked := linked o; repeat := repeat o;
     horizontal := horizontal o; enter := enter o; leave := leave o;
     sync := sync o; syncEase := syncEase o; syncSmooth := syncSmooth o;
     onSyncEnter := onSyncEnter o; onSyncLeave := onSyncLeave o;
     onSyncEnterForward := onSyncEnterForward o;
     onSyncLeaveForward := onSyncLeaveForward o;
     onSyncEnterBackward := onSyncEnterBackward o;
     onSyncLeaveBackward := onSyncLeaveBackward o; reverted := reverted o;
     completed := completed o; began := began o; isInView := isInView o;
     forceEnter := forceEnter o; hasEntered := hasEntered o; offset := off;
     offsetStart := start; offsetEnd := end_; distance := dist;
     prevProgress := prevProgress o; thresholds := ths; coords := cs;
     debugStyles := debugStyles o; debugEl := debugEl o;
     _debug := _debug o |}.

(** ** Methods, in state-passing style

    A method runs on a [Frame]: the observer ([this]), its container and
    the events emitted so far, oldest first. *)

Record Frame : Type := {
  self : ScrollObserver;
  cont : ScrollContainer;
  log : list Event
}.

Definition on_self (g : ScrollObserver -> ScrollObserver) (f : Frame) : Frame :=
  {| self := g (self f); cont := cont f; log := log f |}.

Definition on_cont (g : ScrollContainer -> ScrollContainer) (f : Frame) : Frame :=
  {| self := self f; cont := g (cont f); log := log f |}.

Definition emit (e : Event) (f : Frame) : Frame :=
  {| self := self f; cont := cont f; log := log f ++ [e] |}.

(** [lerp(start, end, amount, false)] of utils.js and
    [interpolate(start, end, progress)] of helpers.js, used by the
    smoothed synchronisation only. *)
Variable lerp : num -> num -> num -> num.
Variable interpolate : num -> num -> num -> num.

(** *** Getters *)

Definition backward (o : ScrollObserver) (c : ScrollContainer) : bool :=
  if horizontal o then backwardX c else backwardY c.

Definition scroll (o : ScrollObserver) (c : ScrollContainer) : num :=
  if horizontal o then scrollX c else scrollY c.

Definition progress (o : ScrollObserver) (c : ScrollContainer) : num :=
  let p := ((scroll o c - offsetStart o) / distance o)%js in
  if (p === PInf)%js || isNaN p then Fin 0 else round (clamp p (Fin 0) (Fin 1)) 6.

(** *** Callbacks *)

(** A sync callback field called with the observer: the [Call] event, and
    for a method closure [linked && linked[m] ? linked[m]() : null]. *)
Definition call_sync (cb : Callback) (m : option string) (f : Frame) : Frame :=
  let f := emit (Call cb) f in
  match m with
  | None => f
  | Some name =>
      match linked (self f) with
      | Some l =>
          match linked_method name l with
          | Some l' => emit (LinkedMethod name) (on_self (set_linked (Some l')) f)
          | None => f
          end
      | None => f
      end
  end.

(** A callback of the parameters called with the observer. *)
Definition call (cb : Callback) (f : Frame) : Frame := emit (Call cb) f.

(** *** removeDebug, debug *)

Definition removeDebug (f : Frame) : Frame :=
  let f := if debugEl (self f)
           then on_self (set_debugEl false) (emit DebugRemove f) else f in
  let f := if debugStyles (self f)
           then on_self (set_debugEl false) (emit DebugStylesRevert f) else f in
  f.

(** The overlay itself is presentation; [debug] leaves [$debug] set, has
    taken one [zIndex], and sets [debugStyles] on a statically positioned
    container. *)
Definition debug (f : Frame) : Frame :=
  let f := removeDebug f in
  let f := on_cont (fun c => set_zIndex (S (zIndex c)) c) f in
  let f := on_self (set_debugEl true) (emit DebugBuild f) in
  if positionStatic (cont f) then on_self (set_debugStyles true) f else f.

(** *** revert *)

(** Modelled from the spec: helpers.js is not among the sources;
    [removeChild] is the "list splice" that detaches the observer from the
    ordered collection of its container. *)
Definition removeChild (i : nat) (c : ScrollContainer) : ScrollContainer :=
  set_children (List.filter (fun j => negb (Nat.eqb j i)) (children c)) c.

(** Modelled from the spec: helpers.js is not among the sources;
    [addChild] attaches at the tail of the insertion-ordered collection. *)
Definition addChild (i : nat) (c : ScrollContainer) : ScrollContainer :=
  set_children (children c ++ [i]) c.

(** [ScrollContainer.revert]: timers cancelled, listeners removed, the
    registry entry deleted. *)
Definition container_revert (f : Frame) : Frame :=
  on_cont (set_live false) (emit ContainerRevert f).

Definition no_children (c : ScrollContainer) : bool :=
  match children c with [] => true | _ => false end.

Definition revert (f : Frame) : Frame :=
  if reverted (self f) then f
  else
    let f := on_cont (removeChild (index (self f))) f in
    let f := if no_children (cont f) then container_revert f else f in
    let f := if _debug (self f) then removeDebug f else f in
    on_self (set_reverted true) f.

(** *** handleScroll *)

Definition is_some {A : Type} (x : option A) : bool :=
  match x with Some _ => true | None => false end.

(** Truthiness of [syncSmooth], a number or [null]. *)
Definition truthy_opt (x : option num) : bool :=
  match x with Some n => truthy n | None => false end.

(** [if (isBefore && this.began) ...; if (p > 0 && !this.began) ...] *)
Definition began_block (isBefore : bool) (p : num) (f : Frame) : Frame :=
  let f := if isBefore && began (self f) then on_self (set_began false) f else f in
  let f := if (p >? zero)%js && negb (began (self f)) then on_self (set_began true) f else f in
  f.

(** The progress the smoothed synchronisation moves to. *)
Definition smoothed (lp p syncSmooth : num) : num :=
  let step := Fin (1 # 10000) in
  let snap :=
    if (lp <? p)%js && (p === one)%js then step
    else if (lp >? p)%js && negb (truthy p) then neg step
    else zero in
  round (lerp lp p (interpolate (Fin (1 # 100)) (Fin (2 # 10)) syncSmooth) + snap)%js 6.

(** [if (shouldSeek) { ... }]: the remapped [p], [hasUpdated] and
    [syncCompleted]. *)
Definition seek_block (shouldSeek : bool) (p : num) (f : Frame)
    : num * bool * bool * Frame :=
  match linked (self f) with
  | Some l =>
      if shouldSeek then
        let lp := linked_progress l in
        let p :=
          match syncSmooth (self f) with
          | Some s =>
              if truthy s then
                if (s <? one)%js then smoothed lp p s else p
              else
                match syncEase (self f) with Some e => apply_ease e p | None => p end
          | None =>
              match syncEase (self f) with Some e => apply_ease e p | None => p end
          end in
        let hasUpdated := negb (p === prevProgress (self f))%js in
        let syncCompleted := (lp === one)%js in
        let f :=
          if hasUpdated && negb syncCompleted
             && (truthy_opt (syncSmooth (self f)) && truthy lp)
          then emit WakeRestart f else f in
        (p, hasUpdated, syncCompleted, f)
      else (p, false, false, f)
  | None => (p, false, false, f)
  end.

(** The calls of the enter branch, from [this.onSyncEnter(this)] to the
    direction-qualified pair. *)
Definition enter_calls (f : Frame) : Frame :=
  let f := call_sync onSyncEnter_ (onSyncEnter (self f)) f in
  let f := call onEnter_ f in
  if backward (self f) (cont f) then
    let f := call_sync onSyncEnterBackward_ (onSyncEnterBackward (self f)) f in
    call onEnterBackward_ f
  else
    let f := call_sync onSyncEnterForward_ (onSyncEnterForward (self f)) f in
    call onEnterForward_ f.

(** [if ((isInView && !this.isInView) || (forceEnter && !this.forceEnter
    && !this.hasEntered)) { ... }] *)
Definition enter_block (isInView' forceEnter' debug' : bool) (f : Frame) : Frame :=
  if (isInView' && negb (isInView (self f)))
     || (forceEnter' && negb (forceEnter (self f)) && negb (hasEntered (self f)))
  then
    let f := if isInView' then on_self (set_isInView true) f else f in
    if negb (forceEnter (self f)) || negb (hasEntered (self f)) then
      let f := if debug' && isInView'
               then on_cont (fun c => set_zIndex (S (zIndex c)) c) f else f in
      let f := enter_calls f in
      let f := on_self (set_hasEntered true) f in
      if forceEnter' then on_self (set_forceEnter true) f else f
    else if isInView' then on_self (set_forceEnter false) f
    else f
  else f.

(** [if (hasUpdated) { if (shouldSeek) linked.seek(linked.duration * p);
    this.onUpdate(this); }] *)
Definition update_block (shouldSeek : bool) (p : num) (f : Frame) : Frame :=
  let f :=
    match linked (self f) with
    | Some l =>
        if shouldSeek then
          let time := (linked_duration l * p)%js in
          emit (LinkedSeek time false)
            (on_self (set_linked (Some (linked_seek time false l))) f)
        else f
    | None => f
    end in
  call onUpdate_ f.

(** The calls of the leave branch. *)
Definition leave_calls (f : Frame) : Frame :=
  let f := call_sync onSyncLeave_ (onSyncLeave (self f)) f in
  let f := call onLeave_ f in
  if backward (self f) (cont f) then
    let f := call_sync onSyncLeaveBackward_ (onSyncLeaveBackward (self f)) f in
    call onLeaveBackward_ f
  else
    let f := call_sync onSyncLeaveForward_ (onSyncLeaveForward (self f)) f in
    call onLeaveForward_ f.

(** [if (!isInView && this.isInView) { ... }]: the frame and the new
    [syncCompleted]. *)
Definition leave_block (isInView' syncCompleted : bool) (f : Frame) : bool * Frame :=
  if negb isInView' && isInView (self f) then
    let f := on_self (set_isInView false) f in
    let f := leave_calls f in
    (if sync (self f) && negb (truthy_opt (syncSmooth (self f)))
     then true else syncCompleted, f)
  else (syncCompleted, f).

(** [linked.completed] in [!this.repeat && linked && linked.completed] *)
Definition linked_is_completed (o : ScrollObserver) : bool :=
  match linked o with Some l => linked_completed l | None => false end.

(** [if (p >= 1 && this.began && !this.completed && (sync && syncCompleted
    || !sync)) { ... }] *)
Definition complete_block (p : num) (syncCompleted : bool) (f : Frame) : Frame :=
  let sync' := sync (self f) in
  if (p >=? one)%js && began (self f) && negb (completed (self f))
     && (sync' && syncCompleted || negb sync')
  then
    let f := if sync' then call onSyncComplete_ f else f in
    let f := on_self (set_completed true) f in
    if (negb (repeat (self f)) && negb (is_some (linked (self f))))
       || (negb (repeat (self f)) && is_some (linked (self f))
           && linked_is_completed (self f))
    then revert f else f
  else f.

(** [if (p < 1 && this.completed) ...; this.prevProgress = p;] *)
Definition final_block (p : num) (f : Frame) : Frame :=
  let f := if (p <? one)%js && completed (self f)
           then on_self (set_completed false) f else f in
  on_self (set_prevProgress p) f.

Definition handleScroll (f : Frame) : Frame :=
  let this := self f in
  let shouldSeek :=
    is_some (linked this) && (is_some (syncEase this) || truthy_opt (syncSmooth this)) in
  let scroll' := scroll this (cont f) in
  let isBefore := (scroll' <=? offsetStart this)%js in
  let isAfter := (scroll' >=? offsetEnd this)%js in
  let isInView' := negb isBefore && negb isAfter in
  let isOnTheEdge := (scroll' === offsetStart this)%js || (scroll' === offsetEnd this)%js in
  let forceEnter' := negb (hasEntered this) && isOnTheEdge in
  let debug' := _debug this && debugEl this in
  let p := progress this (cont f) in
  let f := began_block isBefore p f in
  let '(p, hasUpdated, syncCompleted, f) := seek_block shouldSeek p f in
  let f := enter_block isInView' forceEnter' debug' f in
  let hasUpdated :=
    if isInView' || negb isInView' && isInView (self f) then true else hasUpdated in
  let f := if hasUpdated then update_block shouldSeek p f else f in
  let '(syncCompleted, f) := leave_block isInView' syncCompleted f in
  let f := complete_block p syncCompleted f in
  final_block p f.

(** *** updateBounds *)

(** Modelled from the spec: helpers.js is not among the sources; a
    threshold may be "a number", and [isNum] holds of a number other than
    [NaN]. *)
Definition isNum (n : num) : bool := negb (isNaN n).

(** The container anchor and the target anchor an [enter] or [leave]
    option stands for, given the anchors set so far. *)
Definition anchors (t : ScrollThreshold) (container' target' : ScrollThresholdValue)
    : ScrollThresholdValue * ScrollThresholdValue :=
  match t with
  | ThValue (VStr s) =>
      let splitted := Str.split s " " in
      (VStr (Str.item splitted 0),
       if (1 <? List.length splitted)%nat then VStr (Str.item splitted 1) else target')
  | ThParam c t =>
      (match c with Some v => v | None => container' end,
       match t with Some v => v | None => target' end)
  | ThValue (VNum n) => if isNum n then (VNum n, target') else (container', target')
  | ThOther => (container', target')
  end.

Variable convertValueUnit : num -> string -> num.

(** [linked.seek(time, true)] on the linked object of the observer, if
    there is one. *)
Definition seek_linked (time : num) (f : Frame) : Frame :=
  match linked (self f) with
  | Some l =>
      emit (LinkedSeek time true)
        (on_self (set_linked (Some (linked_seek time true l))) f)
  | None => f
  end.

(** [rect] is what [$target.getBoundingClientRect()] returns once the
    sticky ancestors are made static; making them static and restoring
    them changes the document only. *)
Definition updateBounds (rect : DOMRect) (f : Frame) : Frame :=
  let f := if _debug (self f) then removeDebug f else f in
  let container := cont f in
  let isHori := horizontal (self f) in
  let linkedTime :=
    match linked (self f) with Some l => Some (linked_currentTime l) | None => None end in
  let f := seek_linked (Fin 0) f in
  let offset' :=
    if isHori then (rect_left rect + scrollX container - left container)%js
    else (rect_top rect + scrollY container - top container)%js in
  let targetSize := if isHori then rect_width rect else rect_height rect in
  let containerSize := if isHori then width container else height container in
  let scrollSize := if isHori then scrollWidth container else scrollHeight container in
  let maxScroll := (scrollSize - containerSize)%js in
  let '(enterContainer, enterTarget) := anchors (enter (self f)) (VStr "end") (VStr "start") in
  let '(leaveContainer, leaveTarget) := anchors (leave (self f)) (VStr "start") (VStr "end") in
  let parsedEnterTarget := parseBoundValue convertValueUnit enterTarget targetSize None None in
  let parsedLeaveTarget := parseBoundValue convertValueUnit leaveTarget targetSize None None in
  let under := ((parsedEnterTarget + offset') - containerSize)%js in
  let over := ((parsedLeaveTarget + offset') - maxScroll)%js in
  let parsedEnterContainer :=
    parseBoundValue convertValueUnit enterContainer containerSize (Some under) (Some over) in
  let parsedLeaveContainer :=
    parseBoundValue convertValueUnit leaveContainer containerSize (Some under) (Some over) in
  let offsetStart' := (parsedEnterTarget + offset' - parsedEnterContainer)%js in
  let offsetEnd' := (parsedLeaveTarget + offset' - parsedLeaveContainer)%js in
  let scrollDelta := (offsetEnd' - offsetStart')%js in
  let f :=
    on_self
      (set_bounds offset' offsetStart' offsetEnd'
         (if (scrollDelta <=? zero)%js then Fin 0 else scrollDelta)
         [enterTarget; leaveTarget; enterContainer; leaveContainer]
         [parsedEnterTarget; parsedLeaveTarget; parsedEnterContainer; parsedLeaveContainer])
      f in
  let f := match linkedTime with Some t => seek_linked t f | None => f end in
  if _debug (self f) then debug f else f.

(** *** The constructor and refresh *)

(** The [sync] parameter: [Boolean|Number|String|EasingParam], absent or
    [null]. *)
Inductive SyncParam : Type :=
| SyncUndefined
| SyncNull
| SyncBool (b : bool)
| SyncNum (n : num)
| SyncStr (s : string)
| SyncFn (e : Easing).

(** The parameters the model reads.  [repeat], [axis], [enter] and
    [leave] stand for what [parseScrollObserverFunctionParameter] returns
    for them, [None] being [undefined]. *)
Record ScrollObserverParams : Type := {
  p_sync : SyncParam;
  p_repeat : option bool;
  p_axis : option string;
  p_enter : option ScrollThreshold;
  p_leave : option ScrollThreshold;
  p_debug : option bool
}.

(** [parseEasings] of eases.js. *)
Variable parseEasings : SyncParam -> Easing.

(** Modelled from the spec: values.js is not among the sources; an
    option left out takes its default, as the "default thresholds" do.
    [setValue(targetValue, defaultValue)] is the default for
    [undefined]. *)
Definition setValue {A : Type} (targetValue : option A) (defaultValue : A) : A :=
  match targetValue with Some v => v | None => defaultValue end.

Definition sync_truthy (v : SyncParam) : bool :=
  match v with
  | SyncUndefined | SyncNull => false
  | SyncBool b => b
  | SyncNum n => truthy n
  | SyncStr s => negb (String.eqb s "")
  | SyncFn _ => true
  end.

(** The fields the constructor derives from [parameters.sync]. *)
Record SyncFields : Type := {
  f_sync : bool;
  f_syncEase : option Easing;
  f_syncSmooth : option num;
  f_syncMethods : option (list string);
  f_biDirSync : bool
}.

Definition sync_fields (sync' : SyncParam) : SyncFields :=
  let syncMode := match sync' with SyncUndefined => SyncStr "play pause" | v => v end in
  let t := sync_truthy syncMode in
  let ease' := if t then Some (parseEasings syncMode) else None in
  let isLinear :=
    t && match syncMode with
         | SyncStr s => String.eqb s "linear"
         | SyncFn e => is_none e
         | _ => false
         end in
  let isEase :=
    t && negb (match ease' with Some e => is_none e | None => false end && negb isLinear) in
  let isSmooth :=
    t && (match syncMode with
          | SyncNum n => isNum n
          | SyncBool b => b
          | _ => false
          end || isLinear) in
  let isMethods :=
    t && (match syncMode with SyncStr _ => true | _ => false end
          && negb isEase && negb isSmooth) in
  let syncMethods :=
    match syncMode with
    | SyncStr s => if isMethods then Some (Str.split s " ") else None
    | _ => None
    end in
  let biDirSync :=
    isMethods && match syncMethods with
                 | Some ms => (2 <? List.length ms)%nat
                 | None => false
                 end in
  {| f_sync := isEase || isSmooth || is_some syncMethods;
     f_syncEase := if isEase then ease' else None;
     f_syncSmooth :=
       if isSmooth then
         match syncMode with
         | SyncNum n => if isLinear then Some one else Some n
         | _ => Some one
         end
       else None;
     f_syncMethods := syncMethods;
     f_biDirSync := biDirSync |}.

(** [syncMethods && cond && syncMethods[i] ? syncMethods[i] : noop] *)
Definition sync_method (s : SyncFields) (biDir : bool) (i : nat) : option string :=
  match f_syncMethods s with
  | Some ms => if Bool.eqb (f_biDirSync s) biDir then nth_error ms i else None
  | None => None
  end.

(** The observer [new ScrollObserver(parameters)] builds, [i] being the
    value of [scrollerIndex]. *)
Definition construct (parameters : ScrollObserverParams) (i : nat) : ScrollObserver :=
  let s := sync_fields (p_sync parameters) in
  {| index := i;
     linked := None;
     repeat := false;
     horizontal := false;
     enter := ThOther;
     leave := ThOther;
     sync := f_sync s;
     syncEase := f_syncEase s;
     syncSmooth := f_syncSmooth s;
     onSyncEnter := sync_method s false 0;
     onSyncLeave := sync_method s false 1;
     onSyncEnterForward := sync_method s true 0;
     onSyncLeaveForward := sync_method s true 1;
     onSyncEnterBackward := sync_method s true 2;
     onSyncLeaveBackward := sync_method s true 3;
     reverted := false;
     completed := false;
     began := false;
     isInView := false;
     forceEnter := false;
     hasEntered := false;
     offset := Fin 0;
     offsetStart := Fin 0;
     offsetEnd := Fin 0;
     distance := Fin 0;
     prevProgress := Fin 0;
     thresholds := [VStr "start"; VStr "end"; VStr "end"; VStr "start"];
     coords := [Fin 0; Fin 0; Fin 0; Fin 0];
     debugStyles := false;
     debugEl := false;
     _debug := setValue (p_debug parameters) false |}.

Definition refresh (params : ScrollObserverParams) (rect : DOMRect) (f : Frame) : Frame :=
  let f :=
    on_self
      (set_options false
         (setValue (p_repeat params) true)
         (String.eqb (setValue (p_axis params) "y") "x")
         (setValue (p_enter params) (ThValue (VStr "end start")))
         (setValue (p_leave params) (ThValue (VStr "start end"))))
      f in
  let f := updateBounds rect f in
  handleScroll f.

(** ** The container and its observers

    [observers] holds every observer by its [index], attached or not;
    [trace] tags each event with the observer that emitted it. *)

Record World : Type := {
  container : ScrollContainer;
  observers : gmap nat ScrollObserver;
  trace : list (nat * Event);
  scrollerIndex : nat
}.

(** A method of observer [i] run in the world. *)
Definition run (i : nat) (method : Frame -> Frame) (w : World) : World :=
  match observers w !! i with
  | Some o =>
      let f := method {| self := o; cont := container w; log := [] |} in
      {| container := cont f;
         observers := <[i := self f]> (observers w);
         trace := trace w ++ List.map (pair i) (log f);
         scrollerIndex := scrollerIndex w |}
  | None => w
  end.

(** [new ScrollObserver(parameters)]: the next index is taken and the
    observer is attached to the container. *)
Definition ScrollObserver_new (parameters : ScrollObserverParams) (w : World) : World :=
  let i := scrollerIndex w in
  {| container := addChild i (container w);
     observers := <[i := construct parameters i]> (observers w);
     trace := trace w;
     scrollerIndex := S i |}.

(** Modelled from the spec: helpers.js is not among the sources;
    [forEachChildren] visits "every attached observer", in "insertion
    order, or reverse order when scrolling backward", and a detach during
    the visit does not "invalidate the current iteration position". *)
Definition forEachChildren (callback : nat -> World -> World) (reverse : bool)
    (w : World) : World :=
  let order := if reverse then rev (children (container w)) else children (container w) in
  fold_left (fun w i => callback i w) order w.

(** The [onUpdate] of [scrollTicker]: one frame of the container. *)
Definition tick (w : World) : World :=
  let backwards := backwardX (container w) || backwardY (container w) in
  forEachChildren (fun i => run i handleScroll) backwards w.

(** The scroll event followed by a frame: the container reads the scroll
    offsets [(x, y)] of the document and its observers are visited. *)
Definition scroll_tick (xy : num * num) (w : World) : World :=
  tick {| container := updateScrollCoords (fst xy) (snd xy) (container w);
          observers := observers w;
          trace := trace w;
          scrollerIndex := scrollerIndex w |}.

End Model.

Arguments ScrollObserver : clear implicits.
Arguments Frame : clear implicits.
Arguments World : clear implicits.

Arguments progress : simpl never.
Arguments call_sync : simpl never.
Arguments removeDebug : simpl never.
Arguments debug : simpl never.
Arguments revert : simpl never.
Arguments began_block : simpl never.
Arguments seek_block : simpl never.
Arguments enter_calls : simpl never.
Arguments enter_block : simpl never.
Arguments update_block : simpl never.
Arguments leave_calls : simpl never.
Arguments leave_block : simpl never.
Arguments complete_block : simpl never.
Arguments final_block : simpl never.
Arguments handleScroll : simpl never.
Arguments seek_linked : simpl never.
Arguments updateBounds : simpl never.
Arguments parseBoundValue : simpl never.

(** * The vocabulary of the properties

    What the statements below speak of: the calls of an entry and of a
    leave, the view state machine one call of [handleScroll] steps, a
    sweep of scroll positions, the frames of a container. *)

Open Scope list_scope.

(** ** Threshold expressions *)

(** A number without fraction: rounding leaves it as it is. *)
Definition whole (n : num) : Prop :=
  match n with
  | Fin q => inject_Z (Qfloor q) == q
  | _ => True
  end.

(** The expression ["max" op "=" b] and its like for ["min"]. *)
Definition relative (keyword : string) (op : ascii) (b : string) : string :=
  (keyword ++ String op (String "=" b))%string.

(** The second operand the source reads off the expression,
    [splitted[1]]: [b] up to a further occurrence of the splitter. *)
Definition operandB (op : ascii) (b : string) : string :=
  Str.item (Str.split b (String op "=")) 0.

(** ** Events *)

(** The callbacks that tell an entry or a leave. *)
Definition is_enter_leave (e : Event) : bool :=
  match e with
  | Call (onUpdate_ | onSyncComplete_) => false
  | Call _ => true
  | _ => false
  end.

(** The enter and leave calls of a log, in order. *)
Definition calls (l : list Event) : list Event := List.filter is_enter_leave l.

Definition enter_forward : list Event :=
  [Call onSyncEnter_; Call onEnter_; Call onSyncEnterForward_; Call onEnterForward_].

Definition leave_forward : list Event :=
  [Call onSyncLeave_; Call onLeave_; Call onSyncLeaveForward_; Call onLeaveForward_].

Definition enter_backward : list Event :=
  [Call onSyncEnter_; Call onEnter_; Call onSyncEnterBackward_; Call onEnterBackward_].

Definition leave_backward : list Event :=
  [Call onSyncLeave_; Call onLeave_; Call onSyncLeaveBackward_; Call onLeaveBackward_].

(** The calls of an entry and of a leave, by the direction flag. *)
Definition enter_list (backward' : bool) : list Event :=
  if backward' then enter_backward else enter_forward.

Definition leave_list (backward' : bool) : list Event :=
  if backward' then leave_backward else leave_forward.

(** The events of observer [i] in a trace. *)
Definition events_of (i : nat) (tr : list (nat * Event)) : list (nat * Event) :=
  List.filter (fun e => Nat.eqb (fst e) i) tr.

(** The calls on the linked object in a log. *)
Definition is_linked_event (e : Event) : bool :=
  match e with
  | LinkedSeek _ _ | LinkedMethod _ => true
  | _ => false
  end.

Definition linked_events (l : list Event) : list Event := List.filter is_linked_event l.

(** ** The view state machine

    What one call of [handleScroll] does to the view state
    [(isInView, hasEntered, forceEnter)], given the conditions [isInView]
    and [forceEnter] it computes from the scroll position. *)

(** The condition of the enter branch:
    [(isInView && !this.isInView) || (forceEnter && !this.forceEnter &&
    !this.hasEntered)] *)
Definition entering (isInView' forceEnter' : bool) (v : bool * bool * bool) : bool :=
  let '(iv, he, fe) := v in
  (isInView' && negb iv) || (forceEnter' && negb fe && negb he).

(** The enter callbacks are called *)
Definition fires (isInView' forceEnter' : bool) (v : bool * bool * bool) : bool :=
  let '(iv, he, fe) := v in
  entering isInView' forceEnter' v && (negb fe || negb he).

(** The view state after the enter branch *)
Definition view_enter (isInView' forceEnter' : bool) (v : bool * bool * bool)
    : bool * bool * bool :=
  let '(iv, he, fe) := v in
  if entering isInView' forceEnter' v then
    let iv1 := if isInView' then true else iv in
    if negb fe || negb he then (iv1, true, if forceEnter' then true else fe)
    else if isInView' then (iv1, he, false)
    else (iv1, he, fe)
  else v.

(** The leave callbacks are called *)
Definition leaves (isInView' : bool) (v : bool * bool * bool) : bool :=
  let '(iv, he, fe) := v in negb isInView' && iv.

(** The view state after the leave branch *)
Definition view_leave (isInView' : bool) (v : bool * bool * bool) : bool * bool * bool :=
  let '(iv, he, fe) := v in
  if leaves isInView' v then (false, he, fe) else v.

(** [forceEnter = !this.hasEntered && isOnTheEdge] *)
Definition force (edge : bool) (v : bool * bool * bool) : bool :=
  negb (snd (fst v)) && edge.

(** One call of [handleScroll]: the enter branch, then the leave branch *)
Definition view_step (isInView' edge : bool) (v : bool * bool * bool)
    : bool * bool * bool :=
  view_leave isInView' (view_enter isInView' (force edge v) v).

(** The enter and leave callbacks one call of [handleScroll] calls *)
Definition step_calls (backward' isInView' edge : bool) (v : bool * bool * bool)
    : list Event :=
  (if fires isInView' (force edge v) v then enter_list backward' else [])
  ++ (if leaves isInView' (view_enter isInView' (force edge v) v)
      then leave_list backward' else []).

(** The four view states of a forward sweep: fresh, entered on the start
    bound, in view, left. *)
Definition fresh : bool * bool * bool := (false, false, false).

Definition forced : bool * bool * bool := (false, true, true).

Definition viewing : bool * bool * bool := (true, true, false).

Definition gone : bool * bool * bool := (false, true, false).

(** [a <= b] holds *)
Definition le_num (a b : num) : Prop := (a <=? b)%js = true.

Section SweepPositions.

(** The cached bounds. *)
Variables offsetStart' offsetEnd' : num.

(** [isInView] and [isOnTheEdge] at the scroll position [s] *)
Definition inside (s : num) : bool :=
  negb (s <=? offsetStart')%js && negb (s >=? offsetEnd')%js.

Definition on_edge (s : num) : bool :=
  (s === offsetStart')%js || (s === offsetEnd')%js.

(** The view state and the enter and leave calls after [handleScroll] has
    run at each position in turn. *)
Fixpoint run_view (positions : list num) (v : bool * bool * bool)
    : bool * bool * bool * list Event :=
  match positions with
  | [] => (v, [])
  | s :: rest =>
      let '(v', cs) := run_view rest (view_step (inside s) (on_edge s) v) in
      (v', step_calls false (inside s) (on_edge s) v ++ cs)
  end.

End SweepPositions.

(** ** Frames

    [static f] gathers what no block of [handleScroll] assigns: the
    configuration of the observer, its cached bounds, whether an object is
    linked, and the scroll state of the container. *)

Record Static : Type := {
  st_index : nat;
  st_repeat : bool;
  st_horizontal : bool;
  st_sync : bool;
  st_syncEase : option Easing;
  st_syncSmooth : option num;
  st_offsetStart : num;
  st_offsetEnd : num;
  st_distance : num;
  st_debug : bool;
  st_hasLinked : bool;
  st_scrollX : num;
  st_scrollY : num;
  st_backwardX : bool;
  st_backwardY : bool
}.

Section Vocabulary.

Context {L : Type} `{Linked L}.
Variable lerp : num -> num -> num -> num.
Variable interpolate : num -> num -> num -> num.

Definition static (f : Frame L) : Static :=
  {| st_index := index (self f);
     st_repeat := repeat (self f);
     st_horizontal := horizontal (self f);
     st_sync := sync (self f);
     st_syncEase := syncEase (self f);
     st_syncSmooth := syncSmooth (self f);
     st_offsetStart := offsetStart (self f);
     st_offsetEnd := offsetEnd (self f);
     st_distance := distance (self f);
     st_debug := _debug (self f);
     st_hasLinked := is_some (linked (self f));
     st_scrollX := scrollX (cont f);
     st_scrollY := scrollY (cont f);
     st_backwardX := backwardX (cont f);
     st_backwardY := backwardY (cont f) |}.

(** The view state of the observer. *)
Definition view (f : Frame L) : bool * bool * bool :=
  (isInView (self f), hasEntered (self f), forceEnter (self f)).

(** [quiet f f'] : from [f] to [f'] nothing static and nothing of the view
    state changes, and no enter or leave callback is called. *)
Definition quiet (f f' : Frame L) : Prop :=
  static f' = static f /\ view f' = view f /\ calls (log f') = calls (log f).

(** What only the completion of [handleScroll] and [revert] assign, and
    [began]. *)
Definition life (f : Frame L) : bool * bool * bool * list nat :=
  (reverted (self f), completed (self f), began (self f), children (cont f)).

(** What the debug overlay and a seek of the linked object leave alone. *)
Definition kept (f : Frame L) : num * num * num * bool :=
  (offsetStart (self f), offsetEnd (self f), distance (self f), _debug (self f)).

(** The raw quotient the getter divides out. *)
Definition quotient (o : ScrollObserver L) (c : ScrollContainer) : num :=
  ((scroll o c - offsetStart o) / distance o)%js.

(** The distance the observer caches for its two bounds:
    [scrollDelta <= 0 ? 0 : scrollDelta]. *)
Definition cached_distance (o : ScrollObserver L) : num :=
  let scrollDelta := (offsetEnd o - offsetStart o)%js in
  if (scrollDelta <=? zero)%js then Fin 0 else scrollDelta.

(** The two conditions [handleScroll] computes from the scroll position:
    [isInView] and [isOnTheEdge]. *)
Definition now_in_view (f : Frame L) : bool :=
  let s := scroll (self f) (cont f) in
  negb (s <=? offsetStart (self f))%js && negb (s >=? offsetEnd (self f))%js.

Definition now_on_edge (f : Frame L) : bool :=
  let s := scroll (self f) (cont f) in
  (s === offsetStart (self f))%js || (s === offsetEnd (self f))%js.

(** The scroll position the observer reads after the container has
    sampled the offsets [(x, y)] of the document. *)
Definition position (o : ScrollObserver L) (xy : num * num) : num :=
  round (if horizontal o then fst xy else snd xy) 0.

(** A scroll event and the call of [handleScroll] that follows it. *)
Definition sweep_step (f : Frame L) (xy : num * num) : Frame L :=
  handleScroll lerp interpolate (on_cont (updateScrollCoords (fst xy) (snd xy)) f).

(** [handleScroll] folded over the samples of a sweep. *)
Definition sweep (samples : list (num * num)) (f : Frame L) : Frame L :=
  fold_left sweep_step samples f.

(** Scroll events each followed by a frame of the container. *)
Definition scroll_ticks (samples : list (num * num)) (w : World L) : World L :=
  fold_left (fun w xy => scroll_tick lerp interpolate xy w) samples w.

End Vocabulary.

(** * The vocabulary of further properties *)

(** ** One call of handleScroll *)

(** The callbacks of a log, in order: every [Call] event. *)
Definition is_call (e : Event) : bool :=
  match e with Call _ => true | _ => false end.

Definition callbacks (l : list Event) : list Event := List.filter is_call l.

(** The calls of [ScrollContainer.revert] in a log. *)
Definition is_container_revert (e : Event) : bool :=
  match e with ContainerRevert => true | _ => false end.

Definition container_reverts (l : list Event) : list Event :=
  List.filter is_container_revert l.

(** A word: a string without a space. *)
Fixpoint no_space (s : string) : bool :=
  match s with
  | EmptyString => true
  | String c rest => negb (Ascii.eqb c " ") && no_space rest
  end.

(** An observer in view has entered. *)
Definition entered_in_view (v : bool * bool * bool) : Prop :=
  fst (fst v) = true -> snd (fst v) = true.

Section TickVocabulary.

Context {L : Type} `{Linked L}.

(** [shouldSeek = linked && (syncEase || syncSmooth)] *)
Definition should_seek (o : ScrollObserver L) : bool :=
  is_some (linked o) && (is_some (syncEase o) || truthy_opt (syncSmooth o)).

(** [isBefore = scroll <= this.offsetStart] *)
Definition now_before (f : Frame L) : bool :=
  (scroll (self f) (cont f) <=? offsetStart (self f))%js.

(** What [updateBounds] measures from, beside the rectangle of the
    target: the axis and the two thresholds of the observer, the scroll
    offsets, the position and the sizes of the container. *)
Definition measured_from (f : Frame L)
    : bool * ScrollThreshold * ScrollThreshold * (num * num * num * num)
      * (num * num * num * num) :=
  (horizontal (self f), enter (self f), leave (self f),
   (scrollX (cont f), scrollY (cont f), left (cont f), top (cont f)),
   (width (cont f), height (cont f), scrollWidth (cont f), scrollHeight (cont f))).

(** What [updateBounds] caches. *)
Definition cached_bounds (f : Frame L)
    : num * num * num * num * list ScrollThresholdValue * list num :=
  (offset (self f), offsetStart (self f), offsetEnd (self f), distance (self f),
   thresholds (self f), coords (self f)).

(** The observer calls no method of the linked object on entering or
    leaving: its six sync callbacks are [noop]. *)
Definition no_sync_methods (o : ScrollObserver L) : bool :=
  negb (is_some (onSyncEnter o) || is_some (onSyncLeave o)
        || is_some (onSyncEnterForward o) || is_some (onSyncLeaveForward o)
        || is_some (onSyncEnterBackward o) || is_some (onSyncLeaveBackward o)).

(** The view state of an observer: [isInView], [hasEntered] and
    [forceEnter]. *)
Definition view_of (o : ScrollObserver L) : bool * bool * bool :=
  (isInView o, hasEntered o, forceEnter o).

(** The indices of a world are in order: an observer is stored under its
    own index, below the index the next observer takes; the observers
    attached to the container are stored, and none is attached twice. *)
Definition well_indexed (w : World L) : Prop :=
  (forall i o, observers w !! i = Some o ->
               index o = i /\ (i < scrollerIndex w)%nat)
  /\ (forall i, In i (children (container w)) ->
                exists o, observers w !! i = Some o)
  /\ List.NoDup (children (container w)).

End TickVocabulary.

(** ** A pass through the view in either direction *)

(** The order of the positions of a pass: never back when the container
    moves forward, never forth when it moves backward. *)
Definition pass_order (backward' : bool) (x y : num) : Prop :=
  if backward' then le_num y x else le_num x y.

(** At or past the bound a pass ends at: [isAfter] forward, [isBefore]
    backward. *)
Definition beyond (backward' : bool) (offsetStart' offsetEnd' s : num) : bool :=
  if backward' then (s <=? offsetStart')%js else (s >=? offsetEnd')%js.

(** The view state and the enter and leave calls after [handleScroll] has
    run at each position in turn, the direction flag of the container
    being [backward']. *)
Fixpoint run_pass (backward' : bool) (offsetStart' offsetEnd' : num)
    (positions : list num) (v : bool * bool * bool)
    : bool * bool * bool * list Event :=
  match positions with
  | [] => (v, [])
  | s :: rest =>
      let iv := inside offsetStart' offsetEnd' s in
      let edge := on_edge offsetStart' offsetEnd' s in
      let '(v', cs) :=
        run_pass backward' offsetStart' offsetEnd' rest (view_step iv edge v) in
      (v', step_calls backward' iv edge v ++ cs)
  end.

(** The enter and leave callbacks of observer [i] in the trace of a
    world, in order. *)
Definition calls_of (i : nat) (tr : list (nat * Event)) : list Event :=
  calls (List.map snd (events_of i tr)).

(** * More of scroll.js

    The parts of the source the model above leaves out and the
    properties below speak of. *)

(** ** ScrollContainer: the sampling of direction and velocity *)

Section DataTimer.

(** [Math.sqrt], which has no exact value on the rationals. *)
Variable Math_sqrt : num -> num.

(** The [onUpdate] of [dataTimer]: [deltaTime] is [self.deltaTime] and
    [prev] holds [prevScrollX] and [prevScrollY], which the record of the
    container leaves out; the result holds their new values. *)
Definition dataTimer_onUpdate (deltaTime : num) (prev : num * num)
    (c : ScrollContainer) : num * num * ScrollContainer :=
  let dt := deltaTime in
  let px := fst prev in
  let py := snd prev in
  let nx := scrollX c in
  let ny := scrollY c in
  let dx := (px - nx)%js in
  let dy := (py - ny)%js in
  (nx, ny,
   {| width := width c; height := height c; left := left c; top := top c;
      zIndex := zIndex c; scrollX := scrollX c; scrollY := scrollY c;
      scrollWidth := scrollWidth c; scrollHeight := scrollHeight c;
      velocity :=
        round (if (dt >? zero)%js
               then (Math_sqrt (dx * dx + dy * dy) / dt)%js else Fin 0) 5;
      backwardX := if truthy dx then (px >? nx)%js else backwardX c;
      backwardY := if truthy dy then (py >? ny)%js else backwardY c;
      positionStatic := positionStatic c; children := children c;
      live := live c |}).

End DataTimer.

(** ** The registry of containers *)

Section Registry.

(** A DOM element is known by a number; [doc_body] is [doc.body].
    [parseTargets] of targets.js resolves a [TargetsParam], and
    [ScrollContainer_new] is [new ScrollContainer($el)], which reads the
    document. *)
Variable TargetsParam : Type.
Variable doc_body : nat.
Variable parseTargets : TargetsParam -> list nat.
Variable ScrollContainer_new : nat -> ScrollContainer.

(** [target ? parseTargets(target)[0] || doc.body : doc.body], [None]
    being a falsy [target]. *)
Definition container_element (target : option TargetsParam) : nat :=
  match target with
  | Some t => match parseTargets t with el :: _ => el | [] => doc_body end
  | None => doc_body
  end.

(** [scrollContainers] is the [Map] from elements to containers. *)
Definition registerAndGetScrollContainer (target : option TargetsParam)
    (scrollContainers : gmap nat ScrollContainer)
    : ScrollContainer * gmap nat ScrollContainer :=
  let el := container_element target in
  match scrollContainers !! el with
  | Some scrollContainer => (scrollContainer, scrollContainers)
  | None =>
      let scrollContainer := ScrollContainer_new el in
      (scrollContainer, <[el := scrollContainer]> scrollContainers)
  end.

(** [scrollContainers.delete(this.element)], the last statement of
    [ScrollContainer.revert]. *)
Definition unregister (el : nat) (scrollContainers : gmap nat ScrollContainer)
    : gmap nat ScrollContainer :=
  delete el scrollContainers.

End Registry.

(** ** The target a linked object provides *)

Section LinkedTargets.

(** A target of an animation; [isDom target] is [target[isDomSymbol]]. *)
Variable Target : Type.
Variable isDom : Target -> bool.

Fixpoint getAnimationDomTarget (linkedTargets : list Target) : option Target :=
  match linkedTargets with
  | [] => None
  | target :: rest =>
      if isDom target then Some target else getAnimationDomTarget rest
  end.

(** What [link] looks at in the linked object: an animation has
    [targets]; a timeline has none and has children, each with its
    [targets] or without. *)
Inductive LinkedTargets : Type :=
| AnimationTargets (targets : list Target)
| TimelineChildren (children : list (option (list Target))).

(** [$linkedTarget] in [link]: for a timeline, [forEachChildren] asks
    each child in turn while no target is found. *)
Definition linkedTarget (linked' : LinkedTargets) : option Target :=
  match linked' with
  | AnimationTargets targets => getAnimationDomTarget targets
  | TimelineChildren children =>
      fold_left
        (fun found child =>
           match child, found with
           | Some targets, None => getAnimationDomTarget targets
           | _, _ => found
           end)
        children None
  end.

(** Every target of the linked object, in the order [link] looks at
    them. *)
Definition targets_in_order (linked' : LinkedTargets) : list Target :=
  match linked' with
  | AnimationTargets targets => targets
  | TimelineChildren children =>
      List.concat
        (List.map (fun child => match child with Some ts => ts | None => [] end)
           children)
  end.

(** [this.target = $linkedTarget || doc.body] *)
Definition link_target (doc_body : Target) (linked' : LinkedTargets) : Target :=
  match linkedTarget linked' with Some t => t | None => doc_body end.

End LinkedTargets.


(** * Concrete observers

    A linked object, collaborators and a container to run the model on. *)

Module Sample.

(** Modelled from the spec: the linked object belongs to timer.js, which
    is not among the sources; it "must expose [pause()], [seek(time,
    muteCallbacks?)], a read-only [progress] in [0,1], [duration],
    [completed], [currentTime]".  A clock with a time cursor that [seek]
    moves, played and paused by the two methods of those names. *)
Record Clock : Type := {
  clock_time : num;
  clock_duration : num;
  clock_paused : bool
}.

#[global] Instance Clock_Linked : Linked Clock := {
  linked_currentTime c := clock_time c;
  linked_progress c := clamp (clock_time c / clock_duration c)%js zero one;
  linked_duration c := clock_duration c;
  linked_completed c := (clock_time c >=? clock_duration c)%js;
  linked_seek time _ c :=
    {| clock_time := time; clock_duration := clock_duration c;
       clock_paused := clock_paused c |};
  linked_method m c :=
    if String.eqb m "play"
    then Some {| clock_time := clock_time c; clock_duration := clock_duration c;
                 clock_paused := false |}
    else if String.eqb m "pause"
    then Some {| clock_time := clock_time c; clock_duration := clock_duration c;
                 clock_paused := true |}
    else None
}.

(** Modelled from the spec: utils.js and helpers.js are not among the
    sources; the smoothed progress "approaches true progress" at a rate
    "interpolated" into a range.  Both move linearly here; no observer
    below is smoothed. *)
Definition lerp (start end_ amount : num) : num :=
  (start + (end_ - start) * amount)%js.

Definition interpolate (start end_ progress' : num) : num :=
  (start + (end_ - start) * progress')%js.

(** Modelled from the spec: units.js is not among the sources; the
    conversion is "assumed to return a best-effort pixel value or 0".
    Pixels are kept and every other unit gives 0. *)
Definition convertValueUnit (n : num) (unit : string) : num :=
  if String.eqb unit "px" then n else Fin 0.

(** Modelled from the spec: eases.js is not among the sources; a function
    is an easing already, and no string stands for one here. *)
Definition parseEasings (v : SyncParam) : Easing :=
  match v with SyncFn e => e | _ => none end.

(** A vertical container 1000 pixels high over 3000 pixels of content,
    scrolled to [y] and moving forward, with observer 0 attached. *)
Definition container_at (y : num) : ScrollContainer :=
  {| width := Fin 800; height := Fin 1000; left := Fin 0; top := Fin 0;
     zIndex := 0; scrollX := Fin 0; scrollY := y;
     scrollWidth := Fin 800; scrollHeight := Fin 3000;
     velocity := Fin 0; backwardX := false; backwardY := false;
     positionStatic := true; children := [0%nat]; live := true |}.

(** Observer 0 as [refresh] leaves it for the given [sync] and [repeat]
    parameters, with the bounds 0 and 100 cached. *)
Definition observer (sync' : SyncParam) (repeat' : bool) : ScrollObserver Clock :=
  set_bounds (Fin 0) (Fin 0) (Fin 100) (Fin 100)
    [VStr "start"; VStr "end"; VStr "end"; VStr "start"]
    [Fin 0; Fin 0; Fin 0; Fin 0]
    (set_options false repeat' false
       (ThValue (VStr "end start")) (ThValue (VStr "start end"))
       (construct parseEasings
          {| p_sync := sync'; p_repeat := Some repeat'; p_axis := None;
             p_enter := None; p_leave := None; p_debug := None |} 0)).

Definition frame (sync' : SyncParam) (repeat' : bool) (y : num) : Frame Clock :=
  {| self := observer sync' repeat'; cont := container_at y; log := [] |}.

Definition world (sync' : SyncParam) (repeat' : bool) (y : num) : World Clock :=
  {| container := container_at y;
     observers := {[ 0%nat := observer sync' repeat' ]};
     trace := [];
     scrollerIndex := 1 |}.

Definition clock : Clock :=
  {| clock_time := Fin 250; clock_duration := Fin 1000; clock_paused := true |}.

(** The frame of the sample observer with the sample clock linked. *)
Definition linked_frame : Frame Clock :=
  on_self (set_linked (Some clock)) (frame SyncUndefined true (Fin 0)).

End Sample.

(** * Further concrete inputs *)

Module Cases.

(** [Math.sqrt] is a built-in of the language; here the integer square
    root of the whole part, exact on the squares of whole numbers. *)
Definition Math_sqrt (n : num) : num :=
  match n with
  | Fin q => Fin (inject_Z (Z.sqrt (Qfloor q)))
  | NInf => NaN
  | _ => n
  end.

(** The sample observer once it has entered, out of view or in view. *)
Definition entered (sync' : SyncParam) (repeat' inView : bool) : ScrollObserver Sample.Clock :=
  set_isInView inView (set_hasEntered true (Sample.observer sync' repeat')).

Definition entered_frame (sync' : SyncParam) (repeat' inView : bool) (y : num)
    : Frame Sample.Clock :=
  {| self := entered sync' repeat' inView; cont := Sample.container_at y; log := [] |}.

(** The sample container scrolled to [y] and moving backward. *)
Definition container_back (y : num) : ScrollContainer :=
  {| width := Fin 800; height := Fin 1000; left := Fin 0; top := Fin 0;
     zIndex := 0; scrollX := Fin 0; scrollY := y;
     scrollWidth := Fin 800; scrollHeight := Fin 3000;
     velocity := Fin 0; backwardX := false; backwardY := true;
     positionStatic := true; children := [0%nat]; live := true |}.

(** The world of that container, with the sample observer, which has
    entered and left and repeats, stored and attached as observer 0. *)
Definition back_world (y : num) : World Sample.Clock :=
  {| container := container_back y;
     observers := {[ 0%nat := entered SyncUndefined true false ]};
     trace := [];
     scrollerIndex := 1 |}.

(** An easing, and the sample observer synchronised by it with the
    sample clock linked. *)
Definition square : Easing := ease (fun p => (p * p)%js).

Definition eased_frame (y : num) : Frame Sample.Clock :=
  on_self (set_linked (Some Sample.clock)) (Sample.frame (SyncFn square) true y).

(** Parameters that leave everything out, and the rectangle of a target
    200 pixels high, 800 pixels below the top of the container. *)
Definition no_parameters : ScrollObserverParams :=
  {| p_sync := SyncUndefined; p_repeat := None; p_axis := None;
     p_enter := None; p_leave := None; p_debug := None |}.

Definition target_rect : DOMRect :=
  {| rect_left := Fin 0; rect_top := Fin 800;
     rect_width := Fin 100; rect_height := Fin 200 |}.

(** A sweep down the page and one back up. *)
Definition down : list (num * num) :=
  [(Fin 0, Fin (-10)); (Fin 0, Fin 0); (Fin 0, Fin 40);
   (Fin 0, Fin 100); (Fin 0, Fin 130)].

Definition up : list (num * num) :=
  [(Fin 0, Fin 130); (Fin 0, Fin 100); (Fin 0, Fin 40);
   (Fin 0, Fin 0); (Fin 0, Fin (-10))].

End Cases.


(** ** Tactics *)

(** Case analysis on the conditions of a block, and the closing step for
    a frame reached by assignments and events that are no enter or leave
    call. *)
Ltac split_ifs :=
  repeat match goal with
         | |- context [if ?b then _ else _] => destruct b eqn:?
         end.

Ltac quiet_prim :=
  split; [reflexivity|];
  split; [reflexivity|];
  unfold calls; cbn [log emit on_self on_cont call];
  rewrite ?List.filter_app; cbn [List.filter is_enter_leave];
  rewrite ?app_nil_r; reflexivity.

(** * Properties *)

(** ** Order and rounding on numbers *)

Lemma Qltb_true (x y : Q) : Qltb x y = true <-> x < y.
Proof.
  unfold Qltb. rewrite negb_true_iff. split.
  - intros E. apply Qnot_le_lt. intros Hle.
    apply Qle_bool_iff in Hle. congruence.
  - intros Hlt. destruct (Qle_bool y x) eqn:E; [|reflexivity].
    apply Qle_bool_iff in E. exfalso. eapply Qlt_not_le; eauto.
Qed.

Lemma Qltb_false (x y : Q) : Qltb x y = false <-> y <= x.
Proof.
  unfold Qltb. rewrite negb_false_iff. apply Qle_bool_iff.
Qed.

Lemma Qle_bool_false (x y : Q) : Qle_bool x y = false <-> y < x.
Proof.
  rewrite <- Qltb_true. unfold Qltb. rewrite negb_true_iff. reflexivity.
Qed.

Lemma pow10_pos (d : nat) : 0 < pow10 d.
Proof.
  unfold pow10. replace 0 with (inject_Z 0) by reflexivity.
  rewrite <- Zlt_Qlt. apply Z.pow_pos_nonneg; lia.
Qed.

(** The integer nearest to a fraction of the unit interval scaled by a
    positive integer stays within the scale. *)
Lemma Qfloor_half_bounds (y : Q) (n : Z) :
  0 <= y -> y <= inject_Z n -> (0 <= Qfloor (y + (1 # 2)) <= n)%Z.
Proof.
  intros H0 H1. split.
  - change 0%Z with (Qfloor 0). apply Qfloor_resp_le. lra.
  - assert (Hlt : inject_Z (Qfloor (y + (1 # 2))) < inject_Z (n + 1)).
    { eapply Qle_lt_trans; [apply Qfloor_le|].
      rewrite inject_Z_plus. change (inject_Z 1) with 1. lra. }
    rewrite <- Zlt_Qlt in Hlt. lia.
Qed.

Lemma round_unit (y : Q) (d : nat) :
  0 <= y <= 1 -> exists q, round (Fin y) d = Fin q /\ 0 <= q <= 1.
Proof.
  intros [H0 H1]. destruct d as [|d].
  - unfold round, Math_round. eexists; split; [reflexivity|].
    destruct (Qfloor_half_bounds y 1 H0 H1) as [Ha Hb].
    split.
    + change 0 with (inject_Z 0). rewrite <- Zle_Qle. exact Ha.
    + change 1 with (inject_Z 1). rewrite <- Zle_Qle. exact Hb.
  - unfold round, Math_round, JS.mul.
    set (P := pow10 (S d)).
    assert (HP : 0 < P) by apply pow10_pos.
    eexists; split; [reflexivity|].
    rewrite Qred_correct.
    assert (Hy : 0 <= y * P) by (apply Qmult_le_0_compat; lra).
    assert (Hy' : y * P <= inject_Z (10 ^ Z.of_nat (S d))).
    { change (inject_Z (10 ^ Z.of_nat (S d))) with P.
      apply Qle_trans with (1 * P); [apply Qmult_le_compat_r; lra|].
      rewrite Qmult_1_l. apply Qle_refl. }
    destruct (Qfloor_half_bounds (y * P) _ Hy Hy') as [Ha Hb].
    split.
    + apply Qle_shift_div_l; [exact HP|].
      rewrite Qmult_0_l. change 0 with (inject_Z 0).
      rewrite <- Zle_Qle. exact Ha.
    + apply Qle_shift_div_r; [exact HP|].
      rewrite Qmult_1_l.
      unfold P, pow10. rewrite <- Zle_Qle. exact Hb.
Qed.

Lemma round_mono (x y : Q) (d : nat) :
  x <= y -> (round (Fin x) d <=? round (Fin y) d)%js = true.
Proof.
  intros Hxy. destruct d as [|d].
  - unfold round, Math_round, JS.le. apply Qle_bool_iff. rewrite <- Zle_Qle.
    apply Qfloor_resp_le. lra.
  - unfold round, Math_round, JS.mul, JS.le.
    set (P := pow10 (S d)).
    assert (HP : 0 < P) by apply pow10_pos.
    apply Qle_bool_iff. rewrite !Qred_correct.
    apply Qmult_le_compat_r.
    + rewrite <- Zle_Qle. apply Qfloor_resp_le.
      assert (x * P <= y * P) by (apply Qmult_le_compat_r; lra). lra.
    + apply Qlt_le_weak. apply Qinv_lt_0_compat. exact HP.
Qed.

Lemma round_zero (d : nat) : round (Fin 0) d = Fin 0.
Proof.
  destruct d as [|d]; [reflexivity|].
  unfold round, Math_round, JS.mul.
  assert (E : Qfloor (0 * pow10 (S d) + (1 # 2)) = 0%Z).
  { assert (Hq : 0 * pow10 (S d) + (1 # 2) == 1 # 2) by ring.
    rewrite Hq. reflexivity. }
  rewrite E. f_equal.
Qed.

Lemma clamp_fin (x : Q) :
  exists y, clamp (Fin x) (Fin 0) (Fin 1) = Fin y /\ 0 <= y <= 1
            /\ (x <= 0 -> y == 0) /\ (1 <= x -> y == 1) /\ (0 <= x <= 1 -> y == x).
Proof.
  unfold clamp, JS.gt, JS.lt.
  destruct (Qltb x 0) eqn:E0.
  - apply Qltb_true in E0. exists 0. repeat split; intros; lra.
  - apply Qltb_false in E0. destruct (Qltb 1 x) eqn:E1.
    + apply Qltb_true in E1. exists 1. repeat split; intros; lra.
    + apply Qltb_false in E1. exists x. repeat split; intros; lra.
Qed.

Lemma clamp_mono (x1 x2 : Q) :
  x1 <= x2 ->
  exists y1 y2, clamp (Fin x1) (Fin 0) (Fin 1) = Fin y1
                /\ clamp (Fin x2) (Fin 0) (Fin 1) = Fin y2 /\ y1 <= y2.
Proof.
  intros Hx.
  destruct (clamp_fin x1) as (y1 & E1 & B1 & L1 & U1 & M1).
  destruct (clamp_fin x2) as (y2 & E2 & B2 & L2 & U2 & M2).
  exists y1, y2. repeat split; try assumption.
  destruct (Qlt_le_dec x1 0) as [Ha|Ha].
  - rewrite L1 by lra. lra.
  - destruct (Qlt_le_dec 1 x2) as [Hb|Hb].
    + rewrite U2 by lra. lra.
    + rewrite M1, M2 by lra. exact Hx.
Qed.

(** ** The progress getter *)

Section Progress.

Context {L : Type} `{Linked L}.

Lemma progress_of_quotient (o : ScrollObserver L) (c : ScrollContainer) :
  progress o c =
  match quotient o c with
  | NaN | PInf => Fin 0
  | p => round (clamp p (Fin 0) (Fin 1)) 6
  end.
Proof.
  unfold progress. fold (quotient o c). destruct (quotient o c); reflexivity.
Qed.

Lemma progress_unit (o : ScrollObserver L) (c : ScrollContainer) :
  exists q, progress o c = Fin q /\ 0 <= q <= 1.
Proof.
  rewrite progress_of_quotient. destruct (quotient o c) as [| | |x].
  - exists 0. split; [reflexivity|lra].
  - exists 0. split; [reflexivity|lra].
  - exists 0. split; [apply round_zero|lra].
  - destruct (clamp_fin x) as (y & E & B & _). rewrite E. apply round_unit, B.
Qed.

Lemma sgn_Eq (q : Q) : sgn q = Eq <-> q == 0.
Proof. unfold sgn. symmetry. apply Qeq_alt. Qed.

Lemma sgn_Gt (q : Q) : sgn q = Gt <-> 0 < q.
Proof. unfold sgn. symmetry. apply Qgt_alt. Qed.

Lemma sgn_Lt (q : Q) : sgn q = Lt <-> q < 0.
Proof. unfold sgn. symmetry. apply Qlt_alt. Qed.

Lemma progress_zero_distance (o : ScrollObserver L) (c : ScrollContainer) (d : Q) :
  distance o = Fin d -> d == 0 -> progress o c = Fin 0.
Proof.
  intros Hd Hz. rewrite progress_of_quotient. unfold quotient. rewrite Hd.
  apply (proj2 (sgn_Eq d)) in Hz.
  destruct (scroll o c - offsetStart o)%js as [| | |n]; simpl; rewrite ?Hz;
    try reflexivity; try apply round_zero.
  destruct (sgn n); reflexivity.
Qed.

Lemma progress_monotone (o : ScrollObserver L) (c c' : ScrollContainer) (s s' : Q) :
  (distance o <? zero)%js = false ->
  scroll o c = Fin s -> scroll o c' = Fin s' -> s <= s' ->
  (progress o c <=? progress o c')%js = true.
Proof.
  intros Hd Hs Hs' Hle.
  rewrite !progress_of_quotient. unfold quotient. rewrite Hs, Hs'.
  destruct (distance o) as [| | |d] eqn:Ed.
  - destruct (offsetStart o); reflexivity.
  - destruct (offsetStart o); simpl; rewrite ?round_zero; reflexivity.
  - discriminate Hd.
  - unfold zero, JS.lt in Hd. apply Qltb_false in Hd.
    destruct (offsetStart o) as [| | |a]; try reflexivity.
    + simpl. destruct (sgn d); simpl; rewrite ?round_zero; reflexivity.
    + simpl. destruct (sgn d); reflexivity.
    + simpl. destruct (sgn d) eqn:Esg.
      * destruct (sgn (s - a)), (sgn (s' - a)); simpl;
          rewrite ?round_zero; reflexivity.
      * apply (proj1 (sgn_Lt d)) in Esg. exfalso. lra.
      * apply (proj1 (sgn_Gt d)) in Esg.
        assert (Hq : (s - a) / d <= (s' - a) / d).
        { apply Qmult_le_compat_r; [lra|].
          apply Qlt_le_weak, Qinv_lt_0_compat, Esg. }
        destruct (clamp_mono _ _ Hq) as (y1 & y2 & E1 & E2 & Hy).
        rewrite E1, E2. apply round_mono, Hy.
Qed.

(** C1.  Whatever the cached bounds and the scroll position, the progress
    getter returns a number between 0 and 1.  It returns 0 whenever the
    quotient [(scroll - offsetStart) / distance] is [Infinity] or [NaN],
    and for every position when [distance] is 0.  For bounds as the
    observer caches them, that is a [distance] that is not negative, the
    progress at a position is at most the progress at any later position,
    inside the interval from [offsetStart] to [offsetEnd] as well as
    outside of it. *)
Theorem progress_range_and_monotone (o : ScrollObserver L) (c : ScrollContainer) :
  (exists q, progress o c = Fin q /\ 0 <= q <= 1)
  /\ (quotient o c = PInf \/ quotient o c = NaN -> progress o c = Fin 0)
  /\ (forall d, distance o = Fin d -> d == 0 -> progress o c = Fin 0)
  /\ (forall (c' : ScrollContainer) (s s' : Q),
        (distance o <? zero)%js = false ->
        scroll o c = Fin s -> scroll o c' = Fin s' ->
        (offsetStart o <=? Fin s)%js = true -> s <= s' ->
        (Fin s' <=? offsetEnd o)%js = true ->
        (progress o c <=? progress o c')%js = true).
Proof.
  split; [apply progress_unit|].
  split.
  { intros [E|E]; rewrite progress_of_quotient, E; reflexivity. }
  split; [apply progress_zero_distance|].
  intros c' s s' Hd Hs Hs' _ Hle _. eapply progress_monotone; eauto.
Qed.

End Progress.

(** ** The threshold resolver *)

Lemma Qfloor_half_int (z : Z) : Qfloor (inject_Z z + (1 # 2)) = z.
Proof.
  pose proof (Qfloor_le (inject_Z z + (1 # 2))) as Hlo.
  pose proof (Qlt_floor (inject_Z z + (1 # 2))) as Hhi.
  set (f := Qfloor (inject_Z z + (1 # 2))) in *.
  assert (H1 : inject_Z f < inject_Z (z + 1)).
  { rewrite inject_Z_plus. change (inject_Z 1) with 1. lra. }
  assert (H2 : inject_Z z < inject_Z (f + 1)) by lra.
  rewrite <- Zlt_Qlt in H1, H2. lia.
Qed.


(** [Math.round] leaves a number unchanged exactly when it is an integer
    (or not finite, except that [NaN] equals nothing). *)
Lemma Math_round_fixed (q : Q) :
  (Math_round (Fin q) === Fin q)%js = true <-> inject_Z (Qfloor q) == q.
Proof.
  unfold Math_round, JS.eq. rewrite Qeq_bool_iff. split; intros E.
  - rewrite <- E at 1. rewrite Qfloor_Z. exact E.
  - rewrite <- E at 1. rewrite Qfloor_half_int. exact E.
Qed.

Lemma gt_irrefl (a : num) : (a >? a)%js = false.
Proof.
  destruct a as [| | |x]; try reflexivity.
  unfold JS.gt, JS.lt. apply Qltb_false. apply Qle_refl.
Qed.

Lemma lt_asym (a b : num) : (a <? b)%js = true -> (b <? a)%js = false.
Proof.
  destruct a as [| | |x], b as [| | |y]; try reflexivity; try discriminate.
  unfold JS.lt. rewrite Qltb_true, Qltb_false. apply Qlt_le_weak.
Qed.

(** Rounding to whole pixels never reverses an order. *)
Lemma round_not_gt (a b : num) :
  (a >? b)%js = false -> (round a 0 >? round b 0)%js = false.
Proof.
  destruct a as [| | |x], b as [| | |y]; try reflexivity; try discriminate.
  unfold JS.gt, JS.lt, round, Math_round. rewrite !Qltb_false. intros Hxy.
  rewrite <- Zle_Qle. apply Qfloor_resp_le. lra.
Qed.

Lemma Math_round_whole (q : Q) :
  inject_Z (Qfloor q) == q -> Math_round (Fin q) = Fin (inject_Z (Qfloor q)).
Proof.
  intros E. unfold Math_round. do 2 f_equal.
  rewrite <- E at 1. apply Qfloor_half_int.
Qed.

Lemma not_gt_round_whole (a n : num) :
  whole n -> (a >? round n 0)%js = false -> (a >? n)%js = false.
Proof.
  destruct n as [| | |q]; try (intros _ E; exact E).
  intros Hw. change (round (Fin q) 0) with (Math_round (Fin q)).
  rewrite (Math_round_whole q Hw).
  destruct a as [| | |x]; try (intros E; exact E).
  unfold JS.gt, JS.lt. rewrite !Qltb_false. cbn in Hw. intros Hx.
  rewrite <- Hw. exact Hx.
Qed.

Lemma not_lt_round_whole (a n : num) :
  whole n -> (a <? round n 0)%js = false -> (a <? n)%js = false.
Proof.
  destruct n as [| | |q]; try (intros _ E; exact E).
  intros Hw. change (round (Fin q) 0) with (Math_round (Fin q)).
  rewrite (Math_round_whole q Hw).
  destruct a as [| | |x]; try (intros E; exact E).
  unfold JS.lt. rewrite !Qltb_false. cbn in Hw. intros Hx.
  rewrite <- Hw. exact Hx.
Qed.

Lemma relative_operator_cases (op : ascii) :
  is_relative_operator op = true ->
  op = "*"%char \/ op = "+"%char \/ op = "-"%char \/ op = "/"%char.
Proof.
  unfold is_relative_operator. rewrite !orb_true_iff, !Ascii.eqb_eq. tauto.
Qed.

Section Thresholds.

Variable convertValueUnit : num -> string -> num.

Local Abbreviation parse := (parseBoundValue convertValueUnit).
Local Abbreviation toPx := (convertValueToPx convertValueUnit).

(** C5.  With an axis size of 200, [parseBoundValue] returns 100 for
    ["center"], 0 for ["start"], 200 for ["end"] and 120 for the relative
    expression ["50%+=20"], whatever the underflow and overflow
    adjustments. *)
Theorem threshold_keywords_and_percentages (under over : option num) :
  parse (VStr "center") (Fin 200) under over = Fin 100
  /\ parse (VStr "start") (Fin 200) under over = Fin 0
  /\ parse (VStr "end") (Fin 200) under over = Fin 200
  /\ parse (VStr "50%+=20") (Fin 200) under over = Fin 120.
Proof. repeat split; vm_compute; reflexivity. Qed.

Lemma parse_relative_max (size : num) (under over : option num) (op : ascii) (b : string) :
  is_relative_operator op = true ->
  parse (VStr (relative "max" op b)) size under over =
  let valueAPx := toPx (VStr "max") size under over in
  let valueBPx := toPx (VStr (operandB op b)) size under over in
  let max := getRelativeValue (toPx (VStr "max") size None None) valueBPx op in
  round (if (max >? valueAPx)%js then valueAPx else max) 0.
Proof.
  intros Hop.
  destruct (relative_operator_cases op Hop) as [E|[E|[E|E]]]; subst op; reflexivity.
Qed.

Lemma parse_relative_min (size : num) (under over : option num) (op : ascii) (b : string) :
  is_relative_operator op = true ->
  parse (VStr (relative "min" op b)) size under over =
  let valueAPx := toPx (VStr "min") size under over in
  let valueBPx := toPx (VStr (operandB op b)) size under over in
  let min := getRelativeValue (toPx (VStr "min") size None None) valueBPx op in
  round (if (min <? valueAPx)%js then valueAPx else min) 0.
Proof.
  intros Hop.
  destruct (relative_operator_cases op Hop) as [E|[E|[E|E]]]; subst op; reflexivity.
Qed.

(** C4, as the code has it.  For every axis size, every underflow and
    overflow adjustment and every second operand, an expression whose
    first operand is ["max"] resolves to [round(max > a ? a : max, 0)],
    where [max] is the arithmetic result (the keyword resolved without
    adjustments, combined with the second operand) and [a] the keyword
    resolved with the adjustments ([max + under] when [under < 0], [max]
    otherwise): the whole pixel nearest to the smaller of the two.  So
    the value returned exceeds neither the rounded arithmetic result nor
    the rounded adjusted [max], and it does not exceed the arithmetic
    result itself when that is a whole number.
    Symmetrically, with ["min"] first the expression resolves to
    [round(min < a ? a : min, 0)], with [a] the adjusted [min]
    ([min + over] when [over > 0]): the whole pixel nearest to the larger
    of the two, which is below neither the rounded arithmetic result nor
    the rounded adjusted [min], nor the arithmetic result itself when
    that is a whole number. *)
Theorem relative_max_min_rounded
    (size : num) (under over : option num) (op : ascii) (b : string) :
  is_relative_operator op = true ->
  let valueBPx := toPx (VStr (operandB op b)) size under over in
  let max := getRelativeValue (toPx (VStr "max") size None None) valueBPx op in
  let min := getRelativeValue (toPx (VStr "min") size None None) valueBPx op in
  let max_adjusted := toPx (VStr "max") size under over in
  let min_adjusted := toPx (VStr "min") size under over in
  let from_max := parse (VStr (relative "max" op b)) size under over in
  let from_min := parse (VStr (relative "min" op b)) size under over in
  (from_max = round (if (max >? max_adjusted)%js then max_adjusted else max) 0
   /\ (from_max >? round max 0)%js = false
   /\ (from_max >? round max_adjusted 0)%js = false
   /\ (whole max -> (from_max >? max)%js = false))
  /\ (from_min = round (if (min <? min_adjusted)%js then min_adjusted else min) 0
      /\ (from_min <? round min 0)%js = false
      /\ (from_min <? round min_adjusted 0)%js = false
      /\ (whole min -> (from_min <? min)%js = false))
  /\ max_adjusted
     = (if below_zero under
        then plus_arg (toPx (VStr "max") size None None) under
        else toPx (VStr "max") size None None)
  /\ min_adjusted
     = (if above_zero over
        then plus_arg (toPx (VStr "min") size None None) over
        else toPx (VStr "min") size None None).
Proof.
  intros Hop valueBPx max min A A' from_max from_min.
  assert (Eadj : A = (if below_zero under
                      then plus_arg (toPx (VStr "max") size None None) under
                      else toPx (VStr "max") size None None)
                 /\ A' = (if above_zero over
                          then plus_arg (toPx (VStr "min") size None None) over
                          else toPx (VStr "min") size None None))
    by (split; reflexivity).
  assert (Emax : from_max = round (if (max >? A)%js then A else max) 0)
    by (apply parse_relative_max, Hop).
  assert (Emin : from_min = round (if (min <? A')%js then A' else min) 0)
    by (apply parse_relative_min, Hop).
  clearbody from_max from_min max min A A'.
  split; [|split; [|exact Eadj]].
  - assert (H1 : (from_max >? round max 0)%js = false).
    { rewrite Emax. destruct (max >? A)%js eqn:E.
      - apply round_not_gt. apply lt_asym. exact E.
      - apply gt_irrefl. }
    assert (H2 : (from_max >? round A 0)%js = false).
    { rewrite Emax. destruct (max >? A)%js eqn:E.
      - apply gt_irrefl.
      - apply round_not_gt. exact E. }
    split; [exact Emax|]. split; [exact H1|]. split; [exact H2|].
    intros Hw. apply not_gt_round_whole; assumption.
  - assert (H1 : (from_min <? round min 0)%js = false).
    { rewrite Emin. destruct (min <? A')%js eqn:E.
      - apply (round_not_gt min A'). apply lt_asym. exact E.
      - apply gt_irrefl. }
    assert (H2 : (from_min <? round A' 0)%js = false).
    { rewrite Emin. destruct (min <? A')%js eqn:E.
      - apply gt_irrefl.
      - apply (round_not_gt A' min). exact E. }
    split; [exact Emin|]. split; [exact H1|]. split; [exact H2|].
    intros Hw. apply not_lt_round_whole; assumption.
Qed.

(** C6, as the code has it.  A plain number is returned as
    [Math.round] has it, whatever the size and the adjustments: a finite
    number comes back as the nearest whole pixel, a tie going up, so it
    comes back unmodified exactly when it is an integer; [Infinity],
    [-Infinity] and [NaN] come back as they are.  The resolver is a total
    function, so it yields a number for every number given. *)
Theorem number_threshold_rounded (v : num) (size : num) (under over : option num) :
  parse (VNum v) size under over = round v 0
  /\ match v with
     | Fin q =>
         parse (VNum v) size under over = Fin (inject_Z (Qfloor (q + (1 # 2))))
         /\ ((parse (VNum v) size under over === v)%js = true
             <-> inject_Z (Qfloor q) == q)
     | _ => parse (VNum v) size under over = v
     end.
Proof.
  split; [reflexivity|].
  destruct v as [| | |q]; try reflexivity.
  split; [reflexivity|]. apply Math_round_fixed.
Qed.

End Thresholds.

(** ** What a method leaves alone *)

Section Frames.

Context {L : Type} `{Linked L}.
Variable lerp : num -> num -> num -> num.
Variable interpolate : num -> num -> num -> num.

Lemma quiet_refl (f : Frame L) : quiet f f.
Proof. repeat split. Qed.

Lemma quiet_trans (f g h : Frame L) : quiet f g -> quiet g h -> quiet f h.
Proof.
  intros (A1 & A2 & A3) (B1 & B2 & B3).
  repeat split; congruence.
Qed.

Lemma calls_emit (e : Event) (f : Frame L) :
  calls (log (emit e f)) = calls (log f) ++ (if is_enter_leave e then [e] else []).
Proof.
  unfold calls. simpl. rewrite List.filter_app. simpl.
  destruct (is_enter_leave e); reflexivity.
Qed.

Lemma backward_static (f g : Frame L) :
  static g = static f -> backward (self g) (cont g) = backward (self f) (cont f).
Proof.
  intros E. unfold backward.
  assert (E1 := f_equal st_horizontal E).
  assert (E2 := f_equal st_backwardX E).
  assert (E3 := f_equal st_backwardY E).
  simpl in E1, E2, E3. rewrite E1, E2, E3. reflexivity.
Qed.

(** A sync callback changes at most the state of the linked object. *)
Lemma call_sync_effect (cb : Callback) (m : option string) (f : Frame L) :
  static (call_sync cb m f) = static f
  /\ view (call_sync cb m f) = view f
  /\ calls (log (call_sync cb m f))
     = calls (log f) ++ (if is_enter_leave (Call cb) then [Call cb] else []).
Proof.
  unfold call_sync.
  destruct m as [name|].
  2: { split; [reflexivity|]. split; [reflexivity|]. apply calls_emit. }
  change (self (emit (Call cb) f)) with (self f).
  destruct (linked (self f)) as [l|] eqn:El.
  2: { split; [reflexivity|]. split; [reflexivity|]. apply calls_emit. }
  destruct (linked_method name l) as [l'|].
  2: { split; [reflexivity|]. split; [reflexivity|]. apply calls_emit. }
  split; [|split].
  - unfold static. simpl. rewrite El. reflexivity.
  - reflexivity.
  - rewrite calls_emit. simpl. rewrite app_nil_r.
    change (log (on_self (set_linked (Some l')) (emit (Call cb) f)))
      with (log (emit (Call cb) f)).
    apply calls_emit.
Qed.

Lemma static_call (cb : Callback) (f : Frame L) : static (call cb f) = static f.
Proof. reflexivity. Qed.

Lemma view_call (cb : Callback) (f : Frame L) : view (call cb f) = view f.
Proof. reflexivity. Qed.

Lemma calls_call (cb : Callback) (f : Frame L) :
  calls (log (call cb f))
  = calls (log f) ++ (if is_enter_leave (Call cb) then [Call cb] else []).
Proof. apply calls_emit. Qed.

Lemma enter_calls_effect (f : Frame L) :
  static (enter_calls f) = static f
  /\ view (enter_calls f) = view f
  /\ calls (log (enter_calls f))
     = calls (log f) ++ enter_list (backward (self f) (cont f)).
Proof.
  unfold enter_calls.
  destruct (call_sync_effect onSyncEnter_ (onSyncEnter (self f)) f) as (S1 & V1 & C1).
  set (f1 := call_sync onSyncEnter_ (onSyncEnter (self f)) f) in *. clearbody f1.
  assert (Hb1 : backward (self (call onEnter_ f1)) (cont (call onEnter_ f1))
                = backward (self f) (cont f)).
  { apply backward_static. exact S1. }
  rewrite Hb1.
  set (f2 := call onEnter_ f1) in *.
  destruct (backward (self f) (cont f)).
  - destruct (call_sync_effect onSyncEnterBackward_ (onSyncEnterBackward (self f2)) f2)
      as (S3 & V3 & C3).
    set (f3 := call_sync onSyncEnterBackward_ (onSyncEnterBackward (self f2)) f2) in *.
    clearbody f3.
    split; [|split].
    + rewrite static_call, S3. unfold f2. rewrite static_call. exact S1.
    + rewrite view_call, V3. unfold f2. rewrite view_call. exact V1.
    + rewrite calls_call, C3. unfold f2. rewrite calls_call, C1.
      rewrite <- !app_assoc. reflexivity.
  - destruct (call_sync_effect onSyncEnterForward_ (onSyncEnterForward (self f2)) f2)
      as (S3 & V3 & C3).
    set (f3 := call_sync onSyncEnterForward_ (onSyncEnterForward (self f2)) f2) in *.
    clearbody f3.
    split; [|split].
    + rewrite static_call, S3. unfold f2. rewrite static_call. exact S1.
    + rewrite view_call, V3. unfold f2. rewrite view_call. exact V1.
    + rewrite calls_call, C3. unfold f2. rewrite calls_call, C1.
      rewrite <- !app_assoc. reflexivity.
Qed.

Lemma leave_calls_effect (f : Frame L) :
  static (leave_calls f) = static f
  /\ view (leave_calls f) = view f
  /\ calls (log (leave_calls f))
     = calls (log f) ++ leave_list (backward (self f) (cont f)).
Proof.
  unfold leave_calls.
  destruct (call_sync_effect onSyncLeave_ (onSyncLeave (self f)) f) as (S1 & V1 & C1).
  set (f1 := call_sync onSyncLeave_ (onSyncLeave (self f)) f) in *. clearbody f1.
  assert (Hb1 : backward (self (call onLeave_ f1)) (cont (call onLeave_ f1))
                = backward (self f) (cont f)).
  { apply backward_static. exact S1. }
  rewrite Hb1.
  set (f2 := call onLeave_ f1) in *.
  destruct (backward (self f) (cont f)).
  - destruct (call_sync_effect onSyncLeaveBackward_ (onSyncLeaveBackward (self f2)) f2)
      as (S3 & V3 & C3).
    set (f3 := call_sync onSyncLeaveBackward_ (onSyncLeaveBackward (self f2)) f2) in *.
    clearbody f3.
    split; [|split].
    + rewrite static_call, S3. unfold f2. rewrite static_call. exact S1.
    + rewrite view_call, V3. unfold f2. rewrite view_call. exact V1.
    + rewrite calls_call, C3. unfold f2. rewrite calls_call, C1.
      rewrite <- !app_assoc. reflexivity.
  - destruct (call_sync_effect onSyncLeaveForward_ (onSyncLeaveForward (self f2)) f2)
      as (S3 & V3 & C3).
    set (f3 := call_sync onSyncLeaveForward_ (onSyncLeaveForward (self f2)) f2) in *.
    clearbody f3.
    split; [|split].
    + rewrite static_call, S3. unfold f2. rewrite static_call. exact S1.
    + rewrite view_call, V3. unfold f2. rewrite view_call. exact V1.
    + rewrite calls_call, C3. unfold f2. rewrite calls_call, C1.
      rewrite <- !app_assoc. reflexivity.
Qed.

Lemma began_block_quiet (isBefore : bool) (p : num) (f : Frame L) :
  quiet f (began_block isBefore p f).
Proof. unfold began_block. split_ifs; quiet_prim. Qed.

Lemma seek_block_quiet (shouldSeek : bool) (p : num) (f : Frame L) :
  quiet f (snd (seek_block lerp interpolate shouldSeek p f)).
Proof.
  unfold seek_block. destruct (linked (self f)); [|apply quiet_refl].
  destruct shouldSeek; [|apply quiet_refl].
  cbn [snd]. split_ifs; quiet_prim.
Qed.

Lemma update_block_quiet (shouldSeek : bool) (p : num) (f : Frame L) :
  quiet f (update_block shouldSeek p f).
Proof.
  unfold update_block.
  destruct (linked (self f)) eqn:El; [destruct shouldSeek|].
  - split; [unfold static; simpl; rewrite El; reflexivity|].
    split; [reflexivity|].
    unfold calls; cbn [log emit on_self on_cont call];
      rewrite ?List.filter_app; cbn [List.filter is_enter_leave];
      rewrite ?app_nil_r; reflexivity.
  - quiet_prim.
  - quiet_prim.
Qed.

Lemma removeDebug_quiet (f : Frame L) : quiet f (removeDebug f).
Proof. unfold removeDebug. split_ifs; quiet_prim. Qed.

Lemma revert_quiet (f : Frame L) : quiet f (revert f).
Proof.
  unfold revert. destruct (reverted (self f)); [apply quiet_refl|].
  set (f1 := on_cont (removeChild (index (self f))) f).
  assert (Q1 : quiet f f1) by (unfold f1; quiet_prim).
  set (f2 := if no_children (cont f1) then container_revert f1 else f1).
  assert (Q2 : quiet f1 f2).
  { unfold f2, container_revert. destruct (no_children (cont f1)); quiet_prim. }
  set (f3 := if _debug (self f2) then removeDebug f2 else f2).
  assert (Q3 : quiet f2 f3).
  { unfold f3. destruct (_debug (self f2)); [apply removeDebug_quiet|apply quiet_refl]. }
  clearbody f3 f2 f1.
  eapply quiet_trans; [exact Q1|].
  eapply quiet_trans; [exact Q2|].
  eapply quiet_trans; [exact Q3|].
  quiet_prim.
Qed.

Lemma complete_block_quiet (p : num) (syncCompleted : bool) (f : Frame L) :
  quiet f (complete_block p syncCompleted f).
Proof.
  unfold complete_block.
  match goal with |- context [if ?b then _ else _] => destruct b end;
    [|apply quiet_refl].
  set (f1 := if sync (self f) then call onSyncComplete_ f else f).
  assert (Q1 : quiet f f1) by (unfold f1; destruct (sync (self f)); quiet_prim).
  set (f2 := on_self (set_completed true) f1).
  assert (Q2 : quiet f1 f2) by (unfold f2; quiet_prim).
  clearbody f2. clearbody f1.
  match goal with |- context [if ?b then _ else _] => destruct b end.
  - eapply quiet_trans; [exact Q1|].
    eapply quiet_trans; [exact Q2|]. apply revert_quiet.
  - eapply quiet_trans; [exact Q1|]. exact Q2.
Qed.

Lemma final_block_quiet (p : num) (f : Frame L) : quiet f (final_block p f).
Proof. unfold final_block. split_ifs; quiet_prim. Qed.

(** *** The enter and leave blocks *)

Lemma enter_block_effect (isInView' forceEnter' debug' : bool) (f : Frame L) :
  static (enter_block isInView' forceEnter' debug' f) = static f
  /\ view (enter_block isInView' forceEnter' debug' f)
     = view_enter isInView' forceEnter' (view f)
  /\ calls (log (enter_block isInView' forceEnter' debug' f))
     = calls (log f)
       ++ (if fires isInView' forceEnter' (view f)
           then enter_list (backward (self f) (cont f)) else []).
Proof.
  unfold enter_block, view_enter, fires, entering.
  change (view f) with (isInView (self f), hasEntered (self f), forceEnter (self f)).
  cbv beta iota zeta.
  destruct ((isInView' && negb (isInView (self f)))
            || (forceEnter' && negb (forceEnter (self f)) && negb (hasEntered (self f))))
    eqn:Eent.
  2: { cbn [andb]. rewrite app_nil_r. split; [reflexivity|]. split; reflexivity. }
  cbn [andb].
  set (f1 := if isInView' then on_self (set_isInView true) f else f).
  assert (S1 : static f1 = static f) by (unfold f1; destruct isInView'; reflexivity).
  assert (V1 : view f1 = (if isInView' then true else isInView (self f),
                          hasEntered (self f), forceEnter (self f)))
    by (unfold f1; destruct isInView'; reflexivity).
  assert (C1 : log f1 = log f) by (unfold f1; destruct isInView'; reflexivity).
  assert (F1 : forceEnter (self f1) = forceEnter (self f))
    by (unfold f1; destruct isInView'; reflexivity).
  assert (H1 : hasEntered (self f1) = hasEntered (self f))
    by (unfold f1; destruct isInView'; reflexivity).
  rewrite F1, H1.
  destruct (negb (forceEnter (self f)) || negb (hasEntered (self f))) eqn:Efire.
  - set (f2 := if debug' && isInView'
               then on_cont (fun c => set_zIndex (S (zIndex c)) c) f1 else f1).
    assert (S2 : static f2 = static f1)
      by (unfold f2; destruct (debug' && isInView'); reflexivity).
    assert (V2 : view f2 = view f1)
      by (unfold f2; destruct (debug' && isInView'); reflexivity).
    assert (C2 : log f2 = log f1)
      by (unfold f2; destruct (debug' && isInView'); reflexivity).
    assert (Hb2 : backward (self f2) (cont f2) = backward (self f) (cont f)).
    { apply backward_static. congruence. }
    destruct (enter_calls_effect f2) as (S3 & V3 & C3). rewrite Hb2 in C3.
    set (f3 := enter_calls f2) in *. clearbody f3. clearbody f2. clearbody f1.
    assert (V3' : view f3 = (if isInView' then true else isInView (self f),
                             hasEntered (self f), forceEnter (self f)))
      by congruence.
    unfold view in V3'. injection V3' as Ea Eb Ec.
    split; [|split].
    + destruct forceEnter'; (etransitivity; [|etransitivity; [exact S3|congruence]]);
        reflexivity.
    + destruct forceEnter'; unfold view; cbn; rewrite ?Ea, ?Ec; reflexivity.
    + assert (E : forall g : Frame L,
                 log (if forceEnter' then on_self (set_forceEnter true) g else g) = log g)
        by (intros g; destruct forceEnter'; reflexivity).
      rewrite E. cbn [log on_self]. rewrite C3, C2, C1. reflexivity.
  - clearbody f1. rewrite app_nil_r.
    unfold view in V1. injection V1 as Ea Eb Ec.
    split; [|split].
    + destruct isInView'; [|exact S1].
      etransitivity; [|exact S1]. reflexivity.
    + destruct isInView'; unfold view; cbn; rewrite ?Ea, ?Eb, ?Ec; reflexivity.
    + destruct isInView'; cbn [log on_self]; rewrite C1; reflexivity.
Qed.

Lemma leave_block_effect (isInView' syncCompleted : bool) (f : Frame L) :
  static (snd (leave_block isInView' syncCompleted f)) = static f
  /\ view (snd (leave_block isInView' syncCompleted f)) = view_leave isInView' (view f)
  /\ calls (log (snd (leave_block isInView' syncCompleted f)))
     = calls (log f)
       ++ (if leaves isInView' (view f)
           then leave_list (backward (self f) (cont f)) else []).
Proof.
  unfold leave_block, view_leave, leaves.
  change (view f) with (isInView (self f), hasEntered (self f), forceEnter (self f)).
  cbv beta iota zeta.
  destruct (negb isInView' && isInView (self f)) eqn:E.
  2: { cbn [snd]. rewrite app_nil_r. split; [reflexivity|]. split; reflexivity. }
  cbn [snd].
  set (f1 := on_self (set_isInView false) f).
  assert (Hb1 : backward (self f1) (cont f1) = backward (self f) (cont f)) by reflexivity.
  destruct (leave_calls_effect f1) as (S2 & V2 & C2). rewrite Hb1 in C2.
  set (f2 := leave_calls f1) in *. clearbody f2.
  split; [|split].
  - rewrite S2. reflexivity.
  - rewrite V2. reflexivity.
  - rewrite C2. reflexivity.
Qed.

Lemma quiet_backward (f g : Frame L) :
  quiet f g -> backward (self g) (cont g) = backward (self f) (cont f).
Proof.
  intros (S & _ & _). apply backward_static. exact S.
Qed.

(** One call of [handleScroll] is one step of the view state machine; it
    calls the enter and leave callbacks of that step, in the direction of
    the container, and no other. *)
Lemma handleScroll_effect (f : Frame L) :
  static (handleScroll lerp interpolate f) = static f
  /\ view (handleScroll lerp interpolate f)
     = view_step (now_in_view f) (now_on_edge f) (view f)
  /\ calls (log (handleScroll lerp interpolate f))
     = calls (log f)
       ++ step_calls (backward (self f) (cont f)) (now_in_view f) (now_on_edge f) (view f).
Proof.
  unfold handleScroll.
  fold (now_in_view f). fold (now_on_edge f).
  set (iv' := now_in_view f). set (edge := now_on_edge f).
  set (fe' := negb (hasEntered (self f)) && edge).
  assert (Efe : fe' = force edge (view f)) by reflexivity.
  set (isBefore := (scroll (self f) (cont f) <=? offsetStart (self f))%js).
  set (p0 := progress (self f) (cont f)).
  set (shouldSeek := is_some (linked (self f)) && _).
  set (debug' := _debug (self f) && debugEl (self f)).
  pose proof (began_block_quiet isBefore p0 f) as Q1.
  set (f1 := began_block isBefore p0 f) in *. clearbody f1.
  pose proof (seek_block_quiet shouldSeek p0 f1) as Q2.
  destruct (seek_block lerp interpolate shouldSeek p0 f1) as [[[p hu] sc] f2].
  cbn [snd] in Q2.
  assert (Q12 : quiet f f2) by (eapply quiet_trans; eauto).
  clear Q1 Q2. clearbody iv' edge. clear f1.
  pose proof (quiet_backward _ _ Q12) as Hb2.
  destruct (enter_block_effect iv' fe' debug' f2) as (S3 & V3 & C3).
  rewrite Hb2 in C3.
  set (f3 := enter_block iv' fe' debug' f2) in *. clearbody f3.
  set (hu' := if iv' || negb iv' && isInView (self f3) then true else hu).
  set (f4 := if hu' then update_block shouldSeek p f3 else f3).
  assert (Q4 : quiet f3 f4).
  { unfold f4. destruct hu'; [apply update_block_quiet|apply quiet_refl]. }
  clearbody f4. clear hu'.
  assert (Hb4 : backward (self f4) (cont f4) = backward (self f) (cont f)).
  { rewrite (quiet_backward f3 f4 Q4), <- Hb2. apply backward_static. exact S3. }
  destruct (leave_block_effect iv' sc f4) as (S5 & V5 & C5). rewrite Hb4 in C5.
  destruct (leave_block iv' sc f4) as [sc' f5]. cbn [snd] in S5, V5, C5.
  pose proof (complete_block_quiet p sc' f5) as Q6.
  set (f6 := complete_block p sc' f5) in *. clearbody f6.
  pose proof (final_block_quiet p f6) as Q7.
  set (f7 := final_block p f6) in *. clearbody f7.
  assert (Q57 : quiet f5 f7) by (eapply quiet_trans; eauto).
  destruct Q12 as (Sa & Va & Ca). destruct Q4 as (Sb & Vb & Cb).
  destruct Q57 as (Sc & Vc & Cc).
  split; [|split].
  - rewrite Sc, S5, Sb, S3, Sa. reflexivity.
  - rewrite Vc, V5, Vb, V3, Va. unfold view_step. rewrite <- Efe. reflexivity.
  - rewrite Cc, C5, Cb, C3, Ca, Vb, V3, Va. unfold step_calls.
    rewrite <- Efe, app_assoc. reflexivity.
Qed.

End Frames.

(** ** A forward sweep *)

Lemma le_num_trans (a b c : num) : le_num a b -> le_num b c -> le_num a c.
Proof.
  unfold le_num.
  destruct a as [| | |x], b as [| | |y], c as [| | |z]; simpl;
    try reflexivity; try discriminate.
  rewrite !Qle_bool_iff. apply Qle_trans.
Qed.

Lemma eq_le (a b : num) : (a === b)%js = true -> (b <=? a)%js = true.
Proof.
  destruct a as [| | |x], b as [| | |y]; simpl; try reflexivity; try discriminate.
  rewrite Qeq_bool_iff, Qle_bool_iff. intros E. rewrite E. apply Qle_refl.
Qed.

Lemma eq_le' (a b : num) : (a === b)%js = true -> (a <=? b)%js = true.
Proof.
  destruct a as [| | |x], b as [| | |y]; simpl; try reflexivity; try discriminate.
  rewrite Qeq_bool_iff, Qle_bool_iff. intros E. rewrite E. apply Qle_refl.
Qed.

Lemma lt_le (a b : num) : (a <? b)%js = true -> (a <=? b)%js = true.
Proof.
  destruct a as [| | |x], b as [| | |y]; simpl; try reflexivity; try discriminate.
  rewrite Qltb_true, Qle_bool_iff. apply Qlt_le_weak.
Qed.

(** The steps of the view state machine between these states. *)
Lemma step_fresh_before :
  view_step false false fresh = fresh /\ step_calls false false false fresh = [].
Proof. split; reflexivity. Qed.

Lemma step_fresh_edge :
  view_step false true fresh = forced /\ step_calls false false true fresh = enter_forward.
Proof. split; reflexivity. Qed.

Lemma step_fresh_inside :
  view_step true false fresh = viewing /\ step_calls false true false fresh = enter_forward.
Proof. split; reflexivity. Qed.

Lemma step_forced_outside (edge : bool) :
  view_step false edge forced = forced /\ step_calls false false edge forced = [].
Proof. destruct edge; split; reflexivity. Qed.

Lemma step_forced_inside (edge : bool) :
  view_step true edge forced = viewing /\ step_calls false true edge forced = [].
Proof. destruct edge; split; reflexivity. Qed.

Lemma step_viewing_inside (edge : bool) :
  view_step true edge viewing = viewing /\ step_calls false true edge viewing = [].
Proof. destruct edge; split; reflexivity. Qed.

Lemma step_viewing_outside (edge : bool) :
  view_step false edge viewing = gone /\ step_calls false false edge viewing = leave_forward.
Proof. destruct edge; split; reflexivity. Qed.

Lemma step_gone_outside (edge : bool) :
  view_step false edge gone = gone /\ step_calls false false edge gone = [].
Proof. destruct edge; split; reflexivity. Qed.

Section SweepMachine.

(** The cached bounds. *)
Variables offsetStart' offsetEnd' : num.

Lemma run_view_cons (s : num) (rest : list num) (v v1 v2 : bool * bool * bool)
    (cs1 cs2 : list Event) :
  view_step (inside offsetStart' offsetEnd' s) (on_edge offsetStart' offsetEnd' s) v = v1 ->
  step_calls false (inside offsetStart' offsetEnd' s) (on_edge offsetStart' offsetEnd' s) v = cs1 ->
  run_view offsetStart' offsetEnd' rest v1 = (v2, cs2) ->
  run_view offsetStart' offsetEnd' (s :: rest) v = (v2, cs1 ++ cs2).
Proof.
  intros E1 E2 E3. cbn [run_view]. rewrite E1, E2, E3. reflexivity.
Qed.

Lemma inside_false_edge (s : num) :
  inside offsetStart' offsetEnd' s = true -> on_edge offsetStart' offsetEnd' s = false.
Proof.
  unfold inside, on_edge, JS.ge. rewrite andb_true_iff, !negb_true_iff.
  intros [Ha Hb].
  destruct (s === offsetStart')%js eqn:E1.
  { apply eq_le' in E1. congruence. }
  destruct (s === offsetEnd')%js eqn:E2.
  { apply eq_le in E2. congruence. }
  reflexivity.
Qed.

Lemma after_not_inside (s : num) :
  (offsetEnd' <=? s)%js = true -> inside offsetStart' offsetEnd' s = false.
Proof. intros E. unfold inside, JS.ge. rewrite E. apply andb_false_r. Qed.


Lemma run_gone (l : list num) :
  Forall (fun s => (offsetEnd' <=? s)%js = true) l ->
  run_view offsetStart' offsetEnd' l gone = (gone, []).
Proof.
  induction 1 as [|s l Hs _ IH]; [reflexivity|].
  destruct (step_gone_outside (on_edge offsetStart' offsetEnd' s)) as [E1 E2].
  apply (run_view_cons s l gone gone gone [] []);
    rewrite ?(after_not_inside s Hs); assumption.
Qed.

Lemma last_cons_cons {A : Type} (a b : A) (l : list A) (d : A) :
  List.last (a :: b :: l) d = List.last (b :: l) d.
Proof. reflexivity. Qed.

Lemma run_viewing (l : list num) :
  StronglySorted le_num l ->
  Forall (fun s => (s <=? offsetStart')%js = false) l ->
  l <> [] ->
  (offsetEnd' <? List.last l NaN)%js = true ->
  run_view offsetStart' offsetEnd' l viewing = (gone, leave_forward).
Proof.
  induction 1 as [|s l HS IH Hall]; intros Hnb Hne Hlast; [congruence|].
  inversion Hnb as [|? ? Hs Hnb']; subst.
  destruct (offsetEnd' <=? s)%js eqn:Eafter.
  - assert (Hg : run_view offsetStart' offsetEnd' l gone = (gone, [])).
    { apply run_gone. eapply List.Forall_impl; [|exact Hall].
      intros x Hx. eapply le_num_trans; [exact Eafter|exact Hx]. }
    destruct (step_viewing_outside (on_edge offsetStart' offsetEnd' s)) as [E1 E2].
    rewrite <- (app_nil_r leave_forward).
    apply (run_view_cons s l viewing gone gone leave_forward []);
      rewrite ?(after_not_inside s Eafter); assumption.
  - assert (Ei : inside offsetStart' offsetEnd' s = true).
    { unfold inside, JS.ge. rewrite Hs, Eafter. reflexivity. }
    destruct l as [|s' l'].
    + cbn [List.last] in Hlast. apply lt_le in Hlast. congruence.
    + rewrite last_cons_cons in Hlast.
      assert (Hrun : run_view offsetStart' offsetEnd' (s' :: l') viewing = (gone, leave_forward)).
      { apply IH; [exact Hnb'|discriminate|exact Hlast]. }
      destruct (step_viewing_inside (on_edge offsetStart' offsetEnd' s)) as [E1 E2].
      change leave_forward with ([] ++ leave_forward).
      apply (run_view_cons s (s' :: l') viewing viewing gone [] leave_forward);
        rewrite ?Ei; assumption.
Qed.

(** From a fresh observer, or one that entered on the start bound, a
    sorted sweep that has a position in view and ends after the end bound
    reaches the state [gone]; the enter callbacks are called unless they
    were called on the start bound already, and then the leave
    callbacks. *)
Lemma run_fresh_or_forced (l : list num) (was_forced : bool) :
  StronglySorted le_num l ->
  Exists (fun s => inside offsetStart' offsetEnd' s = true) l ->
  (offsetEnd' <? List.last l NaN)%js = true ->
  run_view offsetStart' offsetEnd' l (if was_forced then forced else fresh)
  = (gone, (if was_forced then [] else enter_forward) ++ leave_forward).
Proof.
  intros HS. revert was_forced.
  induction HS as [|s l HS IH Hall]; intros was_forced Hex Hlast.
  { inversion Hex. }
  destruct (inside offsetStart' offsetEnd' s) eqn:Ei.
  - (* the first position in view *)
    pose proof (inside_false_edge s Ei) as Ee.
    assert (Hnb : Forall (fun x => (x <=? offsetStart')%js = false) l).
    { eapply List.Forall_impl; [|exact Hall].
      intros x Hx. destruct (x <=? offsetStart')%js eqn:Ex; [|reflexivity].
      assert (Hc : le_num s offsetStart') by (eapply le_num_trans; eauto).
      unfold inside in Ei. unfold le_num in Hc. rewrite Hc in Ei. discriminate. }
    destruct l as [|s' l'].
    { cbn [List.last] in Hlast. apply lt_le in Hlast.
      rewrite (after_not_inside s Hlast) in Ei. discriminate. }
    rewrite last_cons_cons in Hlast.
    assert (Hrun : run_view offsetStart' offsetEnd' (s' :: l') viewing = (gone, leave_forward)).
    { apply run_viewing; [exact HS|exact Hnb|discriminate|exact Hlast]. }
    destruct was_forced.
    + destruct (step_forced_inside (on_edge offsetStart' offsetEnd' s)) as [E1 E2].
      apply (run_view_cons s (s' :: l') forced viewing gone [] leave_forward);
        rewrite ?Ei; assumption.
    + destruct step_fresh_inside as [E1 E2].
      apply (run_view_cons s (s' :: l') fresh viewing gone enter_forward leave_forward);
        rewrite ?Ei, ?Ee; assumption.
  - (* a position before the view *)
    assert (Hex' : Exists (fun x => inside offsetStart' offsetEnd' x = true) l).
    { inversion Hex as [? ? Hh|? ? Ht]; subst; [congruence|exact Ht]. }
    assert (Hna : (offsetEnd' <=? s)%js = false).
    { apply List.Exists_exists in Hex'. destruct Hex' as (x & Hin & Hx).
      destruct (offsetEnd' <=? s)%js eqn:Ea; [|reflexivity].
      assert (Hsx : le_num s x).
      { rewrite List.Forall_forall in Hall. apply Hall. exact Hin. }
      assert (Hc : le_num offsetEnd' x) by (eapply le_num_trans; eauto).
      rewrite (after_not_inside x Hc) in Hx. discriminate. }
    assert (Hlast' : (offsetEnd' <? List.last l NaN)%js = true).
    { destruct l as [|s' l']; [inversion Hex'|]. exact Hlast. }
    assert (Hend : (s === offsetEnd')%js = false).
    { destruct (s === offsetEnd')%js eqn:E; [|reflexivity].
      apply eq_le in E. congruence. }
    destruct was_forced.
    + destruct (step_forced_outside (on_edge offsetStart' offsetEnd' s)) as [E1 E2].
      apply (run_view_cons s l forced forced gone [] ([] ++ leave_forward));
        rewrite ?Ei; try assumption.
      apply (IH true); assumption.
    + destruct (s === offsetStart')%js eqn:Estart.
      * destruct step_fresh_edge as [E1 E2].
        change (enter_forward ++ leave_forward)
          with (enter_forward ++ ([] ++ leave_forward)).
        apply (run_view_cons s l fresh forced gone enter_forward ([] ++ leave_forward));
          unfold on_edge; rewrite ?Ei, ?Hend, ?Estart; try assumption.
        apply (IH true); assumption.
      * destruct step_fresh_before as [E1 E2].
        change (enter_forward ++ leave_forward)
          with ([] ++ (enter_forward ++ leave_forward)).
        apply (run_view_cons s l fresh fresh gone [] (enter_forward ++ leave_forward));
          unfold on_edge; rewrite ?Ei, ?Hend, ?Estart; try assumption.
        apply (IH false); assumption.
Qed.

End SweepMachine.

Section Sweep.

Context {L : Type} `{Linked L}.
Variable lerp : num -> num -> num -> num.
Variable interpolate : num -> num -> num -> num.

Lemma sweep_step_effect (f : Frame L) (xy : num * num) :
  backward (self f) (cont f) = false ->
  let s := position (self f) xy in
  let start := offsetStart (self f) in
  let end_ := offsetEnd (self f) in
  backward (self (sweep_step lerp interpolate f xy))
    (cont (sweep_step lerp interpolate f xy)) = false
  /\ offsetStart (self (sweep_step lerp interpolate f xy)) = start
  /\ offsetEnd (self (sweep_step lerp interpolate f xy)) = end_
  /\ horizontal (self (sweep_step lerp interpolate f xy)) = horizontal (self f)
  /\ view (sweep_step lerp interpolate f xy)
     = view_step (inside start end_ s) (on_edge start end_ s) (view f)
  /\ calls (log (sweep_step lerp interpolate f xy))
     = calls (log f)
       ++ step_calls false (inside start end_ s) (on_edge start end_ s) (view f).
Proof.
  intros Hb s start end_. unfold sweep_step.
  set (f0 := on_cont (updateScrollCoords (fst xy) (snd xy)) f).
  assert (Hb0 : backward (self f0) (cont f0) = false) by exact Hb.
  assert (Es : scroll (self f0) (cont f0) = s).
  { unfold s, position, f0, scroll. cbn. destruct (horizontal (self f)); reflexivity. }
  assert (Ein : now_in_view f0 = inside start end_ s).
  { unfold now_in_view. rewrite Es. reflexivity. }
  assert (Eed : now_on_edge f0 = on_edge start end_ s).
  { unfold now_on_edge. rewrite Es. reflexivity. }
  destruct (handleScroll_effect lerp interpolate f0) as (S & V & C).
  rewrite Ein, Eed in V, C. rewrite Hb0 in C.
  set (f1 := handleScroll lerp interpolate f0) in *. clearbody f1.
  split; [|split; [|split; [|split; [|split]]]].
  - rewrite <- Hb0. apply backward_static. exact S.
  - exact (f_equal st_offsetStart S).
  - exact (f_equal st_offsetEnd S).
  - exact (f_equal st_horizontal S).
  - exact V.
  - exact C.
Qed.

Lemma sweep_run_view (samples : list (num * num)) (f : Frame L) :
  backward (self f) (cont f) = false ->
  forall v cs,
    run_view (offsetStart (self f)) (offsetEnd (self f))
      (List.map (position (self f)) samples) (view f) = (v, cs) ->
    view (sweep lerp interpolate samples f) = v
    /\ calls (log (sweep lerp interpolate samples f)) = calls (log f) ++ cs.
Proof.
  revert f. induction samples as [|xy samples IH]; intros f Hb v cs Hrun.
  - cbn in Hrun. injection Hrun as <- <-. rewrite app_nil_r. split; reflexivity.
  - cbn [List.map run_view] in Hrun.
    destruct (sweep_step_effect f xy Hb) as (Hb1 & E1 & E2 & E3 & V1 & C1).
    cbv zeta in E1, E2, V1, C1.
    set (s := position (self f) xy) in *.
    destruct (run_view (offsetStart (self f)) (offsetEnd (self f))
                (List.map (position (self f)) samples)
                (view_step (inside (offsetStart (self f)) (offsetEnd (self f)) s)
                   (on_edge (offsetStart (self f)) (offsetEnd (self f)) s) (view f)))
      as [v' cs'] eqn:Erest.
    injection Hrun as <- <-.
    assert (Emap : List.map (position (self (sweep_step lerp interpolate f xy))) samples
                   = List.map (position (self f)) samples).
    { apply List.map_ext. intros a. unfold position. rewrite E3. reflexivity. }
    cbn [sweep fold_left].
    fold (sweep lerp interpolate samples (sweep_step lerp interpolate f xy)).
    destruct (IH (sweep_step lerp interpolate f xy) Hb1 v' cs') as [Va Ca].
    { rewrite E1, E2, Emap, V1. exact Erest. }
    split; [exact Va|]. rewrite Ca, C1, app_assoc. reflexivity.
Qed.

(** C2, as the code has it.  Take a freshly attached observer, fixed
    bounds, forward direction flags, and a sweep of scroll positions that
    never goes back, starts before [offsetStart], ends after [offsetEnd]
    and has at least one position strictly between the two bounds.
    Folding [handleScroll] over the sweep calls onSyncEnter, onEnter,
    onSyncEnterForward, onEnterForward once, then onSyncLeave, onLeave,
    onSyncLeaveForward, onLeaveForward once, and no backward callback;
    this holds when positions land exactly on a bound as well. *)
Theorem forward_sweep_enters_and_leaves_once
    (f : Frame L) (samples : list (num * num)) :
  let positions := List.map (position (self f)) samples in
  view f = fresh ->
  backward (self f) (cont f) = false ->
  Sorted le_num positions ->
  (List.hd NaN positions <? offsetStart (self f))%js = true ->
  (List.last positions NaN >? offsetEnd (self f))%js = true ->
  Exists (fun s => inside (offsetStart (self f)) (offsetEnd (self f)) s = true) positions ->
  calls (log (sweep lerp interpolate samples f))
  = calls (log f) ++ enter_forward ++ leave_forward
  /\ view (sweep lerp interpolate samples f) = gone.
Proof.
  intros positions Hfresh Hb Hsorted _ Hlast Hin.
  assert (HS : StronglySorted le_num positions).
  { apply Sorted_StronglySorted; [|exact Hsorted].
    intros a b c. apply le_num_trans. }
  pose proof (run_fresh_or_forced (offsetStart (self f)) (offsetEnd (self f))
                positions false HS Hin Hlast) as Hrun.
  cbv iota in Hrun. rewrite <- Hfresh in Hrun.
  destruct (sweep_run_view samples f Hb _ _ Hrun) as [V C].
  split; assumption.
Qed.

End Sweep.

(** ** Completion and detaching *)

Section Completion.

Context {L : Type} `{Linked L}.
Variable lerp : num -> num -> num -> num.
Variable interpolate : num -> num -> num -> num.

Lemma life_call_sync (cb : Callback) (m : option string) (f : Frame L) :
  life (call_sync cb m f) = life f.
Proof.
  unfold call_sync. destruct m as [name|]; [|reflexivity].
  change (self (emit (Call cb) f)) with (self f).
  destruct (linked (self f)) as [l|]; [|reflexivity].
  destruct (linked_method name l); reflexivity.
Qed.

Lemma life_enter_calls (f : Frame L) : life (enter_calls f) = life f.
Proof.
  unfold enter_calls.
  pose proof (life_call_sync onSyncEnter_ (onSyncEnter (self f)) f) as E1.
  set (f1 := call_sync onSyncEnter_ (onSyncEnter (self f)) f) in *. clearbody f1.
  set (f2 := call onEnter_ f1) in *.
  destruct (backward (self f2) (cont f2)).
  - pose proof (life_call_sync onSyncEnterBackward_ (onSyncEnterBackward (self f2)) f2)
      as E2.
    set (f3 := call_sync _ _ f2) in *. clearbody f3.
    change (life f3 = life f). rewrite E2. exact E1.
  - pose proof (life_call_sync onSyncEnterForward_ (onSyncEnterForward (self f2)) f2)
      as E2.
    set (f3 := call_sync _ _ f2) in *. clearbody f3.
    change (life f3 = life f). rewrite E2. exact E1.
Qed.

Lemma life_leave_calls (f : Frame L) : life (leave_calls f) = life f.
Proof.
  unfold leave_calls.
  pose proof (life_call_sync onSyncLeave_ (onSyncLeave (self f)) f) as E1.
  set (f1 := call_sync onSyncLeave_ (onSyncLeave (self f)) f) in *. clearbody f1.
  set (f2 := call onLeave_ f1) in *.
  destruct (backward (self f2) (cont f2)).
  - pose proof (life_call_sync onSyncLeaveBackward_ (onSyncLeaveBackward (self f2)) f2)
      as E2.
    set (f3 := call_sync _ _ f2) in *. clearbody f3.
    change (life f3 = life f). rewrite E2. exact E1.
  - pose proof (life_call_sync onSyncLeaveForward_ (onSyncLeaveForward (self f2)) f2)
      as E2.
    set (f3 := call_sync _ _ f2) in *. clearbody f3.
    change (life f3 = life f). rewrite E2. exact E1.
Qed.

Lemma life_enter_block (isInView' forceEnter' debug' : bool) (f : Frame L) :
  life (enter_block isInView' forceEnter' debug' f) = life f.
Proof.
  unfold enter_block.
  match goal with |- context [if ?b then _ else _] => destruct b end; [|reflexivity].
  set (f1 := if isInView' then on_self (set_isInView true) f else f).
  assert (E1 : life f1 = life f) by (unfold f1; destruct isInView'; reflexivity).
  assert (F1 : forceEnter (self f1) = forceEnter (self f))
    by (unfold f1; destruct isInView'; reflexivity).
  assert (H1 : hasEntered (self f1) = hasEntered (self f))
    by (unfold f1; destruct isInView'; reflexivity).
  rewrite F1, H1. clearbody f1.
  destruct (negb (forceEnter (self f)) || negb (hasEntered (self f))).
  - set (f2 := if debug' && isInView'
               then on_cont (fun c => set_zIndex (S (zIndex c)) c) f1 else f1).
    assert (E2 : life f2 = life f1)
      by (unfold f2; destruct (debug' && isInView'); reflexivity).
    pose proof (life_enter_calls f2) as E3.
    set (f3 := enter_calls f2) in *. clearbody f3. clearbody f2.
    destruct forceEnter';
      (change (life f3 = life f); rewrite E3, E2; exact E1).
  - destruct isInView'; [change (life f1 = life f)|]; exact E1.
Qed.

Lemma life_update_block (shouldSeek : bool) (p : num) (f : Frame L) :
  life (update_block shouldSeek p f) = life f.
Proof.
  unfold update_block. destruct (linked (self f)); [destruct shouldSeek|]; reflexivity.
Qed.

Lemma life_seek_block (shouldSeek : bool) (p : num) (f : Frame L) :
  life (snd (seek_block lerp interpolate shouldSeek p f)) = life f.
Proof.
  unfold seek_block. destruct (linked (self f)); [|reflexivity].
  destruct shouldSeek; [|reflexivity]. cbn [snd]. split_ifs; reflexivity.
Qed.

Lemma children_began_block (isBefore : bool) (p : num) (f : Frame L) :
  children (cont (began_block isBefore p f)) = children (cont f).
Proof. unfold began_block. split_ifs; reflexivity. Qed.

Lemma children_final_block (p : num) (f : Frame L) :
  children (cont (final_block p f)) = children (cont f).
Proof. unfold final_block. split_ifs; reflexivity. Qed.

(** An object stays linked, and none gets linked. *)
Lemma unlinked_static (f g : Frame L) :
  static g = static f -> linked (self f) = None -> linked (self g) = None.
Proof.
  intros E El. pose proof (f_equal st_hasLinked E) as Eh.
  cbn in Eh. rewrite El in Eh. destruct (linked (self g)); [discriminate|reflexivity].
Qed.

Lemma life_removeDebug (f : Frame L) : life (removeDebug f) = life f.
Proof. unfold removeDebug. split_ifs; reflexivity. Qed.

Lemma index_removeDebug (f : Frame L) : index (self (removeDebug f)) = index (self f).
Proof. unfold removeDebug. split_ifs; reflexivity. Qed.

(** [revert] on an attached observer: the flag is set and the index is no
    child of the container any more. *)
Lemma revert_detaches (f : Frame L) :
  reverted (self f) = false ->
  reverted (self (revert f)) = true
  /\ completed (self (revert f)) = completed (self f)
  /\ index (self (revert f)) = index (self f)
  /\ ~ In (index (self f)) (children (cont (revert f))).
Proof.
  intros Hr. unfold revert. rewrite Hr.
  set (i := index (self f)).
  set (f1 := on_cont (removeChild i) f).
  set (f2 := if no_children (cont f1) then container_revert f1 else f1).
  assert (E2 : life f2 = life f1 /\ index (self f2) = i)
    by (unfold f2; destruct (no_children (cont f1)); split; reflexivity).
  set (f3 := if _debug (self f2) then removeDebug f2 else f2).
  assert (E3 : life f3 = life f1 /\ index (self f3) = i).
  { unfold f3. destruct (_debug (self f2)).
    - rewrite life_removeDebug, index_removeDebug. exact E2.
    - exact E2. }
  clearbody f3. clear E2. clearbody f2.
  destruct E3 as [E3 I3]. unfold life in E3. injection E3 as _ Ec _ Ech.
  cbn. rewrite Ec, I3, Ech. cbn.
  repeat (split; [reflexivity|]).
  intros Hin. apply List.filter_In in Hin. destruct Hin as [_ Hne].
  rewrite Nat.eqb_refl in Hne. discriminate.
Qed.

Lemma static_fields (f g : Frame L) :
  static g = static f ->
  sync (self g) = sync (self f)
  /\ syncSmooth (self g) = syncSmooth (self f)
  /\ repeat (self g) = repeat (self f)
  /\ index (self g) = index (self f).
Proof.
  intros E.
  exact (conj (f_equal st_sync E)
           (conj (f_equal st_syncSmooth E)
              (conj (f_equal st_repeat E) (f_equal st_index E)))).
Qed.

Lemma life_leave_block (isInView' syncCompleted : bool) (f : Frame L) :
  life (snd (leave_block isInView' syncCompleted f)) = life f.
Proof.
  unfold leave_block.
  destruct (negb isInView' && isInView (self f)); [|reflexivity].
  cbn [snd]. rewrite life_leave_calls. reflexivity.
Qed.

(** [syncCompleted] after the leave block: set when the observer leaves
    the view with a synchronisation that is not smoothed. *)
Lemma leave_block_syncCompleted (isInView' syncCompleted : bool) (f : Frame L) :
  fst (leave_block isInView' syncCompleted f)
  = if negb isInView' && isInView (self f)
    then (if sync (self f) && negb (truthy_opt (syncSmooth (self f)))
          then true else syncCompleted)
    else syncCompleted.
Proof.
  unfold leave_block.
  destruct (negb isInView' && isInView (self f)); [|reflexivity].
  cbn [fst].
  destruct (leave_calls_effect (on_self (set_isInView false) f)) as (S & _ & _).
  destruct (static_fields _ _ S) as (E1 & E2 & _).
  rewrite E1, E2. reflexivity.
Qed.

Lemma seek_block_unlinked (shouldSeek : bool) (p : num) (f : Frame L) :
  linked (self f) = None ->
  seek_block lerp interpolate shouldSeek p f = (p, false, false, f).
Proof. intros El. unfold seek_block. rewrite El. reflexivity. Qed.

Lemma began_block_begins (isBefore : bool) (p : num) (f : Frame L) :
  (p >? zero)%js = true ->
  began (self (began_block isBefore p f)) = true
  /\ reverted (self (began_block isBefore p f)) = reverted (self f)
  /\ completed (self (began_block isBefore p f)) = completed (self f)
  /\ linked (self (began_block isBefore p f)) = linked (self f)
  /\ children (cont (began_block isBefore p f)) = children (cont f).
Proof.
  intros Hp. unfold began_block. rewrite Hp.
  destruct (isBefore && began (self f)) eqn:E1; cbn.
  - repeat (split; [reflexivity|]). reflexivity.
  - destruct (began (self f)) eqn:E2; cbn; rewrite ?E2;
      repeat (split; [reflexivity|]); reflexivity.
Qed.

Lemma ge_one_gt_zero (p : num) : (p >=? one)%js = true -> (p >? zero)%js = true.
Proof.
  destruct p as [| | |x]; try reflexivity; try discriminate.
  unfold JS.ge, JS.gt, JS.le, JS.lt, one, zero.
  rewrite Qle_bool_iff, Qltb_true. intros. lra.
Qed.

Lemma ge_one_not_lt (p : num) : (p >=? one)%js = true -> (p <? one)%js = false.
Proof.
  destruct p as [| | |x]; try reflexivity; try discriminate.
  unfold JS.ge, JS.le, JS.lt, one.
  rewrite Qle_bool_iff, Qltb_false. tauto.
Qed.

Lemma view_enter_outside (forceEnter' : bool) (v : bool * bool * bool) :
  fst (fst (view_enter false forceEnter' v)) = fst (fst v).
Proof.
  destruct v as [[iv he] fe]. destruct forceEnter', iv, he, fe; reflexivity.
Qed.

(** The completion block on an attached observer that does not repeat and
    has no linked object. *)
Lemma complete_block_reverts (p : num) (syncCompleted : bool) (f : Frame L) :
  (p >=? one)%js = true ->
  began (self f) = true ->
  completed (self f) = false ->
  sync (self f) && syncCompleted || negb (sync (self f)) = true ->
  repeat (self f) = false ->
  linked (self f) = None ->
  reverted (self f) = false ->
  let f' := complete_block p syncCompleted f in
  reverted (self f') = true
  /\ completed (self f') = true
  /\ index (self f') = index (self f)
  /\ ~ In (index (self f)) (children (cont f')).
Proof.
  intros Hp Hb Hc Hs Hr Hl Hrev. cbv zeta. unfold complete_block.
  rewrite Hp, Hb, Hc, Hs. cbn [andb negb].
  set (f1 := if sync (self f) then call onSyncComplete_ f else f).
  set (f2 := on_self (set_completed true) f1).
  assert (E2 : repeat (self f2) = false /\ linked (self f2) = None
               /\ reverted (self f2) = false /\ completed (self f2) = true
               /\ index (self f2) = index (self f)).
  { unfold f2, f1. destruct (sync (self f)); cbn; auto. }
  clearbody f2. clear f1.
  destruct E2 as (R2 & L2 & V2 & C2 & I2).
  rewrite R2, L2. cbn [negb is_some andb orb].
  destruct (revert_detaches f2 V2) as (Ha & Hb' & Hc' & Hd).
  rewrite Ha, Hb', Hc', C2, <- I2. auto.
Qed.

(** The tick on which a non-repeating observer without linked object
    completes: [handleScroll] sets [completed], calls [revert], and the
    observer is no child of its container any more. *)
Lemma handleScroll_completes (f : Frame L) :
  repeat (self f) = false ->
  linked (self f) = None ->
  reverted (self f) = false ->
  completed (self f) = false ->
  (progress (self f) (cont f) >=? one)%js = true ->
  sync (self f) = false
  \/ (truthy_opt (syncSmooth (self f)) = false
      /\ isInView (self f) = true /\ now_in_view f = false) ->
  let f' := handleScroll lerp interpolate f in
  reverted (self f') = true
  /\ completed (self f') = true
  /\ index (self f') = index (self f)
  /\ ~ In (index (self f)) (children (cont f')).
Proof.
  intros Hr Hl Hrev Hc Hp Hsync. cbv zeta. unfold handleScroll.
  fold (now_in_view f). fold (now_on_edge f).
  set (iv' := now_in_view f) in *. set (edge := now_on_edge f).
  set (fe' := negb (hasEntered (self f)) && edge).
  set (isBefore := (scroll (self f) (cont f) <=? offsetStart (self f))%js).
  set (p0 := progress (self f) (cont f)) in *.
  set (shouldSeek := is_some (linked (self f)) && _).
  set (debug' := _debug (self f) && debugEl (self f)).
  destruct (began_block_begins isBefore p0 f (ge_one_gt_zero p0 Hp))
    as (B1 & R1 & C1 & L1 & K1).
  pose proof (began_block_quiet isBefore p0 f) as Q1.
  set (f1 := began_block isBefore p0 f) in *. clearbody f1.
  rewrite Hl in L1.
  rewrite (seek_block_unlinked shouldSeek p0 f1 L1).
  assert (Life1 : life f1 = (false, false, true, children (cont f))).
  { unfold life. rewrite B1, R1, C1, K1, Hrev, Hc. reflexivity. }
  clear B1 R1 C1 K1.
  (* the enter block *)
  destruct (enter_block_effect iv' fe' debug' f1) as (S3 & V3 & _).
  pose proof (life_enter_block iv' fe' debug' f1) as Life3.
  set (f3 := enter_block iv' fe' debug' f1) in *. clearbody f3.
  rewrite Life1 in Life3.
  (* the update block *)
  set (hu' := if iv' || negb iv' && isInView (self f3) then true else false).
  set (f4 := if hu' then update_block shouldSeek p0 f3 else f3).
  assert (Q4 : quiet f3 f4).
  { unfold f4. destruct hu'; [apply update_block_quiet|apply quiet_refl]. }
  assert (Life4 : life f4 = (false, false, true, children (cont f))).
  { unfold f4. destruct hu'; [rewrite life_update_block|]; exact Life3. }
  clearbody f4. clear hu'.
  (* the leave block *)
  pose proof (leave_block_syncCompleted iv' false f4) as Esc.
  pose proof (life_leave_block iv' false f4) as Life5.
  destruct (leave_block_effect iv' false f4) as (S5 & _ & _).
  destruct (leave_block iv' false f4) as [sc' f5]. cbn [fst snd] in Esc, Life5, S5.
  rewrite Life4 in Life5.
  destruct Q1 as (Sa & Va & _). destruct Q4 as (Sb & Vb & _).
  assert (S05 : static f5 = static f) by (rewrite S5, Sb, S3, Sa; reflexivity).
  destruct (static_fields _ _ S05) as (Es5 & _ & Er5 & I5).
  destruct (static_fields _ _ (eq_trans Sb (eq_trans S3 Sa))) as (Es4 & Esm4 & _ & _).
  assert (Hcond : sync (self f5) && sc' || negb (sync (self f5)) = true).
  { rewrite Es5.
    destruct Hsync as [Hs|(Hsm & Hiv & Hout)].
    - rewrite Hs. reflexivity.
    - destruct (sync (self f)) eqn:Hs; [|reflexivity].
      cbn [andb negb orb]. rewrite orb_false_r. rewrite Esc.
      assert (E4 : isInView (self f4) = true).
      { change (fst (fst (view f4)) = true).
        rewrite Vb, V3, Hout, view_enter_outside, Va. exact Hiv. }
      rewrite Hout, E4. cbn [negb andb].
      rewrite Es4, Esm4, Hsm. reflexivity. }
  unfold life in Life5. injection Life5 as R5 C5 B5 K5.
  assert (Hr5 : repeat (self f5) = false) by congruence.
  assert (L5 : linked (self f5) = None) by (apply (unlinked_static f f5); assumption).
  destruct (complete_block_reverts p0 sc' f5 Hp B5 C5 Hcond Hr5 L5 R5)
    as (Ra & Ca & Ia & Ka).
  set (f6 := complete_block p0 sc' f5) in *. clearbody f6.
  unfold final_block. rewrite (ge_one_not_lt p0 Hp). cbn.
  rewrite Ra, Ca, Ia, I5. rewrite I5 in Ka. auto.
Qed.

Lemma children_revert (f : Frame L) :
  incl (children (cont (revert f))) (children (cont f)).
Proof.
  unfold revert. destruct (reverted (self f)); [apply incl_refl|].
  set (f1 := on_cont (removeChild (index (self f))) f).
  assert (I1 : incl (children (cont f1)) (children (cont f))).
  { unfold f1. cbn. intros x Hx. apply List.filter_In in Hx. tauto. }
  set (f2 := if no_children (cont f1) then container_revert f1 else f1).
  assert (E2 : children (cont f2) = children (cont f1))
    by (unfold f2; destruct (no_children (cont f1)); reflexivity).
  set (f3 := if _debug (self f2) then removeDebug f2 else f2).
  assert (E3 : children (cont f3) = children (cont f2)).
  { unfold f3. destruct (_debug (self f2)); [|reflexivity].
    pose proof (life_removeDebug f2) as E. unfold life in E.
    injection E as _ _ _ E. exact E. }
  clearbody f3 f2 f1. cbn. rewrite E3, E2. exact I1.
Qed.

Lemma children_complete_block (p : num) (syncCompleted : bool) (f : Frame L) :
  incl (children (cont (complete_block p syncCompleted f))) (children (cont f)).
Proof.
  unfold complete_block.
  match goal with |- context [if ?b then _ else _] => destruct b end;
    [|apply incl_refl].
  set (f2 := on_self (set_completed true) _).
  assert (E2 : children (cont f2) = children (cont f))
    by (unfold f2; destruct (sync (self f)); reflexivity).
  clearbody f2.
  match goal with |- context [if ?b then _ else _] => destruct b end.
  - rewrite <- E2. apply children_revert.
  - rewrite E2. apply incl_refl.
Qed.

(** [handleScroll] attaches nothing: the children afterwards were
    children before. *)
Lemma handleScroll_children (f : Frame L) :
  incl (children (cont (handleScroll lerp interpolate f))) (children (cont f)).
Proof.
  unfold handleScroll.
  set (iv' := negb _ && negb _).
  set (fe' := negb (hasEntered (self f)) && _).
  set (isBefore := (scroll (self f) (cont f) <=? offsetStart (self f))%js).
  set (p0 := progress (self f) (cont f)).
  set (shouldSeek := is_some (linked (self f)) && _).
  set (debug' := _debug (self f) && debugEl (self f)).
  pose proof (children_began_block isBefore p0 f) as K1.
  set (f1 := began_block isBefore p0 f) in *. clearbody f1.
  pose proof (life_seek_block shouldSeek p0 f1) as K2.
  destruct (seek_block lerp interpolate shouldSeek p0 f1) as [[[p hu] sc] f2].
  cbn [snd] in K2.
  pose proof (life_enter_block iv' fe' debug' f2) as K3.
  set (f3 := enter_block iv' fe' debug' f2) in *. clearbody f3.
  set (hu' := if iv' || negb iv' && isInView (self f3) then true else hu).
  set (f4 := if hu' then update_block shouldSeek p f3 else f3).
  assert (K4 : life f4 = life f3).
  { unfold f4. destruct hu'; [apply life_update_block|reflexivity]. }
  clearbody f4. clear hu'.
  pose proof (life_leave_block iv' sc f4) as K5.
  destruct (leave_block iv' sc f4) as [sc' f5]. cbn [snd] in K5.
  pose proof (children_complete_block p sc' f5) as K6.
  set (f6 := complete_block p sc' f5) in *. clearbody f6.
  rewrite children_final_block.
  assert (E : children (cont f5) = children (cont f)).
  { rewrite <- K1.
    assert (E' : life f5 = life f1) by congruence.
    unfold life in E'. injection E' as _ _ _ E'. exact E'. }
  rewrite <- E. exact K6.
Qed.

End Completion.

(** ** The container and a detached observer *)

Lemma events_of_other (i j : nat) (l : list Event) :
  j <> i -> events_of i (List.map (pair j) l) = [].
Proof.
  intros Hne. unfold events_of. induction l as [|e l IH]; [reflexivity|].
  cbn. destruct (Nat.eqb_spec j i); [contradiction|exact IH].
Qed.

Section Detached.

Context {L : Type} `{Linked L}.
Variable lerp : num -> num -> num -> num.
Variable interpolate : num -> num -> num -> num.

Local Abbreviation visit := (fun i : nat => run i (handleScroll lerp interpolate)).

(** A visit of another observer adds no event of [i] and attaches
    nothing. *)
Lemma visit_other (i j : nat) (w : World L) :
  j <> i ->
  ~ In i (children (container w)) ->
  events_of i (trace (visit j w)) = events_of i (trace w)
  /\ ~ In i (children (container (visit j w))).
Proof.
  intros Hne Hni. unfold run.
  destruct (observers w !! j) as [o|]; [|split; [reflexivity|exact Hni]].
  cbn [trace container]. split.
  - unfold events_of. rewrite List.filter_app.
    fold (events_of i (trace w)).
    fold (events_of i (List.map (pair j)
            (log (handleScroll lerp interpolate
                    {| self := o; cont := container w; log := [] |})))).
    rewrite events_of_other by exact Hne. apply app_nil_r.
  - intros Hin. apply Hni.
    apply (handleScroll_children lerp interpolate
             {| self := o; cont := container w; log := [] |}) in Hin.
    exact Hin.
Qed.

Lemma visits_silent (i : nat) (order : list nat) (w : World L) :
  ~ In i order ->
  ~ In i (children (container w)) ->
  events_of i (trace (fold_left (fun w j => visit j w) order w)) = events_of i (trace w)
  /\ ~ In i (children (container (fold_left (fun w j => visit j w) order w))).
Proof.
  revert w. induction order as [|j order IH]; intros w Hno Hni.
  - split; [reflexivity|exact Hni].
  - cbn [fold_left].
    assert (Hne : j <> i) by (intros ->; apply Hno; left; reflexivity).
    destruct (visit_other i j w Hne Hni) as [E1 N1].
    destruct (IH (visit j w)) as [E2 N2].
    + intros Hin. apply Hno. right. exact Hin.
    + exact N1.
    + split; [rewrite E2; exact E1|exact N2].
Qed.

(** A frame of the container calls nothing of an observer that is not
    attached. *)
Lemma tick_silent (i : nat) (w : World L) :
  ~ In i (children (container w)) ->
  events_of i (trace (tick lerp interpolate w)) = events_of i (trace w)
  /\ ~ In i (children (container (tick lerp interpolate w))).
Proof.
  intros Hni. unfold tick, forEachChildren.
  apply visits_silent; [|exact Hni].
  destruct (backwardX (container w) || backwardY (container w)); [|exact Hni].
  intros Hin. apply Hni. apply List.in_rev. exact Hin.
Qed.

Lemma scroll_ticks_silent (i : nat) (samples : list (num * num)) (w : World L) :
  ~ In i (children (container w)) ->
  events_of i (trace (scroll_ticks lerp interpolate samples w)) = events_of i (trace w)
  /\ ~ In i (children (container (scroll_ticks lerp interpolate samples w))).
Proof.
  revert w. induction samples as [|xy samples IH]; intros w Hni.
  - split; [reflexivity|exact Hni].
  - set (w0 := {| container := updateScrollCoords (fst xy) (snd xy) (container w);
                  observers := observers w; trace := trace w;
                  scrollerIndex := scrollerIndex w |}).
    change (scroll_ticks lerp interpolate (xy :: samples) w)
      with (scroll_ticks lerp interpolate samples (tick lerp interpolate w0)).
    destruct (tick_silent i w0 Hni) as [E1 N1].
    destruct (IH _ N1) as [E2 N2].
    split; [rewrite E2; exact E1|exact N2].
Qed.

(** C3, as the code has it.  Take an attached observer with
    [repeat = false], no linked object and [completed] false, on a call of
    [handleScroll] where its progress is 1.  If its synchronisation is
    off, or is on without smoothing and the observer leaves the view on
    this call, then the call sets [completed] and runs [revert]: the
    observer is no child of its container any more, and the frames the
    container runs afterwards, wherever it is scrolled, call nothing of
    that observer. *)
Theorem completed_observer_detaches
    (w : World L) (i : nat) (o : ScrollObserver L) (samples : list (num * num)) :
  observers w !! i = Some o ->
  index o = i ->
  repeat o = false ->
  linked o = None ->
  reverted o = false ->
  completed o = false ->
  (progress o (container w) >=? one)%js = true ->
  sync o = false
  \/ (truthy_opt (syncSmooth o) = false
      /\ isInView o = true
      /\ now_in_view {| self := o; cont := container w; log := [] |} = false) ->
  let w' := visit i w in
  (exists o', observers w' !! i = Some o'
              /\ completed o' = true /\ reverted o' = true)
  /\ ~ In i (children (container w'))
  /\ events_of i (trace (scroll_ticks lerp interpolate samples w')) = events_of i (trace w').
Proof.
  intros Ho Hi Hr Hl Hrev Hc Hp Hsync. cbv zeta.
  set (f := {| self := o; cont := container w; log := [] |}).
  destruct (handleScroll_completes lerp interpolate f Hr Hl Hrev Hc Hp Hsync)
    as (Ra & Ca & Ia & Ka).
  assert (Ew : visit i w =
               {| container := cont (handleScroll lerp interpolate f);
                  observers := <[i := self (handleScroll lerp interpolate f)]> (observers w);
                  trace := trace w ++ List.map (pair i) (log (handleScroll lerp interpolate f));
                  scrollerIndex := scrollerIndex w |}).
  { unfold run. rewrite Ho. reflexivity. }
  assert (Hni : ~ In i (children (container (visit i w)))).
  { rewrite Ew. cbn [container]. rewrite <- Hi. exact Ka. }
  split; [|split].
  - exists (self (handleScroll lerp interpolate f)).
    rewrite Ew. cbn [observers]. rewrite lookup_insert_eq. auto.
  - exact Hni.
  - apply scroll_ticks_silent. exact Hni.
Qed.

End Detached.

(** ** updateBounds *)

Section Bounds.

Context {L : Type} `{Linked L}.
Variable convertValueUnit : num -> string -> num.

Lemma removeDebug_kept (f : Frame L) :
  kept (removeDebug f) = kept f
  /\ linked (self (removeDebug f)) = linked (self f)
  /\ linked_events (log (removeDebug f)) = linked_events (log f).
Proof.
  unfold removeDebug.
  split_ifs; (split; [reflexivity|split; [reflexivity|]]);
    unfold linked_events; cbn [log emit on_self];
    rewrite ?List.filter_app; cbn [List.filter is_linked_event];
    rewrite ?app_nil_r; reflexivity.
Qed.

Lemma debug_kept (f : Frame L) :
  kept (debug f) = kept f
  /\ linked (self (debug f)) = linked (self f)
  /\ linked_events (log (debug f)) = linked_events (log f).
Proof.
  unfold debug.
  destruct (removeDebug_kept f) as (K & Lk & E).
  set (f1 := removeDebug f) in *. clearbody f1.
  match goal with |- context [if ?b then _ else _] => destruct b end;
    (split; [rewrite <- K; reflexivity|split; [rewrite <- Lk; reflexivity|]]);
    unfold linked_events in *; cbn [log emit on_self on_cont];
    rewrite ?List.filter_app, E; cbn [List.filter is_linked_event];
    rewrite ?app_nil_r; reflexivity.
Qed.

Lemma seek_linked_effect (time : num) (f : Frame L) :
  kept (seek_linked time f) = kept f
  /\ linked (self (seek_linked time f))
     = match linked (self f) with
       | Some l => Some (linked_seek time true l)
       | None => None
       end
  /\ linked_events (log (seek_linked time f))
     = linked_events (log f)
       ++ match linked (self f) with
          | Some _ => [LinkedSeek time true]
          | None => []
          end.
Proof.
  unfold seek_linked. destruct (linked (self f)) as [l|] eqn:El.
  - split; [reflexivity|]. split; [reflexivity|].
    unfold linked_events. cbn [log emit on_self]. rewrite List.filter_app. reflexivity.
  - split; [reflexivity|]. split; [exact El|]. rewrite app_nil_r. reflexivity.
Qed.

(** After [updateBounds] the cached distance is the one of the cached
    bounds, and the linked object has been sought to 0 and back to the
    time it had. *)
Lemma updateBounds_effect (rect : DOMRect) (f : Frame L) :
  let f' := updateBounds convertValueUnit rect f in
  distance (self f') = cached_distance (self f')
  /\ linked (self f')
     = match linked (self f) with
       | Some l => Some (linked_seek (linked_currentTime l) true (linked_seek (Fin 0) true l))
       | None => None
       end
  /\ linked_events (log f')
     = linked_events (log f)
       ++ match linked (self f) with
          | Some l => [LinkedSeek (Fin 0) true; LinkedSeek (linked_currentTime l) true]
          | None => []
          end.
Proof.
  cbv zeta. unfold updateBounds.
  set (f0 := if _debug (self f) then removeDebug f else f).
  assert (K0 : linked (self f0) = linked (self f)
               /\ linked_events (log f0) = linked_events (log f)).
  { unfold f0. destruct (_debug (self f)); [|split; reflexivity].
    destruct (removeDebug_kept f) as (_ & A & B). split; assumption. }
  destruct K0 as [L0 E0]. clearbody f0. rewrite L0.
  destruct (seek_linked_effect (Fin 0) f0) as (_ & L1 & E1).
  rewrite L0, E0 in *.
  set (f1 := seek_linked (Fin 0) f0) in *. clearbody f1.
  destruct (anchors (enter (self f1)) (VStr "end") (VStr "start")) as [enterContainer enterTarget].
  destruct (anchors (leave (self f1)) (VStr "start") (VStr "end")) as [leaveContainer leaveTarget].
  match goal with
  | |- context [on_self (set_bounds ?off ?start ?end_ ?dist ?ths ?cs) f1] =>
      set (f2 := on_self (set_bounds off start end_ dist ths cs) f1);
      assert (D2 : distance (self f2) = cached_distance (self f2)) by reflexivity;
      assert (L2 : linked (self f2) = linked (self f1)) by reflexivity;
      assert (E2 : log f2 = log f1) by reflexivity;
      clearbody f2
  end.
  rewrite L1 in L2. rewrite <- E2 in E1. clear E2 L1 f1.
  set (f3 := match (match linked (self f) with
                    | Some l => Some (linked_currentTime l)
                    | None => None
                    end) with
             | Some t => seek_linked t f2
             | None => f2
             end).
  assert (K3 : kept f3 = kept f2
               /\ linked (self f3)
                  = match linked (self f) with
                    | Some l => Some (linked_seek (linked_currentTime l) true
                                        (linked_seek (Fin 0) true l))
                    | None => None
                    end
               /\ linked_events (log f3)
                  = linked_events (log f)
                    ++ match linked (self f) with
                       | Some l => [LinkedSeek (Fin 0) true;
                                    LinkedSeek (linked_currentTime l) true]
                       | None => []
                       end).
  { unfold f3. destruct (linked (self f)) as [l|].
    - destruct (seek_linked_effect (linked_currentTime l) f2) as (A & B & C).
      rewrite L2 in B, C. rewrite E1 in C. rewrite <- app_assoc in C.
      split; [exact A|]. split; [exact B|exact C].
    - split; [reflexivity|]. split; [exact L2|exact E1]. }
  clearbody f3. destruct K3 as (K3 & L3 & E3).
  assert (D3 : distance (self f3) = cached_distance (self f3)).
  { unfold kept in K3. injection K3 as Ka Kb Kc _.
    unfold cached_distance. rewrite Ka, Kb, Kc. exact D2. }
  destruct (_debug (self f3)).
  - destruct (debug_kept f3) as (Kd & Ld & Ed).
    split; [|split; [rewrite Ld; exact L3|rewrite Ed; exact E3]].
    unfold kept in Kd. injection Kd as Ka Kb Kc _.
    unfold cached_distance. rewrite Ka, Kb, Kc. exact D3.
  - split; [exact D3|]. split; [exact L3|exact E3].
Qed.

Lemma le_false_not_lt (a b : num) : (a <=? b)%js = false -> (a <? b)%js = false.
Proof.
  destruct a as [| | |x], b as [| | |y]; try reflexivity; try discriminate.
  unfold JS.le, JS.lt. rewrite Qle_bool_false, Qltb_false. apply Qlt_le_weak.
Qed.

Lemma cached_distance_not_negative (o : ScrollObserver L) :
  (cached_distance o <? zero)%js = false.
Proof.
  unfold cached_distance.
  destruct (offsetEnd o - offsetStart o <=? zero)%js eqn:E; [reflexivity|].
  apply le_false_not_lt. exact E.
Qed.

(** C7.  After every call of [updateBounds] the distance is not negative:
    it is 0 whenever [offsetEnd - offsetStart] is zero or negative, it is
    that difference otherwise, and it is a number at least 0 whenever the
    difference is a finite number.  The progress read from the observer is
    then never negative, wherever the container is scrolled. *)
Theorem distance_never_negative (rect : DOMRect) (f : Frame L) :
  let o' := self (updateBounds convertValueUnit rect f) in
  let scrollDelta := (offsetEnd o' - offsetStart o')%js in
  (distance o' <? zero)%js = false
  /\ distance o' = (if (scrollDelta <=? zero)%js then Fin 0 else scrollDelta)
  /\ (forall q, scrollDelta = Fin q -> exists d, distance o' = Fin d /\ 0 <= d)
  /\ (forall c : ScrollContainer, (progress o' c <? zero)%js = false).
Proof.
  cbv zeta.
  destruct (updateBounds_effect rect f) as (D & _ & _). cbv zeta in D.
  set (o' := self (updateBounds convertValueUnit rect f)) in *. clearbody o'.
  split; [rewrite D; apply cached_distance_not_negative|].
  split; [exact D|]. split.
  - intros q Eq. rewrite D. unfold cached_distance. rewrite Eq.
    unfold JS.le, zero. destruct (Qle_bool q 0) eqn:E.
    + exists 0. split; [reflexivity|apply Qle_refl].
    + exists q. split; [reflexivity|].
      apply Qle_bool_false in E. apply Qlt_le_weak. exact E.
  - intros c. destruct (progress_unit o' c) as (q & Eq & Hq & _).
    rewrite Eq. unfold JS.lt, zero. apply Qltb_false. exact Hq.
Qed.

(** C8.  When an object is linked, [updateBounds] reads its current time,
    seeks it to 0 with the callbacks muted, measures, and seeks it back to
    the time read, muted again; these are the only calls it makes on the
    object.  So for a linked object whose [seek] moves the time cursor to
    the time given, the current time after [updateBounds] is the one
    before. *)
Theorem updateBounds_restores_linked_time (rect : DOMRect) (f : Frame L) (l : L) :
  linked (self f) = Some l ->
  let f' := updateBounds convertValueUnit rect f in
  let before := linked_currentTime l in
  linked (self f') = Some (linked_seek before true (linked_seek (Fin 0) true l))
  /\ linked_events (log f')
     = linked_events (log f) ++ [LinkedSeek (Fin 0) true; LinkedSeek before true]
  /\ ((forall time mute l0, linked_currentTime (linked_seek time mute l0) = time) ->
      exists l', linked (self f') = Some l' /\ linked_currentTime l' = before).
Proof.
  intros El. cbv zeta.
  destruct (updateBounds_effect rect f) as (_ & Lk & Ev). cbv zeta in Lk, Ev.
  rewrite El in Lk, Ev.
  split; [exact Lk|]. split; [exact Ev|].
  intros Hseek. eexists. split; [exact Lk|]. apply Hseek.
Qed.

End Bounds.

(** ** revert *)

Section Revert.

Context {L : Type} `{Linked L}.

(** C9.  [revert] on an observer that is reverted already returns at once:
    the observer, its container with the list of children and the [live]
    flag, and the log of events, debug removal included, are what they
    were.  Hence reverting twice is reverting once. *)
Theorem revert_twice_is_revert_once (f : Frame L) :
  reverted (self (revert f)) = true
  /\ revert (revert f) = revert f
  /\ (forall g : Frame L, reverted (self g) = true -> revert g = g).
Proof.
  assert (Hnoop : forall g : Frame L, reverted (self g) = true -> revert g = g).
  { intros g Hg. unfold revert. rewrite Hg. reflexivity. }
  assert (Hset : reverted (self (revert f)) = true).
  { unfold revert. destruct (reverted (self f)) eqn:E; [exact E|reflexivity]. }
  split; [exact Hset|]. split; [|exact Hnoop].
  apply Hnoop. exact Hset.
Qed.

End Revert.

(** ** The constructor *)

Section Constructor.

Context {L : Type} `{Linked L}.
Variable parseEasings : SyncParam -> Easing.

Local Abbreviation new := (construct (L:=L) parseEasings).

Lemma sync_fields_truthy (v : SyncParam) :
  (forall e, parseEasings (SyncFn e) = e) ->
  f_sync (sync_fields parseEasings v)
  = match v with SyncUndefined => true | _ => sync_truthy v end.
Proof.
  intros Hfn. destruct v as [| |b|n|s|e]; try reflexivity.
  - (* undefined: the default "play pause" *)
    unfold sync_fields. cbn.
    destruct (is_none (parseEasings (SyncStr "play pause"))); reflexivity.
  - destruct b; [|reflexivity].
    unfold sync_fields. cbn.
    destruct (is_none (parseEasings (SyncBool true))); reflexivity.
  - unfold sync_fields.
    destruct n as [| | |q]; try reflexivity.
    + cbn. destruct (is_none (parseEasings (SyncNum PInf))); reflexivity.
    + cbn. destruct (is_none (parseEasings (SyncNum NInf))); reflexivity.
    + cbn -[Qeq_bool]. destruct (Qeq_bool q 0); [reflexivity|].
      cbn. destruct (is_none (parseEasings (SyncNum (Fin q)))); reflexivity.
  - unfold sync_fields. cbn -[String.eqb Str.split].
    destruct (String.eqb s ""); [reflexivity|].
    cbn -[String.eqb Str.split].
    destruct (is_none (parseEasings (SyncStr s))), (String.eqb s "linear"); reflexivity.
  - unfold sync_fields. cbn. rewrite Hfn.
    destruct e; reflexivity.
Qed.

(** C10.  Suppose ["play pause"] names no easing and [parseEasings] hands
    back a function it is given.  With the [sync] parameter omitted the
    observer synchronises by the two methods [play] and [pause]: [sync] is
    true, there is no easing and no smoothing, [onSyncEnter] is the
    closure on [play], [onSyncLeave] the one on [pause], and the four
    directional sync callbacks are [noop].  Calling [onSyncEnter] or
    [onSyncLeave] calls the method on the linked object when there is one
    and it has the method, and does nothing otherwise.  Whatever the
    parameter, [sync] is false exactly when a falsy value is given. *)
Theorem default_sync_plays_and_pauses (parameters : ScrollObserverParams) (i : nat) :
  parseEasings (SyncStr "play pause") = none ->
  (forall e, parseEasings (SyncFn e) = e) ->
  (p_sync parameters = SyncUndefined ->
   let o := new parameters i in
   sync o = true /\ syncEase o = None /\ syncSmooth o = None
   /\ onSyncEnter o = Some "play" /\ onSyncLeave o = Some "pause"
   /\ onSyncEnterForward o = None /\ onSyncLeaveForward o = None
   /\ onSyncEnterBackward o = None /\ onSyncLeaveBackward o = None)
  /\ (forall (cb : Callback) (name : string) (f : Frame L),
        call_sync cb (Some name) f
        = match linked (self f) with
          | Some l =>
              match linked_method name l with
              | Some l' =>
                  {| self := set_linked (Some l') (self f);
                     cont := cont f;
                     log := log f ++ [Call cb; LinkedMethod name] |}
              | None => {| self := self f; cont := cont f; log := log f ++ [Call cb] |}
              end
          | None => {| self := self f; cont := cont f; log := log f ++ [Call cb] |}
          end)
  /\ (sync (new parameters i) = false
      <-> p_sync parameters <> SyncUndefined /\ sync_truthy (p_sync parameters) = false).
Proof.
  intros Hplay Hfn. split; [|split].
  - intros Hs. cbv zeta. unfold construct. rewrite Hs.
    cbn [sync syncEase syncSmooth onSyncEnter onSyncLeave onSyncEnterForward
           onSyncLeaveForward onSyncEnterBackward onSyncLeaveBackward].
    unfold sync_method, sync_fields. rewrite Hplay. cbn.
    repeat (split; [reflexivity|]). reflexivity.
  - intros cb name f. unfold call_sync.
    change (self (emit (Call cb) f)) with (self f).
    destruct (linked (self f)) as [l|]; [|reflexivity].
    destruct (linked_method name l); [|reflexivity].
    unfold emit, on_self. cbn [self cont log]. rewrite <- app_assoc. reflexivity.
  - unfold construct. cbn [sync]. rewrite (sync_fields_truthy _ Hfn).
    destruct (p_sync parameters); cbn [sync_truthy]; split;
      try (intros [Hne Ht]); try intros Hf; try discriminate;
      try (split; [discriminate|assumption]); try assumption.
    contradiction Hne. reflexivity.
Qed.

End Constructor.



(** * The properties at concrete observers *)

(** ** Where the specification and the code differ *)

(** C2 as the specification states it, without a position strictly
    between the bounds.  The fresh observer with bounds 0 and 100 is swept
    forward over -1, 0, 101: the sweep never goes back, starts before
    [offsetStart] and ends after [offsetEnd].  The enter callbacks are
    called on the bound, the leave callbacks are never called.  Over -1,
    101 no callback is called at all. *)
Lemma sweep_over_the_view_never_leaves :
  let f := Sample.frame SyncUndefined true (Fin (-1)) in
  let on_bound := [(Fin 0, Fin (-1)); (Fin 0, Fin 0); (Fin 0, Fin 101)] in
  let jump := [(Fin 0, Fin (-1)); (Fin 0, Fin 101)] in
  (view f = fresh /\ backward (self f) (cont f) = false
   /\ offsetStart (self f) = Fin 0 /\ offsetEnd (self f) = Fin 100
   /\ List.map (position (self f)) on_bound = [Fin (-1); Fin 0; Fin 101]
   /\ List.map (position (self f)) jump = [Fin (-1); Fin 101])
  /\ calls (log (sweep Sample.lerp Sample.interpolate on_bound f)) = enter_forward
  /\ calls (log (sweep Sample.lerp Sample.interpolate jump f)) = [].
Proof. vm_compute. repeat match goal with |- _ /\ _ => split end; reflexivity. Qed.

(** C3 as the specification states it, for the observer the constructor
    builds when [sync] is omitted: synchronised by [play] and [pause],
    [repeat = false], no linked object.  Scrolled from before the view to
    150, past [offsetEnd = 100], [handleScroll] leaves it begun and not
    completed with progress 1; a second call at 150 neither sets
    [completed] nor reverts, and the observer stays attached. *)
Lemma synchronised_observer_stays_attached :
  let f1 := handleScroll Sample.lerp Sample.interpolate
              (Sample.frame SyncUndefined false (Fin 150)) in
  let f2 := handleScroll Sample.lerp Sample.interpolate f1 in
  (repeat (self f1) = false /\ linked (self f1) = None
   /\ began (self f1) = true /\ completed (self f1) = false
   /\ progress (self f1) (cont f1) = Fin 1)
  /\ completed (self f2) = false
  /\ reverted (self f2) = false
  /\ children (cont f2) = [0%nat].
Proof. vm_compute. repeat match goal with |- _ /\ _ => split end; reflexivity. Qed.

(** C4 as the specification states it, for an axis of 100.6 pixels.
    ["max-=50"] resolves to 51, above the arithmetic result 50.6;
    ["min+=50%"] resolves to 50, below the arithmetic result 50.3. *)
Lemma relative_threshold_rounds_past_the_result :
  let size := Fin (503 # 5) in
  let toPx v := convertValueToPx Sample.convertValueUnit (VStr v) size None None in
  let parse v := parseBoundValue Sample.convertValueUnit (VStr v) size None None in
  (parse "max-=50" = Fin 51
   /\ (getRelativeValue (toPx "max") (toPx "50") "-" === Fin (253 # 5))%js = true
   /\ (parse "max-=50" >? getRelativeValue (toPx "max") (toPx "50") "-")%js = true)
  /\ (parse "min+=50%" = Fin 50
      /\ (getRelativeValue (toPx "min") (toPx "50%") "+" === Fin (503 # 10))%js = true
      /\ (parse "min+=50%" <? getRelativeValue (toPx "min") (toPx "50%") "+")%js = true).
Proof. vm_compute. repeat match goal with |- _ /\ _ => split end; reflexivity. Qed.

(** C6 as the specification states it, for the number 10.5: the value
    returned is 11. *)
Lemma fractional_number_is_rounded :
  parseBoundValue Sample.convertValueUnit (VNum (Fin (21 # 2))) (Fin 200) None None = Fin 11
  /\ (Fin 11 === Fin (21 # 2))%js = false.
Proof. vm_compute. split; reflexivity. Qed.

(** ** The theorems at concrete inputs *)

Lemma progress_range_and_monotone_witness :
  (progress (Sample.observer SyncUndefined true) (Sample.container_at (Fin 25))
   <=? progress (Sample.observer SyncUndefined true) (Sample.container_at (Fin 75)))%js
  = true.
Proof.
  apply (proj2 (proj2 (proj2
           (progress_range_and_monotone
              (Sample.observer SyncUndefined true) (Sample.container_at (Fin 25)))))
           (Sample.container_at (Fin 75)) 25 75).
  - reflexivity.
  - reflexivity.
  - reflexivity.
  - reflexivity.
  - unfold Qle. simpl. lia.
  - reflexivity.
Defined.

Lemma forward_sweep_enters_and_leaves_once_witness :
  calls (log (sweep Sample.lerp Sample.interpolate
                [(Fin 0, Fin (-10)); (Fin 0, Fin 0); (Fin 0, Fin 40);
                 (Fin 0, Fin 100); (Fin 0, Fin 130)]
                (Sample.frame SyncUndefined true (Fin (-10)))))
  = calls (log (Sample.frame SyncUndefined true (Fin (-10))))
    ++ enter_forward ++ leave_forward
  /\ view (sweep Sample.lerp Sample.interpolate
             [(Fin 0, Fin (-10)); (Fin 0, Fin 0); (Fin 0, Fin 40);
              (Fin 0, Fin 100); (Fin 0, Fin 130)]
             (Sample.frame SyncUndefined true (Fin (-10))))
     = gone.
Proof.
  apply (forward_sweep_enters_and_leaves_once Sample.lerp Sample.interpolate
           (Sample.frame SyncUndefined true (Fin (-10)))
           [(Fin 0, Fin (-10)); (Fin 0, Fin 0); (Fin 0, Fin 40);
            (Fin 0, Fin 100); (Fin 0, Fin 130)]).
  - reflexivity.
  - reflexivity.
  - repeat constructor.
  - reflexivity.
  - reflexivity.
  - apply Exists_cons_tl, Exists_cons_tl, Exists_cons_hd. reflexivity.
Defined.

Lemma completed_observer_detaches_witness :
  (exists o', observers (run 0 (handleScroll Sample.lerp Sample.interpolate)
                           (Sample.world (SyncBool false) false (Fin 150))) !! 0%nat
              = Some o'
              /\ completed o' = true /\ reverted o' = true)
  /\ ~ In 0%nat (children (container
                             (run 0 (handleScroll Sample.lerp Sample.interpolate)
                                (Sample.world (SyncBool false) false (Fin 150)))))
  /\ events_of 0
       (trace (scroll_ticks Sample.lerp Sample.interpolate
                 [(Fin 0, Fin 50); (Fin 0, Fin (-20)); (Fin 0, Fin 150)]
                 (run 0 (handleScroll Sample.lerp Sample.interpolate)
                    (Sample.world (SyncBool false) false (Fin 150)))))
     = events_of 0
         (trace (run 0 (handleScroll Sample.lerp Sample.interpolate)
                   (Sample.world (SyncBool false) false (Fin 150)))).
Proof.
  apply (completed_observer_detaches Sample.lerp Sample.interpolate
           (Sample.world (SyncBool false) false (Fin 150)) 0
           (Sample.observer (SyncBool false) false)
           [(Fin 0, Fin 50); (Fin 0, Fin (-20)); (Fin 0, Fin 150)]).
  - reflexivity.
  - reflexivity.
  - reflexivity.
  - reflexivity.
  - reflexivity.
  - reflexivity.
  - reflexivity.
  - left. reflexivity.
Defined.

Lemma relative_max_min_rounded_witness :
  parseBoundValue Sample.convertValueUnit (VStr (relative "max" "-" "10"))
    (Fin 200) (Some (Fin (-30))) (Some (Fin 0))
  = Fin 170
  /\ parseBoundValue Sample.convertValueUnit (VStr (relative "min" "+" "10"))
       (Fin 200) (Some (Fin (-30))) (Some (Fin 40))
     = Fin 40
  /\ (parseBoundValue Sample.convertValueUnit (VStr (relative "max" "-" "10"))
        (Fin 200) (Some (Fin (-30))) (Some (Fin 0))
      >? getRelativeValue
           (convertValueToPx Sample.convertValueUnit (VStr "max") (Fin 200) None None)
           (convertValueToPx Sample.convertValueUnit (VStr (operandB "-" "10"))
              (Fin 200) (Some (Fin (-30))) (Some (Fin 0)))
           "-")%js
     = false.
Proof.
  pose proof (relative_max_min_rounded Sample.convertValueUnit
                (Fin 200) (Some (Fin (-30))) (Some (Fin 0)) "-" "10" eq_refl)
    as ((Emax & _ & _ & Hwhole) & _).
  pose proof (relative_max_min_rounded Sample.convertValueUnit
                (Fin 200) (Some (Fin (-30))) (Some (Fin 40)) "+" "10" eq_refl)
    as (_ & (Emin & _) & _).
  split; [rewrite Emax; vm_compute; reflexivity|].
  split; [rewrite Emin; vm_compute; reflexivity|].
  apply Hwhole. vm_compute. reflexivity.
Defined.

Lemma distance_never_negative_witness :
  exists d,
    distance (self (updateBounds Sample.convertValueUnit
                      {| rect_left := Fin 0; rect_top := Fin 800;
                         rect_width := Fin 100; rect_height := Fin 200 |}
                      (Sample.frame SyncUndefined true (Fin 0))))
    = Fin d /\ 0 <= d.
Proof.
  apply (proj1 (proj2 (proj2
           (distance_never_negative Sample.convertValueUnit
              {| rect_left := Fin 0; rect_top := Fin 800;
                 rect_width := Fin 100; rect_height := Fin 200 |}
              (Sample.frame SyncUndefined true (Fin 0))))) 1200).
  reflexivity.
Defined.

Lemma updateBounds_restores_linked_time_witness :
  exists l',
    linked (self (updateBounds Sample.convertValueUnit
                    {| rect_left := Fin 0; rect_top := Fin 800;
                       rect_width := Fin 100; rect_height := Fin 200 |}
                    Sample.linked_frame))
    = Some l'
    /\ linked_currentTime l' = linked_currentTime Sample.clock.
Proof.
  apply (proj2 (proj2
           (updateBounds_restores_linked_time Sample.convertValueUnit
              {| rect_left := Fin 0; rect_top := Fin 800;
                 rect_width := Fin 100; rect_height := Fin 200 |}
              Sample.linked_frame Sample.clock eq_refl))).
  intros time mute l0. reflexivity.
Defined.

Lemma revert_twice_is_revert_once_witness :
  revert (revert (Sample.frame SyncUndefined true (Fin 0)))
  = revert (Sample.frame SyncUndefined true (Fin 0)).
Proof.
  apply (proj2 (proj2 (revert_twice_is_revert_once
                         (Sample.frame SyncUndefined true (Fin 0))))).
  reflexivity.
Defined.

Lemma default_sync_plays_and_pauses_witness :
  sync (Sample.observer SyncUndefined true) = true
  /\ onSyncEnter (Sample.observer SyncUndefined true) = Some "play"
  /\ onSyncLeave (Sample.observer SyncUndefined true) = Some "pause".
Proof.
  pose proof (proj1 (default_sync_plays_and_pauses (L:=Sample.Clock) Sample.parseEasings
                {| p_sync := SyncUndefined; p_repeat := Some true; p_axis := None;
                   p_enter := None; p_leave := None; p_debug := None |} 0
                eq_refl (fun e => eq_refl)) eq_refl) as W.
  cbv zeta in W. destruct W as (W1 & _ & _ & W2 & W3 & _).
  split; [exact W1|]. split; [exact W2|exact W3].
Defined.

(** ** Values computed by the model *)

Example parse_center u :
  parseBoundValue u (VStr "center") (Fin 200) None None = Fin 100.
Proof. vm_compute. reflexivity. Qed.

Example parse_rel u :
  parseBoundValue u (VStr "50%+=20") (Fin 200) None None = Fin 120.
Proof. vm_compute. reflexivity. Qed.

Example parse_max u :
  parseBoundValue u (VStr "max-=50.4") (Fin 200) None (Some (Fin 30)) = Fin 150.
Proof. vm_compute. reflexivity. Qed.

Example split_ex : Str.split "max-=50-=3" "-=" = ["max"; "50"; "3"].
Proof. reflexivity. Qed.

Example progress_half :
  progress (Sample.observer SyncUndefined true) (Sample.container_at (Fin 50))
  = Fin (1 # 2).
Proof. vm_compute. reflexivity. Qed.

Example sweep_with_edges :
  calls (log (sweep Sample.lerp Sample.interpolate
                [(Fin 0, Fin (-10)); (Fin 0, Fin 0); (Fin 0, Fin 40);
                 (Fin 0, Fin 100); (Fin 0, Fin 130)]
                (Sample.frame SyncUndefined true (Fin (-10)))))
  = enter_forward ++ leave_forward.
Proof. vm_compute. reflexivity. Qed.

(** A watched element 200 pixels high at content offset 800 in a
    container 1000 pixels high, default thresholds: the bounds are -200
    and 1000, and at scroll position 400 the progress is one half. *)
Example bounds_and_progress_of_the_default_thresholds :
  let f := updateBounds Sample.convertValueUnit
             {| rect_left := Fin 0; rect_top := Fin 800;
                rect_width := Fin 100; rect_height := Fin 200 |}
             (Sample.frame SyncUndefined true (Fin 0)) in
  offsetStart (self f) = Fin (-200)
  /\ offsetEnd (self f) = Fin 1000
  /\ distance (self f) = Fin 1200
  /\ progress (self f) (Sample.container_at (Fin 400)) = Fin (1 # 2).
Proof. vm_compute. repeat match goal with |- _ /\ _ => split end; reflexivity. Qed.

(** * Further properties of scroll.js *)

(** ** One call of handleScroll *)

Lemma round_Qeq (x y : Q) (d : nat) : x == y -> round (Fin x) d = round (Fin y) d.
Proof.
  intros E. destruct d as [|d]; unfold round, Math_round, JS.mul.
  - assert (E' : Qfloor (x + (1 # 2)) = Qfloor (y + (1 # 2))) by (rewrite E; reflexivity).
    rewrite E'. reflexivity.
  - assert (E' : Qfloor (x * pow10 (S d) + (1 # 2)) = Qfloor (y * pow10 (S d) + (1 # 2)))
      by (rewrite E; reflexivity).
    rewrite E'. reflexivity.
Qed.

Lemma round_one : round (Fin 1) 6 = Fin 1.
Proof. reflexivity. Qed.

(** ** The progress at the two bounds *)

Section ProgressAtBounds.

Context {L : Type} `{Linked L}.

Lemma progress_before (o : ScrollObserver L) (c : ScrollContainer) :
  (distance o <? zero)%js = false ->
  (scroll o c <=? offsetStart o)%js = true ->
  progress o c = Fin 0.
Proof.
  intros Hd Hs. rewrite progress_of_quotient. unfold quotient.
  destruct (scroll o c) as [| | |s], (offsetStart o) as [| | |a];
    try discriminate Hs;
    destruct (distance o) as [| | |d]; try discriminate Hd;
    cbn [JS.sub JS.div]; try reflexivity; try apply round_zero.
  - destruct (sgn d); reflexivity.
  - destruct (sgn d); reflexivity.
  - destruct (sgn d); reflexivity.
  - unfold JS.le in Hs. apply Qle_bool_iff in Hs.
    unfold JS.lt, zero in Hd. apply Qltb_false in Hd.
    destruct (sgn d) eqn:Esg.
    + destruct (sgn (s - a)); reflexivity.
    + apply (proj1 (sgn_Lt d)) in Esg. exfalso. lra.
    + apply (proj1 (sgn_Gt d)) in Esg.
      destruct (clamp_fin ((s - a) / d)) as (y & E & _ & Hlow & _).
      rewrite E. rewrite (round_Qeq y 0); [apply round_zero|].
      apply Hlow. apply Qle_shift_div_r; [exact Esg|]. lra.
Qed.

Lemma progress_after (o : ScrollObserver L) (c : ScrollContainer) (a b s : Q) :
  distance o = cached_distance o ->
  offsetStart o = Fin a -> offsetEnd o = Fin b -> a < b ->
  scroll o c = Fin s -> b <= s ->
  progress o c = Fin 1.
Proof.
  intros Hd Ha Hb Hab Hs Hbs. rewrite progress_of_quotient. unfold quotient.
  rewrite Hd. unfold cached_distance. rewrite Ha, Hb, Hs.
  cbn [JS.sub JS.le zero].
  assert (E0 : Qle_bool (b - a) 0 = false) by (apply Qle_bool_false; lra).
  rewrite E0. cbn [JS.div].
  assert (Esg : sgn (b - a) = Gt) by (apply sgn_Gt; lra).
  rewrite Esg.
  destruct (clamp_fin ((s - a) / (b - a))) as (y & E & _ & _ & Hhigh & _).
  rewrite E. rewrite (round_Qeq y 1); [reflexivity|].
  apply Hhigh. apply Qle_shift_div_l; lra.
Qed.

(** X1.  With the distance the observer caches for its bounds, the
    progress is 0 at every scroll position up to and including
    [offsetStart]; and for finite bounds with [offsetStart < offsetEnd] it
    is 1 at every position from [offsetEnd] on. *)
Theorem progress_zero_before_one_after (o : ScrollObserver L) (c : ScrollContainer) :
  distance o = cached_distance o ->
  ((scroll o c <=? offsetStart o)%js = true -> progress o c = Fin 0)
  /\ (forall a b s : Q,
        offsetStart o = Fin a -> offsetEnd o = Fin b -> a < b ->
        scroll o c = Fin s -> b <= s ->
        progress o c = Fin 1).
Proof.
  intros Hd. split.
  - apply progress_before. rewrite Hd. apply cached_distance_not_negative.
  - intros a b s. apply progress_after. exact Hd.
Qed.

End ProgressAtBounds.

Section Ticks.

Context {L : Type} `{Linked L}.
Variable lerp : num -> num -> num -> num.
Variable interpolate : num -> num -> num -> num.

Local Abbreviation tick_of := (handleScroll lerp interpolate).

(** X2.  [handleScroll] assigns none of the options and cached bounds of
    the observer ([index], [repeat], [horizontal], [sync], [syncEase],
    [syncSmooth], [offsetStart], [offsetEnd], [distance], [_debug]),
    links and unlinks nothing, leaves the scroll offsets and the
    direction flags of the container as they are, and attaches no
    observer to the container. *)
Theorem handleScroll_keeps_options_and_bounds (f : Frame L) :
  static (tick_of f) = static f
  /\ incl (children (cont (tick_of f))) (children (cont f)).
Proof.
  split.
  - apply (handleScroll_effect lerp interpolate f).
  - apply handleScroll_children.
Qed.


(** *** The view state *)

Lemma view_step_entered (isInView' edge : bool) (v : bool * bool * bool) :
  entered_in_view v -> entered_in_view (view_step isInView' edge v).
Proof.
  destruct v as [[iv he] fe]. unfold entered_in_view. cbn [fst snd].
  destruct isInView', edge, iv, he, fe; cbn; intros Hv; try reflexivity;
    try discriminate; intros E; try discriminate; try (apply Hv; reflexivity).
Qed.

Lemma step_calls_one_group (b isInView' edge : bool) (v : bool * bool * bool) :
  entered_in_view v ->
  step_calls b isInView' edge v = []
  \/ step_calls b isInView' edge v = enter_list b
  \/ step_calls b isInView' edge v = leave_list b.
Proof.
  destruct v as [[iv he] fe]. unfold entered_in_view. cbn [fst snd].
  unfold step_calls.
  destruct isInView', edge, iv, he, fe; cbn; intros Hv;
    rewrite ?app_nil_r; auto; discriminate (Hv eq_refl).
Qed.

(** X3.  An observer in view has entered: [handleScroll] keeps
    [isInView] implying [hasEntered].  For such an observer one call of
    [handleScroll] calls the enter callbacks, or the leave callbacks, or
    neither, never both. *)
Theorem handleScroll_enters_or_leaves (f : Frame L) :
  entered_in_view (view f) ->
  entered_in_view (view (tick_of f))
  /\ exists cs,
       calls (log (tick_of f)) = calls (log f) ++ cs
       /\ (cs = [] \/ cs = enter_list (backward (self f) (cont f))
           \/ cs = leave_list (backward (self f) (cont f))).
Proof.
  intros Hv. destruct (handleScroll_effect lerp interpolate f) as (_ & V & C).
  split.
  - rewrite V. apply view_step_entered, Hv.
  - eexists. split; [exact C|]. apply step_calls_one_group, Hv.
Qed.

Lemma now_in_view_not_on_edge (f : Frame L) :
  now_in_view f = true -> now_on_edge f = false.
Proof.
  apply (inside_false_edge (offsetStart (self f)) (offsetEnd (self f))
           (scroll (self f) (cont f))).
Qed.

(** X4.  A call of [handleScroll] at a scroll position outside the view
    (a bound included) on an observer that has entered calls no enter
    callback: it calls the leave callbacks, in the direction of the
    container, exactly when the observer was in view, and leaves the
    observer out of view and entered. *)
Theorem handleScroll_outside_the_view (f : Frame L) :
  hasEntered (self f) = true ->
  now_in_view f = false ->
  calls (log (tick_of f))
  = calls (log f)
    ++ (if isInView (self f) then leave_list (backward (self f) (cont f)) else [])
  /\ isInView (self (tick_of f)) = false
  /\ hasEntered (self (tick_of f)) = true.
Proof.
  intros He Hout. destruct (handleScroll_effect lerp interpolate f) as (_ & V & C).
  rewrite Hout in V, C.
  pose proof (f_equal (fun v => fst (fst v)) V) as V1.
  pose proof (f_equal (fun v => snd (fst v)) V) as V2.
  cbn [view fst snd] in V1, V2. rewrite V1, V2, C.
  unfold view. rewrite He.
  destruct (now_on_edge f), (isInView (self f)), (forceEnter (self f));
    cbn; auto.
Qed.

(** X5.  A call of [handleScroll] at a scroll position strictly between
    the bounds leaves the observer in view, and entered if it was not in
    view before.  It calls the
    enter callbacks, in the direction of the container, unless the
    observer was in view already, or had entered on a bound and not been
    in view since ([forceEnter] and [hasEntered] both set); it calls no
    leave callback. *)
Theorem handleScroll_in_the_view (f : Frame L) :
  now_in_view f = true ->
  calls (log (tick_of f))
  = calls (log f)
    ++ (if negb (isInView (self f))
           && negb (forceEnter (self f) && hasEntered (self f))
        then enter_list (backward (self f) (cont f)) else [])
  /\ isInView (self (tick_of f)) = true
  /\ hasEntered (self (tick_of f)) = negb (isInView (self f)) || hasEntered (self f).
Proof.
  intros Hin. destruct (handleScroll_effect lerp interpolate f) as (_ & V & C).
  rewrite Hin, (now_in_view_not_on_edge f Hin) in V, C.
  pose proof (f_equal (fun v => fst (fst v)) V) as V1.
  pose proof (f_equal (fun v => snd (fst v)) V) as V2.
  cbn [view fst snd] in V1, V2. rewrite V1, V2, C.
  unfold view.
  destruct (isInView (self f)), (hasEntered (self f)), (forceEnter (self f));
    cbn; rewrite ?app_nil_r; auto.
Qed.


(** *** The blocks of handleScroll *)

(** [handleScroll] as the sequence of its blocks. *)
Lemma handleScroll_blocks (f : Frame L) :
  exists f1 p hu sc f2 f3 f4 sc' f5 f6,
    f1 = began_block (now_before f) (progress (self f) (cont f)) f
    /\ seek_block lerp interpolate (should_seek (self f))
         (progress (self f) (cont f)) f1 = (p, hu, sc, f2)
    /\ f3 = enter_block (now_in_view f) (force (now_on_edge f) (view f))
              (_debug (self f) && debugEl (self f)) f2
    /\ f4 = (if (if now_in_view f || negb (now_in_view f) && isInView (self f3)
                 then true else hu)
             then update_block (should_seek (self f)) p f3 else f3)
    /\ leave_block (now_in_view f) sc f4 = (sc', f5)
    /\ f6 = complete_block p sc' f5
    /\ tick_of f = final_block p f6.
Proof.
  unfold handleScroll.
  fold (now_in_view f). fold (now_on_edge f). fold (now_before f).
  fold (should_seek (self f)).
  change (negb (hasEntered (self f)) && now_on_edge f)
    with (force (now_on_edge f) (view f)).
  set (f1 := began_block (now_before f) (progress (self f) (cont f)) f).
  destruct (seek_block lerp interpolate (should_seek (self f))
              (progress (self f) (cont f)) f1) as [[[p hu] sc] f2] eqn:E2.
  set (f3 := enter_block _ _ _ f2).
  set (f4 := if (if now_in_view f || negb (now_in_view f) && isInView (self f3)
                 then true else hu)
             then update_block (should_seek (self f)) p f3 else f3).
  destruct (leave_block (now_in_view f) sc f4) as [sc' f5] eqn:E5.
  exists f1, p, hu, sc, f2, f3, f4, sc', f5, (complete_block p sc' f5).
  split; [reflexivity|]. split; [exact E2|]. split; [reflexivity|].
  split; [reflexivity|]. split; [exact E5|]. split; reflexivity.
Qed.

(** When nothing is to be sought the seek block is idle. *)
Lemma seek_block_idle (p : num) (f : Frame L) :
  seek_block lerp interpolate false p f = (p, false, false, f).
Proof. unfold seek_block. destruct (linked (self f)); reflexivity. Qed.

(** The life of the observer up to the completion block. *)
Lemma handleScroll_life (f f1 f2 f3 f4 f5 : Frame L) (p : num) (hu sc sc' : bool) :
  f1 = began_block (now_before f) (progress (self f) (cont f)) f ->
  seek_block lerp interpolate (should_seek (self f))
    (progress (self f) (cont f)) f1 = (p, hu, sc, f2) ->
  f3 = enter_block (now_in_view f) (force (now_on_edge f) (view f))
         (_debug (self f) && debugEl (self f)) f2 ->
  f4 = (if (if now_in_view f || negb (now_in_view f) && isInView (self f3)
            then true else hu)
        then update_block (should_seek (self f)) p f3 else f3) ->
  leave_block (now_in_view f) sc f4 = (sc', f5) ->
  life f5 = life f1 /\ static f5 = static f /\ static f4 = static f.
Proof.
  intros E1 E2 E3 E4 E5.
  pose proof (life_seek_block lerp interpolate (should_seek (self f))
                (progress (self f) (cont f)) f1) as K2.
  pose proof (seek_block_quiet lerp interpolate (should_seek (self f))
                (progress (self f) (cont f)) f1) as (S2 & _ & _).
  rewrite E2 in K2, S2. cbn [snd] in K2, S2.
  pose proof (life_enter_block (now_in_view f) (force (now_on_edge f) (view f))
                (_debug (self f) && debugEl (self f)) f2) as K3.
  destruct (enter_block_effect (now_in_view f) (force (now_on_edge f) (view f))
              (_debug (self f) && debugEl (self f)) f2) as (S3 & _ & _).
  rewrite <- E3 in K3, S3.
  assert (K4 : life f4 = life f3 /\ static f4 = static f3).
  { rewrite E4.
    match goal with |- context [if ?b then update_block _ _ _ else _] => destruct b end.
    - split; [apply life_update_block|apply update_block_quiet].
    - split; reflexivity. }
  destruct K4 as [K4 S4].
  pose proof (life_leave_block (now_in_view f) sc f4) as K5.
  destruct (leave_block_effect (now_in_view f) sc f4) as (S5 & _ & _).
  rewrite E5 in K5, S5. cbn [snd] in K5, S5.
  assert (S1 : static f1 = static f).
  { rewrite E1. apply began_block_quiet. }
  split; [congruence|]. split; congruence.
Qed.

(** *** began, completed and prevProgress *)

Lemma began_block_began (isBefore : bool) (p : num) (f : Frame L) :
  began (self (began_block isBefore p f))
  = if (p >? zero)%js then true else if isBefore then false else began (self f).
Proof.
  unfold began_block.
  destruct isBefore, (began (self f)) eqn:E, (p >? zero)%js;
    cbn; rewrite ?E; cbn; rewrite ?E; reflexivity.
Qed.

Lemma began_revert (f : Frame L) : began (self (revert f)) = began (self f).
Proof.
  unfold revert. destruct (reverted (self f)); [reflexivity|].
  set (f1 := on_cont (removeChild (index (self f))) f).
  set (f2 := if no_children (cont f1) then container_revert f1 else f1).
  assert (E2 : life f2 = life f1)
    by (unfold f2; destruct (no_children (cont f1)); reflexivity).
  set (f3 := if _debug (self f2) then removeDebug f2 else f2).
  assert (E3 : life f3 = life f1).
  { unfold f3. destruct (_debug (self f2)); [rewrite life_removeDebug|]; exact E2. }
  clearbody f3. unfold life in E3. injection E3 as _ _ Eb _. cbn. exact Eb.
Qed.

Lemma began_complete_block (p : num) (sc : bool) (f : Frame L) :
  began (self (complete_block p sc f)) = began (self f).
Proof.
  unfold complete_block.
  match goal with |- context [if ?b then _ else _] => destruct b end; [|reflexivity].
  set (f2 := on_self (set_completed true) _).
  assert (E2 : began (self f2) = began (self f))
    by (unfold f2; destruct (sync (self f)); reflexivity).
  clearbody f2.
  match goal with |- context [if ?b then _ else _] => destruct b end.
  - rewrite began_revert. exact E2.
  - exact E2.
Qed.

Lemma began_final_block (p : num) (f : Frame L) :
  began (self (final_block p f)) = began (self f).
Proof. unfold final_block. split_ifs; reflexivity. Qed.

(** X6.  After [handleScroll], [began] is set when the progress is above
    0; otherwise it is cleared when the scroll position is at or before
    [offsetStart], and left as it was when it is not. *)
Theorem handleScroll_began (f : Frame L) :
  began (self (tick_of f))
  = if (progress (self f) (cont f) >? zero)%js then true
    else if now_before f then false else began (self f).
Proof.
  destruct (handleScroll_blocks f)
    as (f1 & p & hu & sc & f2 & f3 & f4 & sc' & f5 & f6
        & E1 & E2 & E3 & E4 & E5 & E6 & E7).
  destruct (handleScroll_life f f1 f2 f3 f4 f5 p hu sc sc' E1 E2 E3 E4 E5)
    as (K5 & _ & _).
  rewrite E7, began_final_block, E6, began_complete_block.
  unfold life in K5. injection K5 as _ _ Eb _.
  rewrite Eb, E1. apply began_block_began.
Qed.

Lemma final_block_completed (p : num) (f : Frame L) :
  completed (self (final_block p f))
  = (if (p <? one)%js then false else completed (self f))
  /\ prevProgress (self (final_block p f)) = p.
Proof.
  unfold final_block.
  destruct (p <? one)%js, (completed (self f)) eqn:E; cbn; rewrite ?E; split; reflexivity.
Qed.

(** X7.  After every call of [handleScroll], an observer that is
    [completed] has a [prevProgress] that is not below 1: the call clears
    [completed] whenever the progress it stores is below 1.  The progress
    stored is the progress read from the bounds whenever nothing is to be
    sought on a linked object. *)
Theorem handleScroll_completed_at_full_progress (f : Frame L) :
  ((prevProgress (self (tick_of f)) <? one)%js = true ->
   completed (self (tick_of f)) = false)
  /\ (should_seek (self f) = false ->
      prevProgress (self (tick_of f)) = progress (self f) (cont f)).
Proof.
  destruct (handleScroll_blocks f)
    as (f1 & p & hu & sc & f2 & f3 & f4 & sc' & f5 & f6
        & E1 & E2 & E3 & E4 & E5 & E6 & E7).
  destruct (final_block_completed p f6) as [Ec Ep].
  rewrite E7, Ec, Ep. split.
  - intros Hp. rewrite Hp. reflexivity.
  - intros Hs. rewrite Hs, seek_block_idle in E2. congruence.
Qed.

(** *** The callbacks of one call, in order *)

Lemma callbacks_emit (e : Event) (f : Frame L) :
  callbacks (log (emit e f)) = callbacks (log f) ++ (if is_call e then [e] else []).
Proof.
  unfold callbacks. simpl. rewrite List.filter_app. simpl.
  destruct (is_call e); reflexivity.
Qed.

Lemma callbacks_call_sync (cb : Callback) (m : option string) (f : Frame L) :
  callbacks (log (call_sync cb m f)) = callbacks (log f) ++ [Call cb].
Proof.
  unfold call_sync. destruct m as [name|]; [|apply (callbacks_emit (Call cb))].
  change (self (emit (Call cb) f)) with (self f).
  destruct (linked (self f)) as [l|]; [|apply (callbacks_emit (Call cb))].
  destruct (linked_method name l) as [l'|]; [|apply (callbacks_emit (Call cb))].
  rewrite callbacks_emit. cbn [is_call]. rewrite app_nil_r.
  change (log (on_self (set_linked (Some l')) (emit (Call cb) f)))
    with (log (emit (Call cb) f)).
  apply (callbacks_emit (Call cb)).
Qed.

Lemma callbacks_call (cb : Callback) (f : Frame L) :
  callbacks (log (call cb f)) = callbacks (log f) ++ [Call cb].
Proof. apply (callbacks_emit (Call cb)). Qed.

Lemma callbacks_enter_calls (f : Frame L) :
  callbacks (log (enter_calls f))
  = callbacks (log f) ++ enter_list (backward (self f) (cont f)).
Proof.
  unfold enter_calls.
  destruct (call_sync_effect onSyncEnter_ (onSyncEnter (self f)) f) as (S1 & _ & _).
  pose proof (callbacks_call_sync onSyncEnter_ (onSyncEnter (self f)) f) as C1.
  set (f1 := call_sync onSyncEnter_ (onSyncEnter (self f)) f) in *. clearbody f1.
  assert (Hb1 : backward (self (call onEnter_ f1)) (cont (call onEnter_ f1))
                = backward (self f) (cont f)).
  { apply backward_static. exact S1. }
  rewrite Hb1.
  pose proof (callbacks_call onEnter_ f1) as C2. rewrite C1 in C2.
  set (f2 := call onEnter_ f1) in *. clearbody f2.
  destruct (backward (self f) (cont f));
    rewrite callbacks_call, callbacks_call_sync, C2, <- !app_assoc; reflexivity.
Qed.

Lemma callbacks_leave_calls (f : Frame L) :
  callbacks (log (leave_calls f))
  = callbacks (log f) ++ leave_list (backward (self f) (cont f)).
Proof.
  unfold leave_calls.
  destruct (call_sync_effect onSyncLeave_ (onSyncLeave (self f)) f) as (S1 & _ & _).
  pose proof (callbacks_call_sync onSyncLeave_ (onSyncLeave (self f)) f) as C1.
  set (f1 := call_sync onSyncLeave_ (onSyncLeave (self f)) f) in *. clearbody f1.
  assert (Hb1 : backward (self (call onLeave_ f1)) (cont (call onLeave_ f1))
                = backward (self f) (cont f)).
  { apply backward_static. exact S1. }
  rewrite Hb1.
  pose proof (callbacks_call onLeave_ f1) as C2. rewrite C1 in C2.
  set (f2 := call onLeave_ f1) in *. clearbody f2.
  destruct (backward (self f) (cont f));
    rewrite callbacks_call, callbacks_call_sync, C2, <- !app_assoc; reflexivity.
Qed.

Lemma log_began_block (isBefore : bool) (p : num) (f : Frame L) :
  log (began_block isBefore p f) = log f
  /\ prevProgress (self (began_block isBefore p f)) = prevProgress (self f)
  /\ reverted (self (began_block isBefore p f)) = reverted (self f)
  /\ completed (self (began_block isBefore p f)) = completed (self f)
  /\ children (cont (began_block isBefore p f)) = children (cont f).
Proof.
  unfold began_block.
  split_ifs; (split; [reflexivity|]); (split; [reflexivity|]);
    (split; [reflexivity|]); split; reflexivity.
Qed.

Lemma callbacks_seek_block (shouldSeek : bool) (p : num) (f : Frame L) :
  callbacks (log (snd (seek_block lerp interpolate shouldSeek p f)))
  = callbacks (log f).
Proof.
  unfold seek_block. destruct (linked (self f)); [|reflexivity].
  destruct shouldSeek; [|reflexivity]. cbn [snd].
  match goal with |- context [if ?b then emit _ _ else _] => destruct b end;
    [|reflexivity].
  rewrite callbacks_emit. apply app_nil_r.
Qed.

Lemma callbacks_enter_block (isInView' forceEnter' debug' : bool) (f : Frame L) :
  callbacks (log (enter_block isInView' forceEnter' debug' f))
  = callbacks (log f)
    ++ (if fires isInView' forceEnter' (view f)
        then enter_list (backward (self f) (cont f)) else []).
Proof.
  unfold enter_block, fires, entering.
  change (view f) with (isInView (self f), hasEntered (self f), forceEnter (self f)).
  cbv beta iota zeta.
  destruct ((isInView' && negb (isInView (self f)))
            || (forceEnter' && negb (forceEnter (self f)) && negb (hasEntered (self f)))).
  2: { cbn [andb]. rewrite app_nil_r. reflexivity. }
  cbn [andb].
  set (f1 := if isInView' then on_self (set_isInView true) f else f).
  assert (S1 : static f1 = static f) by (unfold f1; destruct isInView'; reflexivity).
  assert (C1 : log f1 = log f) by (unfold f1; destruct isInView'; reflexivity).
  assert (F1 : forceEnter (self f1) = forceEnter (self f))
    by (unfold f1; destruct isInView'; reflexivity).
  assert (H1 : hasEntered (self f1) = hasEntered (self f))
    by (unfold f1; destruct isInView'; reflexivity).
  rewrite F1, H1. clearbody f1.
  destruct (negb (forceEnter (self f)) || negb (hasEntered (self f))).
  - set (f2 := if debug' && isInView'
               then on_cont (fun c => set_zIndex (S (zIndex c)) c) f1 else f1).
    assert (S2 : static f2 = static f1)
      by (unfold f2; destruct (debug' && isInView'); reflexivity).
    assert (C2 : log f2 = log f1)
      by (unfold f2; destruct (debug' && isInView'); reflexivity).
    assert (Hb2 : backward (self f2) (cont f2) = backward (self f) (cont f)).
    { apply backward_static. congruence. }
    pose proof (callbacks_enter_calls f2) as C3. rewrite Hb2, C2, C1 in C3.
    set (f3 := enter_calls f2) in *. clearbody f3.
    destruct forceEnter'; exact C3.
  - rewrite app_nil_r. destruct isInView'; cbn [log on_self]; rewrite C1; reflexivity.
Qed.

Lemma callbacks_update_block (shouldSeek : bool) (p : num) (f : Frame L) :
  callbacks (log (update_block shouldSeek p f)) = callbacks (log f) ++ [Call onUpdate_].
Proof.
  unfold update_block.
  destruct (linked (self f)); [destruct shouldSeek|]; rewrite callbacks_call;
    [|reflexivity|reflexivity].
  rewrite callbacks_emit. cbn [is_call]. rewrite app_nil_r. reflexivity.
Qed.

Lemma callbacks_leave_block (isInView' syncCompleted : bool) (f : Frame L) :
  callbacks (log (snd (leave_block isInView' syncCompleted f)))
  = callbacks (log f)
    ++ (if leaves isInView' (view f)
        then leave_list (backward (self f) (cont f)) else []).
Proof.
  unfold leave_block, leaves.
  change (view f) with (isInView (self f), hasEntered (self f), forceEnter (self f)).
  cbv beta iota zeta.
  destruct (negb isInView' && isInView (self f)).
  2: { cbn [snd]. rewrite app_nil_r. reflexivity. }
  cbn [snd]. apply (callbacks_leave_calls (on_self (set_isInView false) f)).
Qed.

Lemma callbacks_removeDebug (f : Frame L) :
  callbacks (log (removeDebug f)) = callbacks (log f).
Proof.
  unfold removeDebug. split_ifs; unfold callbacks; cbn [log emit on_self];
    rewrite ?List.filter_app; cbn [List.filter is_call];
    rewrite ?app_nil_r; reflexivity.
Qed.

(** [revert] calls no callback and leaves [completed] as it is. *)
Lemma callbacks_revert (f : Frame L) :
  callbacks (log (revert f)) = callbacks (log f)
  /\ completed (self (revert f)) = completed (self f).
Proof.
  unfold revert. destruct (reverted (self f)); [split; reflexivity|].
  set (f1 := on_cont (removeChild (index (self f))) f).
  set (f2 := if no_children (cont f1) then container_revert f1 else f1).
  assert (E2 : callbacks (log f2) = callbacks (log f) /\ life f2 = life f1).
  { unfold f2, container_revert. destruct (no_children (cont f1)).
    - split; [|reflexivity]. cbn [log on_cont]. rewrite callbacks_emit.
      apply app_nil_r.
    - split; reflexivity. }
  set (f3 := if _debug (self f2) then removeDebug f2 else f2).
  assert (E3 : callbacks (log f3) = callbacks (log f) /\ life f3 = life f1).
  { unfold f3. destruct (_debug (self f2)).
    - rewrite callbacks_removeDebug, life_removeDebug. exact E2.
    - exact E2. }
  clearbody f3. destruct E3 as [E3 K3].
  unfold life in K3. injection K3 as _ Ec _ _.
  split; [exact E3|exact Ec].
Qed.

(** The completion block: the condition it tests, what it calls, and the
    [completed] flag it leaves. *)
Lemma callbacks_complete_block (p : num) (syncCompleted : bool) (f : Frame L) :
  let completes :=
    (p >=? one)%js && began (self f) && negb (completed (self f))
    && (sync (self f) && syncCompleted || negb (sync (self f))) in
  callbacks (log (complete_block p syncCompleted f))
  = callbacks (log f)
    ++ (if completes && sync (self f) then [Call onSyncComplete_] else [])
  /\ completed (self (complete_block p syncCompleted f))
     = (if completes then true else completed (self f)).
Proof.
  cbv zeta. unfold complete_block.
  match goal with |- context [if ?b then _ else _] => destruct b end.
  2: { cbn [andb]. rewrite app_nil_r. split; reflexivity. }
  cbn [andb].
  set (f2 := on_self (set_completed true) _).
  assert (E2 : callbacks (log f2)
               = callbacks (log f)
                 ++ (if sync (self f) then [Call onSyncComplete_] else [])
               /\ completed (self f2) = true).
  { unfold f2. destruct (sync (self f)).
    - split; [|reflexivity]. cbn [log on_self]. apply callbacks_call.
    - split; [|reflexivity]. rewrite app_nil_r. reflexivity. }
  clearbody f2. destruct E2 as [E2 Ec].
  match goal with |- context [if ?b then revert _ else _] => destruct b end.
  - destruct (callbacks_revert f2) as [A B]. rewrite A, B. split; assumption.
  - split; assumption.
Qed.

Lemma log_final_block (p : num) (f : Frame L) : log (final_block p f) = log f.
Proof. unfold final_block. split_ifs; reflexivity. Qed.

(** What the seek block reports as updated: the remapped progress differs
    from the progress stored by the previous call. *)
Lemma seek_block_hasUpdated (shouldSeek : bool) (p p' : num) (hu sc : bool)
    (f f' : Frame L) :
  seek_block lerp interpolate shouldSeek p f = (p', hu, sc, f') ->
  hu = is_some (linked (self f)) && shouldSeek
       && negb (p' === prevProgress (self f))%js.
Proof.
  unfold seek_block. destruct (linked (self f)); [|intros E; injection E; auto].
  destruct shouldSeek; [|intros E; injection E; auto].
  intros E. injection E as <- <- _ _. reflexivity.
Qed.

Lemma handleScroll_callbacks (f : Frame L) :
  let f' := tick_of f in
  let b := backward (self f) (cont f) in
  let entered := view_enter (now_in_view f) (force (now_on_edge f) (view f)) (view f) in
  callbacks (log f')
  = callbacks (log f)
    ++ (if fires (now_in_view f) (force (now_on_edge f) (view f)) (view f)
        then enter_list b else [])
    ++ (if now_in_view f || isInView (self f)
           || should_seek (self f)
              && negb (prevProgress (self f') === prevProgress (self f))%js
        then [Call onUpdate_] else [])
    ++ (if leaves (now_in_view f) entered then leave_list b else [])
    ++ (if sync (self f) && negb (completed (self f)) && completed (self f')
        then [Call onSyncComplete_] else []).
Proof.
  cbv zeta.
  destruct (handleScroll_blocks f)
    as (f1 & p & hu & sc & f2 & f3 & f4 & sc' & f5 & f6
        & E1 & E2 & E3 & E4 & E5 & E6 & E7).
  destruct (handleScroll_life f f1 f2 f3 f4 f5 p hu sc sc' E1 E2 E3 E4 E5)
    as (K5 & S5 & S4).
  destruct (log_began_block (now_before f) (progress (self f) (cont f)) f)
    as (L1 & P1 & R1 & C1 & _).
  rewrite <- E1 in L1, P1, R1, C1.
  (* the seek block *)
  pose proof (callbacks_seek_block (should_seek (self f))
                (progress (self f) (cont f)) f1) as B2.
  pose proof (seek_block_quiet lerp interpolate (should_seek (self f))
                (progress (self f) (cont f)) f1) as Q2.
  pose proof (seek_block_hasUpdated _ _ _ _ _ _ _ E2) as Hhu.
  rewrite E2 in B2, Q2. cbn [snd] in B2, Q2. rewrite L1 in B2.
  assert (Q1 : quiet f f1) by (rewrite E1; apply began_block_quiet).
  assert (Q02 : quiet f f2) by (eapply quiet_trans; eauto).
  pose proof (quiet_backward _ _ Q02) as Hb2.
  destruct Q02 as (S2 & V2 & _).
  (* the enter block *)
  pose proof (callbacks_enter_block (now_in_view f) (force (now_on_edge f) (view f))
                (_debug (self f) && debugEl (self f)) f2) as B3.
  destruct (enter_block_effect (now_in_view f) (force (now_on_edge f) (view f))
              (_debug (self f) && debugEl (self f)) f2) as (S3 & V3 & _).
  rewrite <- E3, V2, Hb2, B2 in B3. rewrite <- E3, V2 in V3.
  (* the update block *)
  assert (Hiv3 : now_in_view f || negb (now_in_view f) && isInView (self f3)
                 = now_in_view f || isInView (self f)).
  { change (isInView (self f3)) with (fst (fst (view f3))). rewrite V3.
    destruct (now_in_view f); [reflexivity|].
    cbn [negb andb orb]. apply view_enter_outside. }
  rewrite Hiv3 in E4.
  assert (Hlinked : is_some (linked (self f1)) && should_seek (self f)
                    = should_seek (self f)).
  { destruct Q1 as (S1 & _ & _).
    pose proof (f_equal st_hasLinked S1) as El. cbn in El. rewrite El.
    unfold should_seek. destruct (is_some (linked (self f))); reflexivity. }
  rewrite Hlinked, P1 in Hhu.
  assert (B4 : callbacks (log f4)
               = callbacks (log f3)
                 ++ (if now_in_view f || isInView (self f) || hu
                     then [Call onUpdate_] else [])
               /\ view f4 = view f3
               /\ backward (self f4) (cont f4) = backward (self f) (cont f)).
  { assert (Hb3 : backward (self f3) (cont f3) = backward (self f) (cont f)).
    { rewrite <- Hb2. apply backward_static. rewrite E3. exact S3. }
    rewrite E4.
    destruct (now_in_view f || isInView (self f)); cbn [orb].
    - destruct (update_block_quiet (should_seek (self f)) p f3) as (Sa & Va & _).
      split; [apply callbacks_update_block|]. split; [exact Va|].
      rewrite <- Hb3. apply backward_static. exact Sa.
    - destruct hu.
      + destruct (update_block_quiet (should_seek (self f)) p f3) as (Sa & Va & _).
        split; [apply callbacks_update_block|]. split; [exact Va|].
        rewrite <- Hb3. apply backward_static. exact Sa.
      + rewrite app_nil_r. split; [reflexivity|]. split; [reflexivity|exact Hb3]. }
  destruct B4 as (B4 & V4 & Hb4).
  (* the leave block *)
  pose proof (callbacks_leave_block (now_in_view f) sc f4) as B5.
  rewrite E5 in B5. cbn [snd] in B5. rewrite V4, V3, Hb4, B4, B3 in B5.
  (* the completion block *)
  destruct (callbacks_complete_block p sc' f5) as [B6 C6]. cbv zeta in B6, C6.
  rewrite <- E6 in B6, C6.
  destruct (final_block_completed p f6) as [C7 P7].
  rewrite <- E7 in C7, P7.
  unfold life in K5. injection K5 as _ Ec5 _ _.
  rewrite Ec5, C1 in B6, C6.
  destruct (static_fields _ _ S5) as (Es5 & _ & _ & _). rewrite Es5 in B6, C6.
  rewrite P7, C7, C6.
  rewrite E7, log_final_block, B6, B5, Hhu, <- !app_assoc.
  do 4 f_equal.
  (* the condition of the completion in terms of the flags *)
  set (cond := (p >=? one)%js && began (self f5) && negb (completed (self f))
               && (sync (self f) && sc' || negb (sync (self f)))) in *.
  destruct cond eqn:Econd.
  - unfold cond in Econd. rewrite !andb_true_iff in Econd.
    destruct Econd as [[[Hp _] Hc] _].
    rewrite (ge_one_not_lt p Hp), Hc.
    destruct (sync (self f)); reflexivity.
  - cbn [andb]. destruct (p <? one)%js, (completed (self f)), (sync (self f));
      reflexivity.
Qed.

(** X8.  The callbacks one call of [handleScroll] calls, in the order it
    calls them: the enter callbacks if the observer enters, then
    [onUpdate], then the leave callbacks if the observer leaves, then
    [onSyncComplete].  [onUpdate] is called exactly when the position is
    in view, or the observer was in view, or the progress sought on the
    linked object differs from the one the previous call stored.
    [onSyncComplete] is called exactly when [sync] is set and the call
    turns [completed] from false to true. *)
Theorem handleScroll_callbacks_in_order (f : Frame L) :
  let f' := tick_of f in
  let b := backward (self f) (cont f) in
  let entered := view_enter (now_in_view f) (force (now_on_edge f) (view f)) (view f) in
  callbacks (log f')
  = callbacks (log f)
    ++ (if fires (now_in_view f) (force (now_on_edge f) (view f)) (view f)
        then enter_list b else [])
    ++ (if now_in_view f || isInView (self f)
           || should_seek (self f)
              && negb (prevProgress (self f') === prevProgress (self f))%js
        then [Call onUpdate_] else [])
    ++ (if leaves (now_in_view f) entered then leave_list b else [])
    ++ (if sync (self f) && negb (completed (self f)) && completed (self f')
        then [Call onSyncComplete_] else []).
Proof. exact (handleScroll_callbacks f). Qed.

(** *** A smoothed synchronisation without linked object *)

Lemma reverted_final_block (p : num) (f : Frame L) :
  reverted (self (final_block p f)) = reverted (self f).
Proof. unfold final_block. split_ifs; reflexivity. Qed.

Lemma smoothed_unlinked_step (f : Frame L) :
  linked (self f) = None ->
  sync (self f) = true ->
  truthy_opt (syncSmooth (self f)) = true ->
  completed (self f) = false ->
  completed (self (tick_of f)) = false
  /\ reverted (self (tick_of f)) = reverted (self f)
  /\ children (cont (tick_of f)) = children (cont f).
Proof.
  intros Hl Hs Hsm Hc.
  destruct (handleScroll_blocks f)
    as (f1 & p & hu & sc & f2 & f3 & f4 & sc' & f5 & f6
        & E1 & E2 & E3 & E4 & E5 & E6 & E7).
  destruct (handleScroll_life f f1 f2 f3 f4 f5 p hu sc sc' E1 E2 E3 E4 E5)
    as (K5 & S5 & S4).
  destruct (log_began_block (now_before f) (progress (self f) (cont f)) f)
    as (_ & _ & R1 & C1 & Ch1).
  rewrite <- E1 in R1, C1, Ch1.
  assert (L1 : linked (self f1) = None).
  { apply (unlinked_static f f1); [|exact Hl]. rewrite E1. apply began_block_quiet. }
  rewrite (seek_block_unlinked lerp interpolate _ _ f1 L1) in E2.
  injection E2 as <- <- <- <-.
  pose proof (leave_block_syncCompleted (now_in_view f) false f4) as Esc.
  rewrite E5 in Esc. cbn [fst] in Esc.
  destruct (static_fields _ _ S4) as (Es4 & Esm4 & _ & _).
  rewrite Es4, Esm4, Hs, Hsm in Esc. cbn [negb andb] in Esc.
  assert (Esc' : sc' = false)
    by (rewrite Esc; destruct (negb (now_in_view f) && isInView (self f4)); reflexivity).
  destruct (static_fields _ _ S5) as (Es5 & _ & _ & _).
  assert (E6' : f6 = f5).
  { rewrite E6. unfold complete_block. rewrite Es5, Hs, Esc'.
    cbn [andb orb negb]. rewrite andb_false_r. reflexivity. }
  unfold life in K5. injection K5 as Er5 Ec5 _ Ech5.
  destruct (final_block_completed (progress (self f) (cont f)) f6) as [C7 _].
  rewrite E7, C7, reverted_final_block, children_final_block, E6'.
  rewrite Ec5, C1, Hc, Er5, R1, Ech5, Ch1.
  split; [destruct (_ <? one)%js; reflexivity|]. split; reflexivity.
Qed.

Lemma not_complete_in_lists (b : bool) :
  ~ In (Call onSyncComplete_) (enter_list b)
  /\ ~ In (Call onSyncComplete_) (leave_list b).
Proof.
  destruct b; split; cbn; intros Hin;
    repeat (destruct Hin as [Hin|Hin]; [discriminate Hin|]); exact Hin.
Qed.

Lemma In_callbacks (cb : Callback) (l : list Event) :
  In (Call cb) (callbacks l) <-> In (Call cb) l.
Proof.
  unfold callbacks. rewrite List.filter_In. cbn. tauto.
Qed.

(** X9.  An observer whose synchronisation is smoothed ([sync: true], a
    number, or ['linear']) and that has no linked object never completes:
    however it is scrolled, [handleScroll] leaves [completed] false, never
    calls [onSyncComplete], and never detaches the observer from its
    container, whatever [repeat] is. *)
Theorem smoothed_observer_without_linked_never_completes
    (samples : list (num * num)) (f : Frame L) :
  linked (self f) = None ->
  sync (self f) = true ->
  truthy_opt (syncSmooth (self f)) = true ->
  completed (self f) = false ->
  let f' := sweep lerp interpolate samples f in
  completed (self f') = false
  /\ reverted (self f') = reverted (self f)
  /\ children (cont f') = children (cont f)
  /\ (In (Call onSyncComplete_) (log f') -> In (Call onSyncComplete_) (log f)).
Proof.
  cbv zeta. revert f.
  induction samples as [|xy samples IH]; intros f Hl Hs Hsm Hc.
  { cbn. auto. }
  cbn [sweep fold_left].
  fold (sweep lerp interpolate samples (sweep_step lerp interpolate f xy)).
  unfold sweep_step.
  set (f0 := on_cont (updateScrollCoords (fst xy) (snd xy)) f).
  destruct (smoothed_unlinked_step f0 Hl Hs Hsm Hc) as (C1 & R1 & Ch1).
  destruct (handleScroll_effect lerp interpolate f0) as (S1 & _ & _).
  pose proof (handleScroll_callbacks f0) as B1. cbv zeta in B1.
  rewrite C1, andb_false_r in B1.
  destruct (static_fields _ _ S1) as (Es1 & Esm1 & _ & _).
  pose proof (unlinked_static f0 (tick_of f0) S1 Hl) as L1.
  destruct (IH (tick_of f0) L1) as (C2 & R2 & Ch2 & I2).
  { rewrite Es1. exact Hs. }
  { rewrite Esm1. exact Hsm. }
  { exact C1. }
  split; [exact C2|]. split; [rewrite R2; exact R1|].
  split; [rewrite Ch2; exact Ch1|].
  intros Hin. apply I2 in Hin. apply In_callbacks in Hin.
  rewrite B1 in Hin. apply In_callbacks.
  destruct (not_complete_in_lists (backward (self f0) (cont f0))) as [Ne Nl].
  repeat (apply in_app_or in Hin; destruct Hin as [Hin|Hin]);
    try exact Hin.
  - exfalso. destruct (fires _ _ _); [exact (Ne Hin)|exact Hin].
  - exfalso. match type of Hin with
             | In _ (if ?c then _ else _) => destruct c
             end; [|exact Hin].
    destruct Hin as [Hin|Hin]; [discriminate Hin|exact Hin].
  - exfalso. destruct (leaves _ _); [exact (Nl Hin)|exact Hin].
  - exfalso. exact Hin.
Qed.

(** *** revert and the container *)

Lemma no_children_removeChild (i : nat) (c : ScrollContainer) :
  no_children (removeChild i c) = forallb (Nat.eqb i) (children c).
Proof.
  unfold no_children, removeChild. cbn [children set_children].
  induction (children c) as [|j l IH]; [reflexivity|].
  cbn [List.filter forallb]. rewrite (Nat.eqb_sym i j).
  destruct (Nat.eqb j i); cbn [negb andb]; [exact IH|reflexivity].
Qed.

Lemma cont_removeDebug (f : Frame L) : cont (removeDebug f) = cont f.
Proof. unfold removeDebug. split_ifs; reflexivity. Qed.

Lemma container_reverts_removeDebug (f : Frame L) :
  container_reverts (log (removeDebug f)) = container_reverts (log f).
Proof.
  unfold removeDebug, container_reverts.
  split_ifs; cbn [log emit on_self]; rewrite ?List.filter_app;
    cbn [List.filter is_container_revert]; rewrite ?app_nil_r; reflexivity.
Qed.

(** X10.  [revert] on an observer that is not reverted splices its index
    out of the list of its container and leaves the other observers in
    their order.  When no other observer is left, and only then, it calls
    [ScrollContainer.revert], once, which ends the life of the container;
    otherwise the container stays as live as it was. *)
Theorem revert_of_the_last_observer_reverts_the_container (f : Frame L) :
  reverted (self f) = false ->
  let i := index (self f) in
  let last_one := forallb (Nat.eqb i) (children (cont f)) in
  children (cont (revert f))
  = List.filter (fun j => negb (Nat.eqb j i)) (children (cont f))
  /\ live (cont (revert f)) = (if last_one then false else live (cont f))
  /\ container_reverts (log (revert f))
     = container_reverts (log f) ++ (if last_one then [ContainerRevert] else []).
Proof.
  intros Hr. cbv zeta. unfold revert. rewrite Hr.
  set (i := index (self f)).
  set (f1 := on_cont (removeChild i) f).
  pose proof (no_children_removeChild i (cont f)) as En.
  change (removeChild i (cont f)) with (cont f1) in En.
  set (f2 := if no_children (cont f1) then container_revert f1 else f1).
  assert (E2 : children (cont f2) = children (cont f1)
               /\ live (cont f2)
                  = (if forallb (Nat.eqb i) (children (cont f)) then false
                     else live (cont f))
               /\ container_reverts (log f2)
                  = container_reverts (log f)
                    ++ (if forallb (Nat.eqb i) (children (cont f))
                        then [ContainerRevert] else [])).
  { unfold f2. rewrite En.
    destruct (forallb (Nat.eqb i) (children (cont f))).
    - split; [reflexivity|]. split; [reflexivity|].
      unfold container_revert, container_reverts. cbn [log on_cont emit].
      rewrite List.filter_app. reflexivity.
    - rewrite app_nil_r. split; [reflexivity|]. split; reflexivity. }
  set (f3 := if _debug (self f2) then removeDebug f2 else f2).
  assert (E3 : cont f3 = cont f2
               /\ container_reverts (log f3) = container_reverts (log f2)).
  { unfold f3. destruct (_debug (self f2)).
    - split; [apply cont_removeDebug|apply container_reverts_removeDebug].
    - split; reflexivity. }
  clearbody f3. destruct E3 as [E3 E3']. destruct E2 as (A & B & C).
  cbn [cont on_self log]. rewrite E3, E3'.
  split; [exact A|]. split; [exact B|exact C].
Qed.

End Ticks.

(** ** A pass through the view in either direction *)

Section PassMachine.

Variable b : bool.
Variables offsetStart' offsetEnd' : num.

Local Abbreviation ins := (inside offsetStart' offsetEnd').
Local Abbreviation edge_of := (on_edge offsetStart' offsetEnd').
Local Abbreviation far := (beyond b offsetStart' offsetEnd').
Local Abbreviation run := (run_pass b offsetStart' offsetEnd').

Lemma pass_order_trans (x y z : num) :
  pass_order b x y -> pass_order b y z -> pass_order b x z.
Proof.
  unfold pass_order. destruct b; intros A B.
  - exact (le_num_trans z y x B A).
  - exact (le_num_trans x y z A B).
Qed.

Lemma beyond_not_inside (s : num) : far s = true -> ins s = false.
Proof.
  unfold beyond, inside. destruct b; intros E; rewrite E;
    [reflexivity|apply andb_false_r].
Qed.

Lemma beyond_mono (x y : num) : pass_order b x y -> far x = true -> far y = true.
Proof.
  unfold pass_order, beyond, JS.ge. destruct b; intros R E.
  - exact (le_num_trans y x offsetStart' R E).
  - exact (le_num_trans offsetEnd' x y E R).
Qed.

Lemma inside_then_beyond (x y : num) :
  pass_order b x y -> ins x = true -> ins y = false -> far y = true.
Proof.
  unfold pass_order, beyond, inside, JS.ge. intros R Hx Hy.
  apply andb_true_iff in Hx. destruct Hx as [Hx1 Hx2].
  apply negb_true_iff in Hx1, Hx2.
  apply andb_false_iff in Hy. rewrite !negb_false_iff in Hy.
  destruct b.
  - destruct Hy as [Hy|Hy]; [exact Hy|].
    pose proof (le_num_trans offsetEnd' y x Hy R) as Hc.
    unfold le_num in Hc. congruence.
  - destruct Hy as [Hy|Hy]; [|exact Hy].
    pose proof (le_num_trans x y offsetStart' R Hy) as Hc.
    unfold le_num in Hc. congruence.
Qed.

Lemma run_pass_cons (s : num) (rest : list num) (v v1 v2 : bool * bool * bool)
    (cs1 cs2 : list Event) :
  view_step (ins s) (edge_of s) v = v1 ->
  step_calls b (ins s) (edge_of s) v = cs1 ->
  run rest v1 = (v2, cs2) ->
  run (s :: rest) v = (v2, cs1 ++ cs2).
Proof.
  intros E1 E2 E3. cbn [run_pass]. cbv zeta. rewrite E1, E2, E3. reflexivity.
Qed.

Lemma pass_gone_outside (edge : bool) :
  view_step false edge gone = gone /\ step_calls b false edge gone = [].
Proof. destruct edge; split; reflexivity. Qed.

Lemma pass_gone_inside :
  view_step true false gone = viewing /\ step_calls b true false gone = enter_list b.
Proof. split; [reflexivity|]. cbn. apply app_nil_r. Qed.

Lemma pass_viewing_inside (edge : bool) :
  view_step true edge viewing = viewing /\ step_calls b true edge viewing = [].
Proof. destruct edge; split; reflexivity. Qed.

Lemma pass_viewing_outside (edge : bool) :
  view_step false edge viewing = gone /\ step_calls b false edge viewing = leave_list b.
Proof. destruct edge; split; reflexivity. Qed.

Lemma run_pass_gone (l : list num) :
  Forall (fun s => far s = true) l -> run l gone = (gone, []).
Proof.
  induction 1 as [|s l Hs _ IH]; [reflexivity|].
  destruct (pass_gone_outside (edge_of s)) as [E1 E2].
  apply (run_pass_cons s l gone gone gone [] []);
    rewrite ?(beyond_not_inside s Hs); assumption.
Qed.

Lemma run_pass_viewing (l : list num) :
  StronglySorted (pass_order b) l ->
  Forall (fun s => ins s = false -> far s = true) l ->
  l <> [] ->
  far (List.last l NaN) = true ->
  run l viewing = (gone, leave_list b).
Proof.
  induction 1 as [|s l HS IH Hall]; intros Hout Hne Hlast; [congruence|].
  inversion Hout as [|? ? Hs Hout']; subst.
  destruct (ins s) eqn:Ei.
  - destruct l as [|s' l'].
    + cbn [List.last] in Hlast. rewrite (beyond_not_inside s Hlast) in Ei.
      discriminate.
    + rewrite last_cons_cons in Hlast.
      assert (Hrun : run (s' :: l') viewing = (gone, leave_list b)).
      { apply IH; [exact Hout'|discriminate|exact Hlast]. }
      destruct (pass_viewing_inside (edge_of s)) as [E1 E2].
      change (leave_list b) with ([] ++ leave_list b).
      apply (run_pass_cons s (s' :: l') viewing viewing gone [] (leave_list b));
        rewrite ?Ei; assumption.
  - pose proof (Hs eq_refl) as Hfar.
    assert (Hg : run l gone = (gone, [])).
    { apply run_pass_gone. eapply List.Forall_impl; [|exact Hall].
      intros x Hx. exact (beyond_mono s x Hx Hfar). }
    destruct (pass_viewing_outside (edge_of s)) as [E1 E2].
    rewrite <- (app_nil_r (leave_list b)).
    apply (run_pass_cons s l viewing gone gone (leave_list b) []);
      rewrite ?Ei; assumption.
Qed.

(** From an observer that has entered and left, a pass that has a
    position in view and ends at or past the far bound calls the enter
    callbacks and then the leave callbacks, once each. *)
Lemma run_pass_from_gone (l : list num) :
  StronglySorted (pass_order b) l ->
  Exists (fun s => ins s = true) l ->
  far (List.last l NaN) = true ->
  run l gone = (gone, enter_list b ++ leave_list b).
Proof.
  induction 1 as [|s l HS IH Hall]; intros Hex Hlast.
  { inversion Hex. }
  destruct (ins s) eqn:Ei.
  - pose proof (inside_false_edge offsetStart' offsetEnd' s Ei) as Ee.
    destruct l as [|s' l'].
    { cbn [List.last] in Hlast. rewrite (beyond_not_inside s Hlast) in Ei.
      discriminate. }
    rewrite last_cons_cons in Hlast.
    assert (Hrun : run (s' :: l') viewing = (gone, leave_list b)).
    { apply run_pass_viewing; [exact HS| |discriminate|exact Hlast].
      eapply List.Forall_impl; [|exact Hall].
      intros x Hx Hnx. exact (inside_then_beyond s x Hx Ei Hnx). }
    destruct pass_gone_inside as [E1 E2].
    apply (run_pass_cons s (s' :: l') gone viewing gone (enter_list b) (leave_list b));
      rewrite ?Ei, ?Ee; assumption.
  - assert (Hex' : Exists (fun x => ins x = true) l).
    { inversion Hex as [? ? Hh|? ? Ht]; subst; [congruence|exact Ht]. }
    assert (Hlast' : far (List.last l NaN) = true).
    { destruct l as [|s' l']; [inversion Hex'|]. exact Hlast. }
    destruct (pass_gone_outside (edge_of s)) as [E1 E2].
    change (enter_list b ++ leave_list b) with ([] ++ (enter_list b ++ leave_list b)).
    apply (run_pass_cons s l gone gone gone [] (enter_list b ++ leave_list b));
      rewrite ?Ei; try assumption.
    apply IH; assumption.
Qed.

Lemma pass_fresh_outside (edge : bool) :
  view_step false edge fresh = (if edge then forced else fresh)
  /\ step_calls b false edge fresh = (if edge then enter_list b else []).
Proof. destruct edge; split; try reflexivity. cbn. apply app_nil_r. Qed.

Lemma pass_fresh_inside :
  view_step true false fresh = viewing /\ step_calls b true false fresh = enter_list b.
Proof. split; [reflexivity|]. cbn. apply app_nil_r. Qed.

Lemma pass_forced_outside (edge : bool) :
  view_step false edge forced = forced /\ step_calls b false edge forced = [].
Proof. destruct edge; split; reflexivity. Qed.

Lemma pass_forced_inside (edge : bool) :
  view_step true edge forced = viewing /\ step_calls b true edge forced = [].
Proof. destruct edge; split; reflexivity. Qed.

(** From a fresh observer, or one that entered on a bound, a pass that
    has a position in view and ends at or past the far bound calls the
    enter callbacks, unless they were called on the bound already, and
    then the leave callbacks. *)
Lemma run_pass_from_fresh (l : list num) (was_forced : bool) :
  StronglySorted (pass_order b) l ->
  Exists (fun s => ins s = true) l ->
  far (List.last l NaN) = true ->
  run l (if was_forced then forced else fresh)
  = (gone, (if was_forced then [] else enter_list b) ++ leave_list b).
Proof.
  intros HS. revert was_forced.
  induction HS as [|s l HS IH Hall]; intros was_forced Hex Hlast.
  { inversion Hex. }
  destruct (ins s) eqn:Ei.
  - pose proof (inside_false_edge offsetStart' offsetEnd' s Ei) as Ee.
    destruct l as [|s' l'].
    { cbn [List.last] in Hlast. rewrite (beyond_not_inside s Hlast) in Ei.
      discriminate. }
    rewrite last_cons_cons in Hlast.
    assert (Hrun : run (s' :: l') viewing = (gone, leave_list b)).
    { apply run_pass_viewing; [exact HS| |discriminate|exact Hlast].
      eapply List.Forall_impl; [|exact Hall].
      intros x Hx Hnx. exact (inside_then_beyond s x Hx Ei Hnx). }
    destruct was_forced.
    + destruct (pass_forced_inside (edge_of s)) as [E1 E2].
      apply (run_pass_cons s (s' :: l') forced viewing gone [] (leave_list b));
        rewrite ?Ei; assumption.
    + destruct pass_fresh_inside as [E1 E2].
      apply (run_pass_cons s (s' :: l') fresh viewing gone (enter_list b) (leave_list b));
        rewrite ?Ei, ?Ee; assumption.
  - assert (Hex' : Exists (fun x => ins x = true) l).
    { inversion Hex as [? ? Hh|? ? Ht]; subst; [congruence|exact Ht]. }
    assert (Hlast' : far (List.last l NaN) = true).
    { destruct l as [|s' l']; [inversion Hex'|]. exact Hlast. }
    destruct was_forced.
    + destruct (pass_forced_outside (edge_of s)) as [E1 E2].
      apply (run_pass_cons s l forced forced gone [] ([] ++ leave_list b));
        rewrite ?Ei; try assumption.
      apply (IH true); assumption.
    + destruct (edge_of s) eqn:Ee.
      * destruct (pass_fresh_outside true) as [E1 E2].
        change (enter_list b ++ leave_list b)
          with (enter_list b ++ ([] ++ leave_list b)).
        apply (run_pass_cons s l fresh forced gone (enter_list b) ([] ++ leave_list b));
          rewrite ?Ei, ?Ee; try assumption.
        apply (IH true); assumption.
      * destruct (pass_fresh_outside false) as [E1 E2].
        change (enter_list b ++ leave_list b)
          with ([] ++ (enter_list b ++ leave_list b)).
        apply (run_pass_cons s l fresh fresh gone [] (enter_list b ++ leave_list b));
          rewrite ?Ei, ?Ee; try assumption.
        apply (IH false); assumption.
Qed.

End PassMachine.

(** ** What updateBounds measures *)

Section Measure.

Context {L : Type} `{Linked L}.
Variable convertValueUnit : num -> string -> num.

Lemma measure_removeDebug (f : Frame L) :
  measured_from (removeDebug f) = measured_from f
  /\ cached_bounds (removeDebug f) = cached_bounds f.
Proof. unfold removeDebug. split_ifs; split; reflexivity. Qed.

Lemma measure_debug (f : Frame L) :
  measured_from (debug f) = measured_from f
  /\ cached_bounds (debug f) = cached_bounds f.
Proof.
  unfold debug. destruct (measure_removeDebug f) as [A B].
  set (f1 := removeDebug f) in *. clearbody f1.
  match goal with |- context [if ?b then _ else _] => destruct b end;
    (split; [rewrite <- A|rewrite <- B]); reflexivity.
Qed.

Lemma measure_seek_linked (time : num) (f : Frame L) :
  measured_from (seek_linked time f) = measured_from f
  /\ cached_bounds (seek_linked time f) = cached_bounds f.
Proof. unfold seek_linked. destruct (linked (self f)); split; reflexivity. Qed.

Lemma updateBounds_measure (rect : DOMRect) (f : Frame L) :
  measured_from (updateBounds convertValueUnit rect f) = measured_from f.
Proof.
  unfold updateBounds.
  set (f0 := if _debug (self f) then removeDebug f else f).
  assert (M0 : measured_from f0 = measured_from f).
  { unfold f0. destruct (_debug (self f)); [apply measure_removeDebug|reflexivity]. }
  set (lt := match linked (self f0) with
             | Some l => Some (linked_currentTime l)
             | None => None
             end).
  clearbody lt.
  set (c0 := cont f0). set (h0 := horizontal (self f0)).
  clearbody c0 h0.
  pose proof (measure_seek_linked (Fin 0) f0) as [M1 _].
  set (f1 := seek_linked (Fin 0) f0) in *. clearbody f1. clearbody f0.
  destruct (anchors (enter (self f1)) (VStr "end") (VStr "start")) as [ec et].
  destruct (anchors (leave (self f1)) (VStr "start") (VStr "end")) as [lc ltg].
  match goal with
  | |- context [on_self (set_bounds ?a ?b ?c ?d ?e ?g) f1] =>
      set (f2 := on_self (set_bounds a b c d e g) f1);
      assert (M2 : measured_from f2 = measured_from f1) by reflexivity;
      clearbody f2
  end.
  set (f3 := match lt with Some t => seek_linked t f2 | None => f2 end).
  assert (M3 : measured_from f3 = measured_from f2).
  { unfold f3. destruct lt; [apply measure_seek_linked|reflexivity]. }
  clearbody f3.
  destruct (_debug (self f3)).
  - destruct (measure_debug f3) as [A _]. congruence.
  - congruence.
Qed.

(** The bounds cached are a function of the rectangle and of what
    [measured_from] gathers. *)
Lemma updateBounds_depends (rect : DOMRect) (f : Frame L) :
  exists B, forall g : Frame L,
    measured_from g = measured_from f ->
    cached_bounds (updateBounds convertValueUnit rect g) = B.
Proof.
  destruct (anchors (enter (self f)) (VStr "end") (VStr "start")) as [ec et] eqn:Ea.
  destruct (anchors (leave (self f)) (VStr "start") (VStr "end")) as [lc ltg] eqn:El.
  eexists. intros g E.
  unfold updateBounds.
  set (g0 := if _debug (self g) then removeDebug g else g).
  assert (M0 : measured_from g0 = measured_from f).
  { rewrite <- E. unfold g0.
    destruct (_debug (self g)); [apply measure_removeDebug|reflexivity]. }
  set (lt := match linked (self g0) with
             | Some l => Some (linked_currentTime l)
             | None => None
             end).
  clearbody lt.
  pose proof (measure_seek_linked (Fin 0) g0) as [M1 _]. rewrite M0 in M1.
  set (g1 := seek_linked (Fin 0) g0) in *. clearbody g1.
  unfold measured_from in M0, M1.
  injection M0 as Eh _ _ Esx Esy Elf Etp Ew Ehh Esw Esh.
  injection M1 as _ Een Ele _ _ _ _ _ _ _ _.
  rewrite Eh, Esx, Esy, Elf, Etp, Ew, Ehh, Esw, Esh, Een, Ele, Ea, El.
  clearbody g0.
  match goal with
  | |- context [on_self (set_bounds ?a ?b ?c ?d ?e ?k) g1] =>
      set (g2 := on_self (set_bounds a b c d e k) g1);
      assert (B2 : cached_bounds g2 = (a, b, c, d, e, k)) by reflexivity;
      clearbody g2
  end.
  set (g3 := match lt with Some t => seek_linked t g2 | None => g2 end).
  assert (B3 : cached_bounds g3 = cached_bounds g2).
  { unfold g3. destruct lt; [apply measure_seek_linked|reflexivity]. }
  clearbody g3.
  destruct (_debug (self g3)).
  - rewrite (proj2 (measure_debug g3)), B3, B2. reflexivity.
  - rewrite B3, B2. reflexivity.
Qed.

(** X12.  The bounds [updateBounds] caches ([offset], [offsetStart],
    [offsetEnd], [distance], [thresholds], [coords]) depend on the
    rectangle of the target, the axis and the two thresholds of the
    observer and the scroll offsets, position and sizes of the container
    only: not on the bounds cached before, the view state, the debug
    overlay or the linked object.  [updateBounds] changes none of what it
    measures from, so a second call with the same rectangle caches the
    same bounds. *)
Theorem updateBounds_is_repeatable (rect : DOMRect) (f : Frame L) :
  let once := updateBounds convertValueUnit rect f in
  (forall g : Frame L,
     measured_from g = measured_from f ->
     cached_bounds (updateBounds convertValueUnit rect g) = cached_bounds once)
  /\ measured_from once = measured_from f
  /\ cached_bounds (updateBounds convertValueUnit rect once) = cached_bounds once.
Proof.
  cbv zeta. destruct (updateBounds_depends rect f) as [B HB].
  assert (E : forall g : Frame L,
             measured_from g = measured_from f ->
             cached_bounds (updateBounds convertValueUnit rect g)
             = cached_bounds (updateBounds convertValueUnit rect f)).
  { intros g Hg. rewrite (HB g Hg), (HB f eq_refl). reflexivity. }
  split; [exact E|]. split; [apply updateBounds_measure|].
  apply E. apply updateBounds_measure.
Qed.

End Measure.

(** ** Keyword thresholds at every size *)

Lemma round_scaled (n d : positive) (size : num) :
  (Z.pos n = Z.pos d)%Z ->
  round (Fin (Z.pos n # d) * size)%js 0 = round size 0.
Proof.
  intros E. destruct size as [| | |q]; try reflexivity.
  cbn [JS.mul]. apply round_Qeq.
  assert (E1 : Z.pos n # d == 1).
  { unfold Qeq. cbn [Qnum Qden]. rewrite E. lia. }
  rewrite E1. ring.
Qed.

Section Keywords.

Variable convertValueUnit : num -> string -> num.

Local Abbreviation parse := (parseBoundValue convertValueUnit).

Lemma parse_keyword_end (size : num) (under over : option num) :
  parse (VStr "end") size under over = round size 0.
Proof. exact (round_scaled 100 100 size eq_refl). Qed.

Lemma parse_keyword_start (size : num) (under over : option num) :
  parse (VStr "start") size under over = Fin 0.
Proof. reflexivity. Qed.

Lemma parse_keyword_center (size : num) (under over : option num) :
  parse (VStr "center") size under over = round (size / Fin 2)%js 0.
Proof.
  change (parse (VStr "center") size under over)
    with (round (Fin (50 # 100) * size)%js 0).
  destruct size as [| | |q]; try reflexivity.
  cbn [JS.mul JS.div]. assert (Eg : sgn 2 = Gt) by reflexivity. rewrite Eg.
  apply round_Qeq. field.
Qed.

Lemma parse_keyword_max (size : num) (under over : option num) :
  parse (VStr "max") size under over
  = round (if below_zero under then plus_arg size under else size) 0.
Proof.
  change (parse (VStr "max") size under over)
    with (round (if below_zero under
                 then plus_arg (Fin (100 # 100) * size)%js under
                 else (Fin (100 # 100) * size)%js) 0).
  destruct (below_zero under) eqn:Eu.
  - destruct under as [u|]; [|discriminate Eu]. cbn [plus_arg].
    destruct size as [| | |q]; try reflexivity.
    destruct u as [| | |x]; try reflexivity.
    cbn [JS.mul JS.add]. apply round_Qeq.
    assert (E1 : 100 # 100 == 1) by reflexivity. rewrite E1. ring.
  - exact (round_scaled 100 100 size eq_refl).
Qed.

(** X13.  The keyword thresholds at every size of the axis: ["start"],
    ["top"] and ["left"] resolve to 0; ["end"], ["bottom"] and ["right"]
    to the size rounded to a whole pixel; ["center"] to half the size,
    rounded; ["min"] to 0, moved by the overflow when that is above 0;
    ["max"] to the size, moved by the underflow when that is below 0,
    then rounded. *)
Theorem keyword_thresholds_at_every_size (size : num) (under over : option num) :
  (parse (VStr "start") size under over = Fin 0
   /\ parse (VStr "top") size under over = Fin 0
   /\ parse (VStr "left") size under over = Fin 0)
  /\ (parse (VStr "end") size under over = round size 0
      /\ parse (VStr "bottom") size under over = round size 0
      /\ parse (VStr "right") size under over = round size 0)
  /\ parse (VStr "center") size under over = round (size / Fin 2)%js 0
  /\ parse (VStr "min") size under over
     = round (if above_zero over then plus_arg (Fin 0) over else Fin 0) 0
  /\ parse (VStr "max") size under over
     = round (if below_zero under then plus_arg size under else size) 0.
Proof.
  split; [split; [|split]; reflexivity|].
  split; [split; [|split]; exact (round_scaled 100 100 size eq_refl)|].
  split; [apply parse_keyword_center|].
  split; [reflexivity|apply parse_keyword_max].
Qed.

End Keywords.

(** ** The bounds of the default thresholds *)

Section DefaultBounds.

Context {L : Type} `{Linked L}.
Variable lerp : num -> num -> num -> num.
Variable interpolate : num -> num -> num -> num.
Variable convertValueUnit : num -> string -> num.

Local Abbreviation parse := (parseBoundValue convertValueUnit).

(** What [updateBounds] caches, whatever the debug overlay and the linked
    object. *)
Lemma updateBounds_caches (rect : DOMRect) (f : Frame L)
    (ec et lc ltg : ScrollThresholdValue) :
  anchors (enter (self f)) (VStr "end") (VStr "start") = (ec, et) ->
  anchors (leave (self f)) (VStr "start") (VStr "end") = (lc, ltg) ->
  let c := cont f in
  let isHori := horizontal (self f) in
  let offset' :=
    if isHori then (rect_left rect + scrollX c - left c)%js
    else (rect_top rect + scrollY c - top c)%js in
  let targetSize := if isHori then rect_width rect else rect_height rect in
  let containerSize := if isHori then width c else height c in
  let scrollSize := if isHori then scrollWidth c else scrollHeight c in
  let maxScroll := (scrollSize - containerSize)%js in
  let pet := parse et targetSize None None in
  let plt := parse ltg targetSize None None in
  let under := ((pet + offset') - containerSize)%js in
  let over := ((plt + offset') - maxScroll)%js in
  let pec := parse ec containerSize (Some under) (Some over) in
  let plc := parse lc containerSize (Some under) (Some over) in
  let start := (pet + offset' - pec)%js in
  let end_ := (plt + offset' - plc)%js in
  cached_bounds (updateBounds convertValueUnit rect f)
  = (offset', start, end_,
     (if (end_ - start <=? zero)%js then Fin 0 else (end_ - start)%js),
     [et; ltg; ec; lc], [pet; plt; pec; plc]).
Proof.
  intros Ea El. cbv zeta.
  unfold updateBounds.
  set (g0 := if _debug (self f) then removeDebug f else f).
  assert (M0 : measured_from g0 = measured_from f).
  { unfold g0. destruct (_debug (self f)); [apply measure_removeDebug|reflexivity]. }
  set (lt := match linked (self g0) with
             | Some l => Some (linked_currentTime l)
             | None => None
             end).
  clearbody lt.
  pose proof (measure_seek_linked (Fin 0) g0) as [M1 _]. rewrite M0 in M1.
  set (g1 := seek_linked (Fin 0) g0) in *. clearbody g1.
  unfold measured_from in M0, M1.
  injection M0 as Eh _ _ Esx Esy Elf Etp Ew Ehh Esw Esh.
  injection M1 as _ Een Ele _ _ _ _ _ _ _ _.
  rewrite Eh, Esx, Esy, Elf, Etp, Ew, Ehh, Esw, Esh, Een, Ele, Ea, El.
  clearbody g0.
  match goal with
  | |- context [on_self (set_bounds ?a ?b ?c ?d ?e ?k) g1] =>
      set (g2 := on_self (set_bounds a b c d e k) g1);
      assert (B2 : cached_bounds g2 = (a, b, c, d, e, k)) by reflexivity;
      clearbody g2
  end.
  set (g3 := match lt with Some t => seek_linked t g2 | None => g2 end).
  assert (B3 : cached_bounds g3 = cached_bounds g2).
  { unfold g3. destruct lt; [apply measure_seek_linked|reflexivity]. }
  clearbody g3.
  destruct (_debug (self g3)).
  - rewrite (proj2 (measure_debug g3)), B3, B2. reflexivity.
  - rewrite B3, B2. reflexivity.
Qed.

(** X14.  [refresh] with the [enter] and [leave] parameters left out
    caches the bounds of the default thresholds ['end start'] and
    ['start end']: [offsetStart] is the offset of the target in the
    scrolled content less the size of the container (the start of the
    target reaches the end of the container), [offsetEnd] is that offset
    plus the size of the target (the end of the target reaches the start
    of the container), both sizes rounded to whole pixels, along the axis
    of the parameters. *)
Theorem refresh_caches_the_default_bounds
    (params : ScrollObserverParams) (rect : DOMRect) (f : Frame L) :
  p_enter params = None ->
  p_leave params = None ->
  let f' := refresh lerp interpolate convertValueUnit params rect f in
  let c := cont f in
  let isHori := String.eqb (setValue (p_axis params) "y") "x" in
  let offset' :=
    if isHori then (rect_left rect + scrollX c - left c)%js
    else (rect_top rect + scrollY c - top c)%js in
  let targetSize := if isHori then rect_width rect else rect_height rect in
  let containerSize := if isHori then width c else height c in
  horizontal (self f') = isHori
  /\ offsetStart (self f') = (Fin 0 + offset' - round containerSize 0)%js
  /\ offsetEnd (self f') = (round targetSize 0 + offset' - Fin 0)%js
  /\ distance (self f') = cached_distance (self f').
Proof.
  intros Hen Hle. cbv zeta. unfold refresh. rewrite Hen, Hle. cbn [setValue].
  set (f0 := on_self (set_options false _ _ _ _) f).
  pose proof (updateBounds_caches rect f0 (VStr "end") (VStr "start")
                (VStr "start") (VStr "end") eq_refl eq_refl) as B.
  cbv zeta in B.
  destruct (updateBounds_effect convertValueUnit rect f0) as (D & _ & _).
  cbv zeta in D.
  pose proof (updateBounds_measure convertValueUnit rect f0) as M.
  set (f1 := updateBounds convertValueUnit rect f0) in *. clearbody f1.
  destruct (handleScroll_effect lerp interpolate f1) as (S & _ & _).
  pose proof (f_equal st_horizontal S) as Sh.
  pose proof (f_equal st_offsetStart S) as Ss.
  pose proof (f_equal st_offsetEnd S) as Se.
  pose proof (f_equal st_distance S) as Sd.
  cbn [static st_horizontal st_offsetStart st_offsetEnd st_distance] in Sh, Ss, Se, Sd.
  pose proof (f_equal (fun t => snd (fst (fst (fst (fst t))))) B) as Bs.
  pose proof (f_equal (fun t => snd (fst (fst (fst t)))) B) as Be.
  pose proof (f_equal (fun t => fst (fst (fst (fst t)))) M) as Mh.
  cbn [cached_bounds measured_from fst snd] in Bs, Be, Mh.
  rewrite !parse_keyword_end, !parse_keyword_start in Bs, Be.
  unfold cached_distance. rewrite Sh, Ss, Se, Sd, Mh, D.
  unfold cached_distance. rewrite Bs, Be.
  split; [reflexivity|]. split; [reflexivity|]. split; reflexivity.
Qed.

End DefaultBounds.

(** ** The synchronisation modes the constructor sets up *)

Lemma split_from_not_nil (sep s : string) (skip : nat) (cur : string) :
  Str.split_from sep s skip cur <> [].
Proof.
  revert skip cur. induction s as [|c rest IH]; intros skip cur; [discriminate|].
  cbn [Str.split_from]. destruct skip as [|k]; [|apply IH].
  destruct (Str.startsWith sep (String c rest)); [discriminate|apply IH].
Qed.

Section SyncModes.

Context {L : Type} `{Linked L}.
Variable parseEasings : SyncParam -> Easing.

(** X15.  Whatever the [sync] parameter is and whatever [parseEasings]
    makes of it, the observer the constructor builds has [sync] set
    exactly when it has an easing, a smoothing or sync methods; sync
    methods come without easing and without smoothing; and the plain sync
    callbacks ([onSyncEnter], [onSyncLeave]) are never set together with
    the directional ones. *)
Theorem constructor_sync_modes (parameters : ScrollObserverParams) (i : nat) :
  let o := construct (L:=L) parseEasings parameters i in
  let plain := is_some (onSyncEnter o) || is_some (onSyncLeave o) in
  let directional :=
    is_some (onSyncEnterForward o) || is_some (onSyncLeaveForward o)
    || is_some (onSyncEnterBackward o) || is_some (onSyncLeaveBackward o) in
  sync o = is_some (syncEase o) || is_some (syncSmooth o) || plain || directional
  /\ (plain || directional = true -> syncEase o = None /\ syncSmooth o = None)
  /\ plain && directional = false.
Proof.
  cbv zeta. unfold construct.
  cbn [sync syncEase syncSmooth onSyncEnter onSyncLeave onSyncEnterForward
         onSyncLeaveForward onSyncEnterBackward onSyncLeaveBackward].
  unfold sync_method, sync_fields.
  destruct (p_sync parameters) as [| |b|n|s|e].
  - (* undefined: "play pause" *)
    cbn. destruct (is_none (parseEasings (SyncStr "play pause"))); cbn;
      (split; [reflexivity|]); split; try reflexivity; try discriminate; auto.
  - cbn. split; [reflexivity|]. split; [discriminate|reflexivity].
  - destruct b; cbn; [destruct (is_none (parseEasings (SyncBool true)))|]; cbn;
      (split; [reflexivity|]); split; try reflexivity; discriminate.
  - destruct n as [| | |q]; cbn -[Qeq_bool];
      try destruct (Qeq_bool q 0); cbn;
      try match goal with
          | |- context [is_none (parseEasings ?v)] =>
              destruct (is_none (parseEasings v))
          end; cbn;
      (split; [reflexivity|]); split; try reflexivity; discriminate.
  - cbn -[String.eqb Str.split].
    pose proof (split_from_not_nil " " s 0 "") as Hne.
    fold (Str.split s " ") in Hne.
    destruct (String.eqb s ""); cbn -[String.eqb Str.split];
      [split; [reflexivity|]; split; [discriminate|reflexivity]|].
    destruct (is_none (parseEasings (SyncStr s))), (String.eqb s "linear");
      cbn -[String.eqb Str.split];
      try (split; [reflexivity|]; split; [discriminate|reflexivity]).
    destruct (Str.split s " ") as [|m0 [|m1 [|m2 [|m3 ms]]]];
      [contradiction Hne; reflexivity| | | |]; cbn;
      (split; [reflexivity|]); split; try reflexivity; auto.
  - cbn. destruct (is_none (parseEasings (SyncFn e))), (is_none e); cbn;
      (split; [reflexivity|]); split; try reflexivity; discriminate.
Qed.

End SyncModes.

(** ** Repeating observers and refresh *)

Section Repeating.

Context {L : Type} `{Linked L}.
Variable lerp : num -> num -> num -> num.
Variable interpolate : num -> num -> num -> num.
Variable convertValueUnit : num -> string -> num.

Local Abbreviation tick_of := (handleScroll lerp interpolate).

Lemma complete_block_repeating (p : num) (sc : bool) (f : Frame L) :
  repeat (self f) = true ->
  reverted (self (complete_block p sc f)) = reverted (self f)
  /\ children (cont (complete_block p sc f)) = children (cont f).
Proof.
  intros Hr. unfold complete_block.
  match goal with |- context [if ?b then _ else _] => destruct b end;
    [|split; reflexivity].
  set (f2 := on_self (set_completed true) _).
  assert (E2 : repeat (self f2) = true /\ reverted (self f2) = reverted (self f)
               /\ children (cont f2) = children (cont f)).
  { unfold f2. destruct (sync (self f)); cbn; auto. }
  clearbody f2. destruct E2 as (R2 & V2 & C2).
  rewrite R2. cbn [negb andb orb]. split; assumption.
Qed.

Lemma handleScroll_repeating (f : Frame L) :
  repeat (self f) = true ->
  reverted (self (tick_of f)) = reverted (self f)
  /\ children (cont (tick_of f)) = children (cont f).
Proof.
  intros Hr.
  destruct (handleScroll_blocks lerp interpolate f)
    as (f1 & p & hu & sc & f2 & f3 & f4 & sc' & f5 & f6
        & E1 & E2 & E3 & E4 & E5 & E6 & E7).
  destruct (handleScroll_life lerp interpolate f f1 f2 f3 f4 f5 p hu sc sc'
              E1 E2 E3 E4 E5) as (K5 & S5 & _).
  destruct (log_began_block (now_before f) (progress (self f) (cont f)) f)
    as (_ & _ & R1 & _ & Ch1).
  rewrite <- E1 in R1, Ch1.
  destruct (static_fields _ _ S5) as (_ & _ & Er5 & _).
  destruct (complete_block_repeating p sc' f5) as [R6 Ch6].
  { rewrite Er5. exact Hr. }
  rewrite <- E6 in R6, Ch6.
  unfold life in K5. injection K5 as Er _ _ Ech.
  rewrite E7, reverted_final_block, children_final_block.
  split; congruence.
Qed.

(** X16.  An observer that repeats (the default) is never detached by
    scrolling: however it is scrolled, [handleScroll] neither sets
    [reverted] nor changes the list of observers of the container,
    whatever the synchronisation, the linked object and the progress
    are. *)
Theorem repeating_observer_stays_attached
    (samples : list (num * num)) (f : Frame L) :
  repeat (self f) = true ->
  let f' := sweep lerp interpolate samples f in
  reverted (self f') = reverted (self f)
  /\ children (cont f') = children (cont f)
  /\ repeat (self f') = true.
Proof.
  cbv zeta. revert f. induction samples as [|xy samples IH]; intros f Hr.
  { cbn. auto. }
  cbn [sweep fold_left].
  fold (sweep lerp interpolate samples (sweep_step lerp interpolate f xy)).
  unfold sweep_step.
  set (f0 := on_cont (updateScrollCoords (fst xy) (snd xy)) f).
  destruct (handleScroll_repeating f0 Hr) as [R1 Ch1].
  destruct (handleScroll_effect lerp interpolate f0) as (S1 & _ & _).
  destruct (static_fields _ _ S1) as (_ & _ & Er1 & _).
  destruct (IH (tick_of f0)) as (R2 & Ch2 & Rp2).
  { rewrite Er1. exact Hr. }
  split; [rewrite R2; exact R1|]. split; [rewrite Ch2; exact Ch1|exact Rp2].
Qed.

(** What neither the debug overlay nor a seek of the linked object nor
    the measurement changes. *)
Local Abbreviation attachment :=
  (fun f : Frame L => (reverted (self f), repeat (self f), children (cont f))).

Lemma attachment_removeDebug (f : Frame L) :
  attachment (removeDebug f) = attachment f.
Proof. unfold removeDebug. split_ifs; reflexivity. Qed.

Lemma attachment_debug (f : Frame L) : attachment (debug f) = attachment f.
Proof.
  unfold debug. pose proof (attachment_removeDebug f) as A.
  set (f1 := removeDebug f) in *. clearbody f1.
  match goal with |- context [if ?b then _ else _] => destruct b end;
    rewrite <- A; reflexivity.
Qed.

Lemma attachment_seek_linked (time : num) (f : Frame L) :
  attachment (seek_linked time f) = attachment f.
Proof. unfold seek_linked. destruct (linked (self f)); reflexivity. Qed.

Lemma attachment_updateBounds (rect : DOMRect) (f : Frame L) :
  attachment (updateBounds convertValueUnit rect f) = attachment f.
Proof.
  unfold updateBounds.
  set (f0 := if _debug (self f) then removeDebug f else f).
  assert (M0 : attachment f0 = attachment f).
  { unfold f0. destruct (_debug (self f)); [apply attachment_removeDebug|reflexivity]. }
  set (lt := match linked (self f0) with
             | Some l => Some (linked_currentTime l)
             | None => None
             end).
  clearbody lt.
  set (c0 := cont f0). set (h0 := horizontal (self f0)).
  clearbody c0 h0.
  pose proof (attachment_seek_linked (Fin 0) f0) as M1.
  set (f1 := seek_linked (Fin 0) f0) in *. clearbody f1. clearbody f0.
  destruct (anchors (enter (self f1)) (VStr "end") (VStr "start")) as [ec et].
  destruct (anchors (leave (self f1)) (VStr "start") (VStr "end")) as [lc ltg].
  match goal with
  | |- context [on_self (set_bounds ?a ?b ?c ?d ?e ?g) f1] =>
      set (f2 := on_self (set_bounds a b c d e g) f1);
      assert (M2 : attachment f2 = attachment f1) by reflexivity;
      clearbody f2
  end.
  set (f3 := match lt with Some t => seek_linked t f2 | None => f2 end).
  assert (M3 : attachment f3 = attachment f2).
  { unfold f3. destruct lt; [apply attachment_seek_linked|reflexivity]. }
  clearbody f3.
  destruct (_debug (self f3)).
  - rewrite attachment_debug. congruence.
  - congruence.
Qed.

(** X17.  [refresh] clears [reverted] and attaches nothing: with
    [repeat] on (the default), the observer comes out of [refresh] with
    [reverted] false and the list of observers of its container exactly
    as it was.  So an observer that [revert] has detached is not back in
    the list of its container after [refresh], although it no longer
    counts as reverted. *)
Theorem refresh_clears_reverted_and_attaches_nothing
    (params : ScrollObserverParams) (rect : DOMRect) (f : Frame L) :
  setValue (p_repeat params) true = true ->
  let f' := refresh lerp interpolate convertValueUnit params rect f in
  reverted (self f') = false
  /\ repeat (self f') = true
  /\ children (cont f') = children (cont f).
Proof.
  intros Hr. cbv zeta. unfold refresh. rewrite Hr.
  set (f0 := on_self (set_options false true _ _ _) f).
  pose proof (attachment_updateBounds rect f0) as A.
  set (f1 := updateBounds convertValueUnit rect f0) in *. clearbody f1.
  injection A as Ar Ap Ac.
  destruct (handleScroll_repeating f1 Ap) as [R2 C2].
  destruct (handleScroll_effect lerp interpolate f1) as (S2 & _ & _).
  destruct (static_fields _ _ S2) as (_ & _ & Er2 & _).
  rewrite R2, C2, Er2, Ar, Ap, Ac. split; [reflexivity|]. split; reflexivity.
Qed.

End Repeating.

(** ** The container: direction and velocity *)

Lemma truthy_difference (p n : Q) : truthy (Fin p - Fin n)%js = negb (Qeq_bool p n).
Proof.
  cbn [JS.sub truthy]. f_equal.
  destruct (Qeq_bool p n) eqn:E.
  - apply Qeq_bool_iff in E. apply Qeq_bool_iff. rewrite E. ring.
  - destruct (Qeq_bool (p - n) 0) eqn:E'; [|reflexivity].
    apply Qeq_bool_iff in E'.
    assert (Hpn : p == n) by lra.
    apply Qeq_bool_iff in Hpn. congruence.
Qed.

Section Sampling.

Variable Math_sqrt : num -> num.

Local Abbreviation sample := (dataTimer_onUpdate Math_sqrt).

(** X18.  One sample of [dataTimer] at finite scroll offsets: a
    direction flag is set when the offset of its axis is below the one of
    the previous sample, cleared when it is above, and kept when the
    offset has not moved; the offsets sampled become the previous ones.
    A second sample that finds the offsets unmoved keeps both flags, and,
    [Math.sqrt] being 0 at 0, sets the velocity to 0 whatever the time
    between the samples. *)
Theorem dataTimer_samples_direction_and_rest
    (dt dt' : num) (px py nx ny : Q) (c : ScrollContainer) :
  scrollX c = Fin nx ->
  scrollY c = Fin ny ->
  (forall q, q == 0 -> Math_sqrt (Fin q) = Fin 0) ->
  let first := sample dt (Fin px, Fin py) c in
  let c1 := snd first in
  let second := sample dt' (fst first) c1 in
  backwardX c1 = (if Qeq_bool px nx then backwardX c else Qltb nx px)
  /\ backwardY c1 = (if Qeq_bool py ny then backwardY c else Qltb ny py)
  /\ fst first = (Fin nx, Fin ny)
  /\ backwardX (snd second) = backwardX c1
  /\ backwardY (snd second) = backwardY c1
  /\ velocity (snd second) = Fin 0
  /\ fst second = fst first.
Proof.
  intros Hx Hy Hsqrt. cbv zeta. unfold dataTimer_onUpdate.
  cbn [fst snd scrollX scrollY backwardX backwardY velocity].
  rewrite Hx, Hy, !truthy_difference.
  assert (Rx : Qeq_bool nx nx = true) by (apply Qeq_bool_iff; reflexivity).
  assert (Ry : Qeq_bool ny ny = true) by (apply Qeq_bool_iff; reflexivity).
  rewrite Rx, Ry. cbn [negb].
  split; [destruct (Qeq_bool px nx); reflexivity|].
  split; [destruct (Qeq_bool py ny); reflexivity|].
  split; [reflexivity|]. split; [reflexivity|]. split; [reflexivity|].
  split; [|reflexivity].
  cbn [JS.sub JS.mul JS.add].
  rewrite Hsqrt by ring.
  destruct (dt' >? zero)%js eqn:Edt; [|apply round_zero].
  destruct dt' as [| | |d]; try discriminate Edt.
  - cbn [JS.div]. apply round_zero.
  - unfold JS.gt, JS.lt, zero in Edt. apply Qltb_true in Edt.
    cbn [JS.div]. rewrite (proj2 (sgn_Gt d) Edt).
    rewrite (round_Qeq (0 / d) 0); [apply round_zero|].
    unfold Qdiv. ring.
Qed.

End Sampling.

(** ** The registry of containers *)

Section RegistryProperties.

Variable TargetsParam : Type.
Variable doc_body : nat.
Variable parseTargets : TargetsParam -> list nat.
Variable ScrollContainer_new : nat -> ScrollContainer.

Local Abbreviation element_of := (container_element TargetsParam doc_body parseTargets).
Local Abbreviation register :=
  (registerAndGetScrollContainer TargetsParam doc_body parseTargets ScrollContainer_new).

(** X19.  [registerAndGetScrollContainer] gets or creates: the
    container it returns is the one registered for the element
    afterwards; a container already registered for the element is
    returned as it is and the registry is unchanged; otherwise a new
    container is made for the element and registered; no other element
    is touched; a second call for the same target returns the same
    container and registers nothing.  A target that is missing or
    resolves to no element stands for [doc.body].  Once
    [ScrollContainer.revert] has deleted the entry, the element has no
    container, and the next call makes a new one. *)
Theorem registerAndGetScrollContainer_gets_or_creates
    (target : option TargetsParam) (scrollContainers : gmap nat ScrollContainer) :
  let el := element_of target in
  let r := register target scrollContainers in
  snd r !! el = Some (fst r)
  /\ (forall c, scrollContainers !! el = Some c -> r = (c, scrollContainers))
  /\ (scrollContainers !! el = None ->
      r = (ScrollContainer_new el, <[el := ScrollContainer_new el]> scrollContainers))
  /\ (forall e, e <> el -> snd r !! e = scrollContainers !! e)
  /\ register target (snd r) = r
  /\ (target = None \/ (exists t, target = Some t /\ parseTargets t = []) ->
      el = doc_body)
  /\ unregister el (snd r) !! el = None
  /\ register target (unregister el (snd r))
     = (ScrollContainer_new el,
        <[el := ScrollContainer_new el]> (unregister el (snd r))).
Proof.
  cbv zeta. unfold registerAndGetScrollContainer, unregister.
  set (el := element_of target).
  destruct (scrollContainers !! el) as [c|] eqn:E; cbn [fst snd].
  - split; [exact E|]. split; [intros c0 E0; congruence|].
    split; [discriminate|]. split; [reflexivity|].
    split; [rewrite E; reflexivity|].
    split.
    { intros [->|(t & -> & Ht)]; [reflexivity|].
      unfold el, container_element. rewrite Ht. reflexivity. }
    split; [apply lookup_delete_eq|].
    rewrite lookup_delete_eq. reflexivity.
  - split; [apply lookup_insert_eq|]. split; [discriminate|].
    split; [reflexivity|].
    split; [intros e He; apply lookup_insert_ne; congruence|].
    split; [rewrite lookup_insert_eq; reflexivity|].
    split.
    { intros [->|(t & -> & Ht)]; [reflexivity|].
      unfold el, container_element. rewrite Ht. reflexivity. }
    split; [apply lookup_delete_eq|].
    rewrite lookup_delete_eq. reflexivity.
Qed.

End RegistryProperties.

(** ** The target a linked object provides *)

Section LinkedTargetProperties.

Variable Target : Type.
Variable isDom : Target -> bool.

Local Abbreviation first_dom := (getAnimationDomTarget Target isDom).

Lemma getAnimationDomTarget_app (l1 l2 : list Target) :
  first_dom (l1 ++ l2)
  = match first_dom l1 with Some t => Some t | None => first_dom l2 end.
Proof.
  induction l1 as [|x l1 IH]; [reflexivity|].
  cbn. destruct (isDom x); [reflexivity|exact IH].
Qed.

Lemma getAnimationDomTarget_first (l : list Target) :
  match first_dom l with
  | Some t =>
      exists before after,
        l = before ++ t :: after /\ isDom t = true
        /\ Forall (fun x => isDom x = false) before
  | None => Forall (fun x => isDom x = false) l
  end.
Proof.
  induction l as [|x l IH]; [constructor|].
  cbn. destruct (isDom x) eqn:E.
  - exists [], l. split; [reflexivity|]. split; [exact E|constructor].
  - destruct (first_dom l) as [t|].
    + destruct IH as (before & after & -> & Ht & Hb).
      exists (x :: before), after.
      split; [reflexivity|]. split; [exact Ht|]. constructor; assumption.
    + constructor; assumption.
Qed.

Lemma timeline_fold_found (children : list (option (list Target))) (t : Target) :
  fold_left
    (fun found child =>
       match child, found with
       | Some targets, None => first_dom targets
       | _, _ => found
       end)
    children (Some t) = Some t.
Proof.
  induction children as [|child children IH]; [reflexivity|].
  cbn [fold_left]. destruct child; exact IH.
Qed.

(** X20.  The target [link] takes from the linked object is the first
    DOM target among all its targets, those of an animation in their
    order, those of a timeline child after child: a target that is a DOM
    element and has no DOM element before it.  There is none exactly when
    no target is a DOM element, and [link] then falls back on
    [doc.body]. *)
Theorem link_takes_the_first_dom_target
    (doc_body : Target) (linked' : LinkedTargets Target) :
  linkedTarget Target isDom linked'
  = first_dom (targets_in_order Target linked')
  /\ match linkedTarget Target isDom linked' with
     | Some t =>
         link_target Target isDom doc_body linked' = t
         /\ exists before after,
              targets_in_order Target linked' = before ++ t :: after
              /\ isDom t = true
              /\ Forall (fun x => isDom x = false) before
     | None =>
         link_target Target isDom doc_body linked' = doc_body
         /\ Forall (fun x => isDom x = false) (targets_in_order Target linked')
     end.
Proof.
  assert (E : linkedTarget Target isDom linked'
              = first_dom (targets_in_order Target linked')).
  { destruct linked' as [targets|children]; [reflexivity|].
    cbn [linkedTarget targets_in_order].
    induction children as [|child children IH]; [reflexivity|].
    cbn [fold_left List.map List.concat].
    rewrite getAnimationDomTarget_app.
    destruct child as [targets|]; cbn [getAnimationDomTarget].
    - destruct (first_dom targets) as [t|]; [apply timeline_fold_found|exact IH].
    - exact IH. }
  split; [exact E|].
  unfold link_target. rewrite E.
  pose proof (getAnimationDomTarget_first (targets_in_order Target linked')) as S.
  destruct (first_dom (targets_in_order Target linked')) as [t|];
    (split; [reflexivity|exact S]).
Qed.

End LinkedTargetProperties.

(** ** The indices of the observers *)

Section Indices.

Context {L : Type} `{Linked L}.
Variable lerp : num -> num -> num -> num.
Variable interpolate : num -> num -> num -> num.
Variable parseEasings : SyncParam -> Easing.

Local Abbreviation tick_of := (handleScroll lerp interpolate).
Local Abbreviation without := (fun i : nat => List.filter (fun j => negb (Nat.eqb j i))).

Lemma children_revert_exact (f : Frame L) :
  children (cont (revert f))
  = if reverted (self f) then children (cont f)
    else without (index (self f)) (children (cont f)).
Proof.
  unfold revert. destruct (reverted (self f)); [reflexivity|].
  set (f1 := on_cont (removeChild (index (self f))) f).
  set (f2 := if no_children (cont f1) then container_revert f1 else f1).
  assert (E2 : children (cont f2) = children (cont f1))
    by (unfold f2; destruct (no_children (cont f1)); reflexivity).
  set (f3 := if _debug (self f2) then removeDebug f2 else f2).
  assert (E3 : cont f3 = cont f2).
  { unfold f3. destruct (_debug (self f2)); [apply cont_removeDebug|reflexivity]. }
  clearbody f3 f2. cbn [cont on_self]. rewrite E3, E2. reflexivity.
Qed.

Lemma children_complete_block_exact (p : num) (sc : bool) (f : Frame L) :
  children (cont (complete_block p sc f)) = children (cont f)
  \/ children (cont (complete_block p sc f))
     = without (index (self f)) (children (cont f)).
Proof.
  unfold complete_block.
  match goal with |- context [if ?b then _ else _] => destruct b end;
    [|left; reflexivity].
  set (f2 := on_self (set_completed true) _).
  assert (E2 : children (cont f2) = children (cont f) /\ index (self f2) = index (self f))
    by (unfold f2; destruct (sync (self f)); split; reflexivity).
  clearbody f2. destruct E2 as [E2 I2].
  match goal with |- context [if ?b then revert _ else _] => destruct b end;
    [|left; exact E2].
  rewrite children_revert_exact, I2, E2.
  destruct (reverted (self f2)); [left|right]; reflexivity.
Qed.

(** [handleScroll] leaves the list of the container as it is or splices
    the observer out of it. *)
Lemma handleScroll_children_exact (f : Frame L) :
  children (cont (tick_of f)) = children (cont f)
  \/ children (cont (tick_of f)) = without (index (self f)) (children (cont f)).
Proof.
  destruct (handleScroll_blocks lerp interpolate f)
    as (f1 & p & hu & sc & f2 & f3 & f4 & sc' & f5 & f6
        & E1 & E2 & E3 & E4 & E5 & E6 & E7).
  destruct (handleScroll_life lerp interpolate f f1 f2 f3 f4 f5 p hu sc sc'
              E1 E2 E3 E4 E5) as (K5 & S5 & _).
  destruct (log_began_block (now_before f) (progress (self f) (cont f)) f)
    as (_ & _ & _ & _ & Ch1).
  rewrite <- E1 in Ch1.
  destruct (static_fields _ _ S5) as (_ & _ & _ & I5).
  unfold life in K5. injection K5 as _ _ _ Ech.
  rewrite E7, children_final_block, E6.
  destruct (children_complete_block_exact p sc' f5) as [E|E];
    rewrite E, ?I5, Ech, Ch1; [left|right]; reflexivity.
Qed.

Lemma well_indexed_run (i : nat) (w : World L) :
  well_indexed w -> well_indexed (run i tick_of w).
Proof.
  intros (Hstore & Hchildren & Hnodup). unfold run.
  destruct (observers w !! i) as [o|] eqn:Eo;
    [|exact (conj Hstore (conj Hchildren Hnodup))].
  set (f := {| self := o; cont := container w; log := [] |}).
  destruct (handleScroll_effect lerp interpolate f) as (S & _ & _).
  pose proof (f_equal st_index S) as Ei. cbn in Ei.
  pose proof (handleScroll_children lerp interpolate f) as Hincl.
  pose proof (handleScroll_children_exact f) as Hexact.
  set (f' := tick_of f) in *. clearbody f'.
  destruct (Hstore i o Eo) as [Hio Hlt].
  split; [|split]; cbn [observers container scrollerIndex].
  - intros j o' Hj. destruct (Nat.eq_dec j i) as [->|Hne].
    + rewrite lookup_insert_eq in Hj. injection Hj as <-.
      split; [congruence|exact Hlt].
    + rewrite lookup_insert_ne in Hj by congruence. apply Hstore, Hj.
  - intros j Hj. apply Hincl in Hj. cbn in Hj.
    destruct (Nat.eq_dec j i) as [->|Hne].
    + rewrite lookup_insert_eq. eexists. reflexivity.
    + rewrite lookup_insert_ne by congruence. apply Hchildren, Hj.
  - cbn in Hexact. destruct Hexact as [E|E]; rewrite E;
      [exact Hnodup|apply List.NoDup_filter, Hnodup].
Qed.

Lemma well_indexed_visits (order : list nat) (w : World L) :
  well_indexed w ->
  well_indexed (fold_left (fun w i => run i tick_of w) order w).
Proof.
  revert w. induction order as [|i order IH]; intros w Hw; [exact Hw|].
  cbn [fold_left]. apply IH, well_indexed_run, Hw.
Qed.

(** X21.  The indices of the observers stay in order.  In a world where
    every observer is stored under its own index, below [scrollerIndex],
    and the list of the container holds stored observers without
    repetition, the same holds after [new ScrollObserver] and after a
    scroll event followed by a frame of the container; and the index the
    next observer takes belongs to no observer, attached or detached. *)
Theorem observer_indices_stay_unique
    (parameters : ScrollObserverParams) (xy : num * num) (w : World L) :
  well_indexed w ->
  well_indexed (ScrollObserver_new parseEasings parameters w)
  /\ well_indexed (scroll_tick lerp interpolate xy w)
  /\ observers w !! scrollerIndex w = None
  /\ ~ In (scrollerIndex w) (children (container w)).
Proof.
  intros Hw. pose proof Hw as (Hstore & Hchildren & Hnodup).
  assert (Hfresh : observers w !! scrollerIndex w = None).
  { destruct (observers w !! scrollerIndex w) as [o|] eqn:E; [|reflexivity].
    destruct (Hstore _ _ E) as [_ Hlt]. lia. }
  assert (Hout : ~ In (scrollerIndex w) (children (container w))).
  { intros Hin. destruct (Hchildren _ Hin) as [o E]. congruence. }
  split; [|split; [|split; assumption]].
  - unfold ScrollObserver_new.
    split; [|split]; cbn [observers container scrollerIndex].
    + intros j o Hj. destruct (Nat.eq_dec j (scrollerIndex w)) as [->|Hne].
      * rewrite lookup_insert_eq in Hj. injection Hj as <-.
        split; [reflexivity|lia].
      * rewrite lookup_insert_ne in Hj by congruence.
        destruct (Hstore _ _ Hj) as [A B]. split; [exact A|lia].
    + intros j Hj. cbn in Hj. apply in_app_or in Hj.
      destruct (Nat.eq_dec j (scrollerIndex w)) as [->|Hne].
      * rewrite lookup_insert_eq. eexists. reflexivity.
      * rewrite lookup_insert_ne by congruence.
        destruct Hj as [Hj|[Hj|[]]]; [apply Hchildren, Hj|congruence].
    + cbn. apply List.NoDup_app; [exact Hnodup|constructor; [intros []|constructor]|].
      intros x Hx [<-|[]]. exact (Hout Hx).
  - unfold scroll_tick, tick, forEachChildren.
    apply well_indexed_visits.
    split; [|split]; assumption.
Qed.

End Indices.

(** ** A pass through the view, in the world of the container *)

Lemma events_of_self (i : nat) (l : list Event) :
  events_of i (List.map (pair i) l) = List.map (pair i) l.
Proof.
  unfold events_of. induction l as [|e l IH]; [reflexivity|].
  cbn. rewrite Nat.eqb_refl. f_equal. exact IH.
Qed.

Lemma calls_of_app (i : nat) (tr tr' : list (nat * Event)) :
  calls_of i (tr ++ tr') = calls_of i tr ++ calls_of i tr'.
Proof.
  unfold calls_of, calls, events_of.
  rewrite List.filter_app, List.map_app, List.filter_app. reflexivity.
Qed.

Lemma calls_of_self (i : nat) (l : list Event) :
  calls_of i (List.map (pair i) l) = calls l.
Proof.
  unfold calls_of. rewrite events_of_self, List.map_map. cbn [snd].
  rewrite List.map_id. reflexivity.
Qed.

Lemma calls_of_other (i j : nat) (l : list Event) :
  j <> i -> calls_of i (List.map (pair j) l) = [].
Proof.
  intros Hne. unfold calls_of. rewrite events_of_other by exact Hne. reflexivity.
Qed.

Section WorldPasses.

Context {L : Type} `{Linked L}.
Variable lerp : num -> num -> num -> num.
Variable interpolate : num -> num -> num -> num.

Local Abbreviation tick_of := (handleScroll lerp interpolate).

(** What an observer reads of its container: the scroll offsets and the
    direction flags. *)
Local Abbreviation sampled :=
  (fun c : ScrollContainer => (scrollX c, scrollY c, backwardX c, backwardY c)).

(** What no call of [handleScroll] changes of the observer, as far as a
    pass goes. *)
Local Abbreviation fixed :=
  (fun o : ScrollObserver L => (repeat o, horizontal o, offsetStart o, offsetEnd o)).

Lemma sampled_scroll (o : ScrollObserver L) (c c' : ScrollContainer) :
  sampled c' = sampled c ->
  scroll o c' = scroll o c /\ backward o c' = backward o c.
Proof.
  intros E. unfold scroll, backward.
  pose proof (f_equal (fun t => fst (fst (fst t))) E) as E1.
  pose proof (f_equal (fun t => snd (fst (fst t))) E) as E2.
  pose proof (f_equal (fun t => snd (fst t)) E) as E3.
  pose proof (f_equal (fun t => snd t) E) as E4.
  cbn in E1, E2, E3, E4. rewrite E1, E2, E3, E4. split; reflexivity.
Qed.

Lemma sampled_handleScroll (f : Frame L) :
  sampled (cont (tick_of f)) = sampled (cont f).
Proof.
  destruct (handleScroll_effect lerp interpolate f) as (S & _ & _).
  pose proof (f_equal st_scrollX S) as E1.
  pose proof (f_equal st_scrollY S) as E2.
  pose proof (f_equal st_backwardX S) as E3.
  pose proof (f_equal st_backwardY S) as E4.
  cbn in E1, E2, E3, E4. rewrite E1, E2, E3, E4. reflexivity.
Qed.

(** The call of [handleScroll] the container makes on a repeating
    observer that is attached: one step of its view state machine, at the
    scroll position of the container. *)
Lemma visit_self (i : nat) (o : ScrollObserver L) (w : World L) :
  well_indexed w ->
  observers w !! i = Some o ->
  In i (children (container w)) ->
  repeat o = true ->
  let s := scroll o (container w) in
  let iv := inside (offsetStart o) (offsetEnd o) s in
  let edge := on_edge (offsetStart o) (offsetEnd o) s in
  let w1 := run i tick_of w in
  well_indexed w1
  /\ sampled (container w1) = sampled (container w)
  /\ In i (children (container w1))
  /\ calls_of i (trace w1)
     = calls_of i (trace w) ++ step_calls (backward o (container w)) iv edge (view_of o)
  /\ exists o1, observers w1 !! i = Some o1
                /\ view_of o1 = view_step iv edge (view_of o)
                /\ fixed o1 = fixed o.
Proof.
  intros Hw Ho Hin Hr. cbv zeta.
  pose proof (well_indexed_run lerp interpolate i w Hw) as Hw1.
  unfold run in *. rewrite Ho in *.
  set (f := {| self := o; cont := container w; log := [] |}) in *.
  destruct (handleScroll_effect lerp interpolate f) as (S & V & C).
  destruct (handleScroll_repeating lerp interpolate f Hr) as [_ Ch].
  pose proof (sampled_handleScroll f) as Hs.
  cbn [container trace observers].
  split; [exact Hw1|]. split; [exact Hs|].
  split; [rewrite Ch; exact Hin|].
  split.
  - rewrite calls_of_app, calls_of_self, C. reflexivity.
  - exists (self (tick_of f)). split; [apply lookup_insert_eq|].
    split; [exact V|].
    pose proof (f_equal st_repeat S) as E1.
    pose proof (f_equal st_horizontal S) as E2.
    pose proof (f_equal st_offsetStart S) as E3.
    pose proof (f_equal st_offsetEnd S) as E4.
    cbn in E1, E2, E3, E4. rewrite E1, E2, E3, E4. reflexivity.
Qed.

(** The call of [handleScroll] on another observer leaves observer [i]
    as it is, stored and attached, and the scroll state of the container
    too. *)
Lemma visit_other_keeps (i j : nat) (w : World L) :
  j <> i ->
  well_indexed w ->
  In i (children (container w)) ->
  let w1 := run j tick_of w in
  well_indexed w1
  /\ sampled (container w1) = sampled (container w)
  /\ In i (children (container w1))
  /\ calls_of i (trace w1) = calls_of i (trace w)
  /\ observers w1 !! i = observers w !! i.
Proof.
  intros Hne Hw Hin. cbv zeta.
  pose proof (well_indexed_run lerp interpolate j w Hw) as Hw1.
  destruct Hw as (Hstore & _ & _).
  unfold run in *.
  destruct (observers w !! j) as [oj|] eqn:Eo.
  2:{ split; [exact Hw1|]. split; [reflexivity|]. split; [exact Hin|].
      split; reflexivity. }
  destruct (Hstore j oj Eo) as [Hj _].
  set (f := {| self := oj; cont := container w; log := [] |}) in *.
  pose proof (sampled_handleScroll f) as Hs.
  pose proof (handleScroll_children_exact lerp interpolate f) as Hc.
  cbn [container trace observers].
  split; [exact Hw1|]. split; [exact Hs|].
  split; [|split].
  - destruct Hc as [E|E]; rewrite E; [exact Hin|].
    apply List.filter_In. split; [exact Hin|].
    cbn [self f]. rewrite Hj.
    destruct (Nat.eqb_spec i j) as [->|_]; [contradiction|reflexivity].
  - rewrite calls_of_app, calls_of_other by exact Hne. apply app_nil_r.
  - apply lookup_insert_ne. exact Hne.
Qed.

Lemma visits_others_keep (i : nat) (order : list nat) (w : World L) :
  ~ In i order ->
  well_indexed w ->
  In i (children (container w)) ->
  let w1 := fold_left (fun w j => run j tick_of w) order w in
  well_indexed w1
  /\ sampled (container w1) = sampled (container w)
  /\ In i (children (container w1))
  /\ calls_of i (trace w1) = calls_of i (trace w)
  /\ observers w1 !! i = observers w !! i.
Proof.
  cbv zeta. revert w. induction order as [|j order IH]; intros w Hno Hw Hin.
  { cbn. split; [exact Hw|]. split; [reflexivity|]. split; [exact Hin|].
    split; reflexivity. }
  cbn [fold_left].
  assert (Hne : j <> i) by (intros ->; apply Hno; left; reflexivity).
  destruct (visit_other_keeps i j w Hne Hw Hin) as (W1 & S1 & I1 & C1 & O1).
  destruct (IH (run j tick_of w)) as (W2 & S2 & I2 & C2 & O2);
    [intros Hi; apply Hno; right; exact Hi|exact W1|exact I1|].
  split; [exact W2|]. split; [rewrite S2; exact S1|]. split; [exact I2|].
  split; [rewrite C2; exact C1|rewrite O2; exact O1].
Qed.

(** One frame of the container: whatever other observers it holds, a
    repeating observer that is attached is visited once. *)
Lemma tick_pass (i : nat) (o : ScrollObserver L) (w : World L) :
  well_indexed w ->
  observers w !! i = Some o ->
  In i (children (container w)) ->
  repeat o = true ->
  let s := scroll o (container w) in
  let iv := inside (offsetStart o) (offsetEnd o) s in
  let edge := on_edge (offsetStart o) (offsetEnd o) s in
  let w1 := tick lerp interpolate w in
  well_indexed w1
  /\ sampled (container w1) = sampled (container w)
  /\ In i (children (container w1))
  /\ calls_of i (trace w1)
     = calls_of i (trace w) ++ step_calls (backward o (container w)) iv edge (view_of o)
  /\ exists o1, observers w1 !! i = Some o1
                /\ view_of o1 = view_step iv edge (view_of o)
                /\ fixed o1 = fixed o.
Proof.
  intros Hw Ho Hin Hr. cbv zeta. unfold tick, forEachChildren.
  set (order := if backwardX (container w) || backwardY (container w)
                then rev (children (container w)) else children (container w)).
  assert (Hio : In i order).
  { unfold order. destruct (backwardX (container w) || backwardY (container w));
      [apply List.in_rev; rewrite List.rev_involutive|]; exact Hin. }
  assert (Hnd : List.NoDup order).
  { destruct Hw as (_ & _ & Hnd). unfold order.
    destruct (backwardX (container w) || backwardY (container w));
      [apply List.NoDup_rev|]; exact Hnd. }
  clearbody order.
  destruct (List.in_split i order Hio) as (l1 & l2 & ->).
  pose proof (List.NoDup_remove_2 l1 l2 i Hnd) as Hout.
  assert (H1 : ~ In i l1) by (intros Hi; apply Hout, List.in_or_app; left; exact Hi).
  assert (H2 : ~ In i l2) by (intros Hi; apply Hout, List.in_or_app; right; exact Hi).
  rewrite List.fold_left_app. cbn [fold_left].
  destruct (visits_others_keep i l1 w H1 Hw Hin) as (Wa & Sa & Ia & Ca & Oa).
  set (wa := fold_left (fun w j => run j tick_of w) l1 w) in *. clearbody wa.
  rewrite Ho in Oa.
  destruct (sampled_scroll o _ _ Sa) as [Es Eb].
  destruct (visit_self i o wa Wa Oa Ia Hr) as (Wb & Sb & Ib & Cb & o1 & Ob & Vb & Fb).
  rewrite Es, Eb, Ca in *.
  set (wb := run i tick_of wa) in *. clearbody wb.
  destruct (visits_others_keep i l2 wb H2 Wb Ib) as (Wc & Sc & Ic & Cc & Oc).
  split; [exact Wc|]. split; [rewrite Sc, Sb; exact Sa|]. split; [exact Ic|].
  split; [rewrite Cc; exact Cb|].
  exists o1. split; [rewrite Oc; exact Ob|]. split; [exact Vb|exact Fb].
Qed.

Lemma well_indexed_scrolled (x y : num) (w : World L) :
  well_indexed w ->
  well_indexed {| container := updateScrollCoords x y (container w);
                  observers := observers w;
                  trace := trace w;
                  scrollerIndex := scrollerIndex w |}.
Proof. intros Hw. exact Hw. Qed.

(** The frames of the container over the samples of a pass run the view
    state machine of the observer over the positions. *)
Lemma scroll_ticks_run_pass (i : nat) (samples : list (num * num)) :
  forall (w : World L) (o : ScrollObserver L) v cs,
    well_indexed w ->
    observers w !! i = Some o ->
    In i (children (container w)) ->
    repeat o = true ->
    run_pass (backward o (container w)) (offsetStart o) (offsetEnd o)
      (List.map (position o) samples) (view_of o) = (v, cs) ->
    let w' := scroll_ticks lerp interpolate samples w in
    well_indexed w'
    /\ In i (children (container w'))
    /\ calls_of i (trace w') = calls_of i (trace w) ++ cs
    /\ exists o', observers w' !! i = Some o'
                  /\ view_of o' = v
                  /\ fixed o' = fixed o
                  /\ backward o' (container w') = backward o (container w).
Proof.
  induction samples as [|xy samples IH]; intros w o v cs Hw Ho Hin Hr Hrun; cbv zeta.
  - cbn in Hrun. injection Hrun as <- <-. cbn.
    split; [exact Hw|]. split; [exact Hin|]. split; [symmetry; apply app_nil_r|].
    exists o. split; [exact Ho|]. split; [reflexivity|]. split; reflexivity.
  - cbn [List.map run_pass] in Hrun. cbv zeta in Hrun.
    set (w0 := {| container := updateScrollCoords (fst xy) (snd xy) (container w);
                  observers := observers w; trace := trace w;
                  scrollerIndex := scrollerIndex w |}).
    change (scroll_ticks lerp interpolate (xy :: samples) w)
      with (scroll_ticks lerp interpolate samples (tick lerp interpolate w0)).
    assert (Es : scroll o (container w0) = position o xy).
    { unfold position, scroll, w0. cbn. destruct (horizontal o); reflexivity. }
    assert (Eb : backward o (container w0) = backward o (container w)) by reflexivity.
    destruct (tick_pass i o w0 (well_indexed_scrolled _ _ w Hw) Ho Hin Hr)
      as (W1 & S1 & I1 & C1 & o1 & O1 & V1 & F1).
    rewrite Es in C1, V1. rewrite Eb in C1. change (trace w0) with (trace w) in C1.
    set (w1 := tick lerp interpolate w0) in *. clearbody w1.
    set (s := position o xy) in *.
    destruct (run_pass (backward o (container w)) (offsetStart o) (offsetEnd o)
                (List.map (position o) samples)
                (view_step (inside (offsetStart o) (offsetEnd o) s)
                   (on_edge (offsetStart o) (offsetEnd o) s) (view_of o)))
      as [v' cs'] eqn:Erest.
    injection Hrun as <- <-.
    pose proof (f_equal (fun t => fst (fst (fst t))) F1) as Fr.
    pose proof (f_equal (fun t => snd (fst (fst t))) F1) as Fh.
    pose proof (f_equal (fun t => snd (fst t)) F1) as Fs.
    pose proof (f_equal (fun t => snd t) F1) as Fe.
    cbn in Fr, Fh, Fs, Fe.
    assert (Eb1 : backward o1 (container w1) = backward o (container w)).
    { destruct (sampled_scroll o _ _ S1) as [_ B]. rewrite <- Eb, <- B.
      unfold backward. rewrite Fh. reflexivity. }
    assert (Emap : List.map (position o1) samples = List.map (position o) samples).
    { apply List.map_ext. intros a. unfold position. rewrite Fh. reflexivity. }
    destruct (IH w1 o1 v' cs' W1 O1 I1) as (W2 & I2 & C2 & o2 & O2 & V2 & F2 & B2).
    { rewrite Fr. exact Hr. }
    { rewrite Eb1, Fs, Fe, Emap, V1. exact Erest. }
    split; [exact W2|]. split; [exact I2|].
    split; [rewrite C2, C1, app_assoc; reflexivity|].
    exists o2. split; [exact O2|]. split; [exact V2|].
    split; [rewrite F2; exact F1|rewrite B2; exact Eb1].
Qed.

(** X11.  A pass through the view in either direction, as the container
    runs it.  Take a world in which the indices are in order, and in it
    an observer that repeats ([repeat] true, the default), is attached to
    the container, and is fresh or has entered and left the view
    ([isInView] false, [hasEntered] true, [forceEnter] false); the
    container may hold any other observers.  Take a pass of scroll
    positions in the direction of the container (never back when it moves
    forward, never forth when it moves backward) that has a position
    strictly between the bounds of the observer and ends at or past the
    far bound.  Over the scroll events of the pass, each followed by a
    frame of the container, the enter callbacks of the observer are
    called once and then its leave callbacks once, in the variant of that
    direction, and nothing else of the two groups.  Afterwards the
    observer is still attached and still repeats, it has entered and is
    out of view, its bounds and the direction are as before and the
    indices are in order.  The model has no sampling of the direction
    between the frames of a pass: the flags stay as they are. *)
Theorem pass_through_the_view_enters_and_leaves_once
    (w : World L) (i : nat) (o : ScrollObserver L) (samples : list (num * num)) :
  let positions := List.map (position o) samples in
  let b := backward o (container w) in
  let w' := scroll_ticks lerp interpolate samples w in
  well_indexed w ->
  observers w !! i = Some o ->
  In i (children (container w)) ->
  repeat o = true ->
  view_of o = fresh \/ view_of o = gone ->
  Sorted (pass_order b) positions ->
  Exists (fun s => inside (offsetStart o) (offsetEnd o) s = true) positions ->
  beyond b (offsetStart o) (offsetEnd o) (List.last positions NaN) = true ->
  calls_of i (trace w') = calls_of i (trace w) ++ enter_list b ++ leave_list b
  /\ well_indexed w'
  /\ In i (children (container w'))
  /\ exists o', observers w' !! i = Some o'
                /\ view_of o' = gone
                /\ repeat o' = true
                /\ offsetStart o' = offsetStart o
                /\ offsetEnd o' = offsetEnd o
                /\ backward o' (container w') = b.
Proof.
  intros positions b w' Hw Ho Hin Hr Hview Hsorted Hex Hlast.
  assert (HS : StronglySorted (pass_order b) positions).
  { apply Sorted_StronglySorted; [|exact Hsorted].
    intros x y z. apply pass_order_trans. }
  assert (Hrun : run_pass b (offsetStart o) (offsetEnd o) positions (view_of o)
                 = (gone, enter_list b ++ leave_list b)).
  { destruct Hview as [Hv|Hv]; rewrite Hv.
    - exact (run_pass_from_fresh b (offsetStart o) (offsetEnd o)
               positions false HS Hex Hlast).
    - exact (run_pass_from_gone b (offsetStart o) (offsetEnd o)
               positions HS Hex Hlast). }
  destruct (scroll_ticks_run_pass i samples w o _ _ Hw Ho Hin Hr Hrun)
    as (W & I & C & o' & O & V & F & B).
  split; [exact C|]. split; [exact W|]. split; [exact I|].
  exists o'. split; [exact O|]. split; [exact V|].
  pose proof (f_equal (fun t => fst (fst (fst t))) F) as Fr.
  pose proof (f_equal (fun t => snd (fst t)) F) as Fs.
  pose proof (f_equal (fun t => snd t) F) as Fe.
  cbn in Fr, Fs, Fe.
  split; [rewrite Fr; exact Hr|]. split; [exact Fs|]. split; [exact Fe|exact B].
Qed.

End WorldPasses.

(** ** An eased synchronisation *)

Section Eased.

Context {L : Type} `{Linked L}.
Variable lerp : num -> num -> num -> num.
Variable interpolate : num -> num -> num -> num.

Local Abbreviation tick_of := (handleScroll lerp interpolate).

(** The linked object, the progress stored and the absence of sync
    methods. *)
Local Abbreviation wiring :=
  (fun f : Frame L =>
     (linked (self f), prevProgress (self f), no_sync_methods (self f))).

Lemma no_sync_methods_fields (o : ScrollObserver L) :
  no_sync_methods o = true ->
  onSyncEnter o = None /\ onSyncLeave o = None
  /\ onSyncEnterForward o = None /\ onSyncLeaveForward o = None
  /\ onSyncEnterBackward o = None /\ onSyncLeaveBackward o = None.
Proof.
  unfold no_sync_methods.
  destruct (onSyncEnter o), (onSyncLeave o), (onSyncEnterForward o),
    (onSyncLeaveForward o), (onSyncEnterBackward o), (onSyncLeaveBackward o);
    cbn; intros E; try discriminate E; auto 10.
Qed.

Lemma linked_events_emit_call (cb : Callback) (f : Frame L) :
  linked_events (log (emit (Call cb) f)) = linked_events (log f).
Proof.
  unfold linked_events. cbn [log emit]. rewrite List.filter_app. apply app_nil_r.
Qed.

Lemma enter_calls_unsynced (f : Frame L) :
  no_sync_methods (self f) = true ->
  self (enter_calls f) = self f
  /\ linked_events (log (enter_calls f)) = linked_events (log f).
Proof.
  intros Hm. destruct (no_sync_methods_fields _ Hm) as (E1 & _ & E3 & _ & E5 & _).
  unfold enter_calls, call_sync, call. rewrite E1.
  cbn [self emit cont].
  destruct (backward (self f) (cont f)); rewrite ?E3, ?E5;
    (split; [reflexivity|]); rewrite !linked_events_emit_call; reflexivity.
Qed.

Lemma leave_calls_unsynced (f : Frame L) :
  no_sync_methods (self f) = true ->
  self (leave_calls f) = self f
  /\ linked_events (log (leave_calls f)) = linked_events (log f).
Proof.
  intros Hm. destruct (no_sync_methods_fields _ Hm) as (_ & E2 & _ & E4 & _ & E6).
  unfold leave_calls, call_sync, call. rewrite E2.
  cbn [self emit cont].
  destruct (backward (self f) (cont f)); rewrite ?E4, ?E6;
    (split; [reflexivity|]); rewrite !linked_events_emit_call; reflexivity.
Qed.

Lemma enter_block_unsynced (isInView' forceEnter' debug' : bool) (f : Frame L) :
  no_sync_methods (self f) = true ->
  wiring (enter_block isInView' forceEnter' debug' f) = wiring f
  /\ linked_events (log (enter_block isInView' forceEnter' debug' f))
     = linked_events (log f).
Proof.
  intros Hm. unfold enter_block.
  match goal with |- context [if ?b then _ else _] => destruct b end;
    [|split; reflexivity].
  set (f1 := if isInView' then on_self (set_isInView true) f else f).
  assert (W1 : wiring f1 = wiring f /\ log f1 = log f
               /\ forceEnter (self f1) = forceEnter (self f)
               /\ hasEntered (self f1) = hasEntered (self f))
    by (unfold f1; destruct isInView'; auto).
  destruct W1 as (W1 & L1 & F1 & H1). rewrite F1, H1. clearbody f1.
  destruct (negb (forceEnter (self f)) || negb (hasEntered (self f))).
  - set (f2 := if debug' && isInView'
               then on_cont (fun c => set_zIndex (S (zIndex c)) c) f1 else f1).
    assert (W2 : self f2 = self f1 /\ log f2 = log f1)
      by (unfold f2; destruct (debug' && isInView'); auto).
    destruct W2 as [W2 L2].
    assert (Hm2 : no_sync_methods (self f2) = true).
    { rewrite W2. injection W1 as _ _ E. rewrite E. exact Hm. }
    destruct (enter_calls_unsynced f2 Hm2) as [W3 L3].
    set (f3 := enter_calls f2) in *. clearbody f3.
    rewrite L2, L1 in L3. rewrite W2 in W3.
    destruct forceEnter'; cbn [self log on_self]; rewrite W3;
      (split; [exact W1|exact L3]).
  - destruct isInView'; cbn [self log on_self]; rewrite ?L1;
      (split; [exact W1|reflexivity]).
Qed.

Lemma leave_block_unsynced (isInView' sc : bool) (f : Frame L) :
  no_sync_methods (self f) = true ->
  wiring (snd (leave_block isInView' sc f)) = wiring f
  /\ linked_events (log (snd (leave_block isInView' sc f)))
     = linked_events (log f).
Proof.
  intros Hm. unfold leave_block.
  destruct (negb isInView' && isInView (self f)); [|split; reflexivity].
  cbn [snd].
  destruct (leave_calls_unsynced (on_self (set_isInView false) f) Hm) as [W L1].
  rewrite W, L1. split; reflexivity.
Qed.

Lemma revert_linked (f : Frame L) :
  linked (self (revert f)) = linked (self f)
  /\ linked_events (log (revert f)) = linked_events (log f).
Proof.
  unfold revert. destruct (reverted (self f)); [split; reflexivity|].
  set (f1 := on_cont (removeChild (index (self f))) f).
  set (f2 := if no_children (cont f1) then container_revert f1 else f1).
  assert (E2 : linked (self f2) = linked (self f)
               /\ linked_events (log f2) = linked_events (log f)).
  { unfold f2, container_revert. destruct (no_children (cont f1)); [|auto].
    split; [reflexivity|]. unfold linked_events. cbn [log on_cont emit].
    rewrite List.filter_app. apply app_nil_r. }
  set (f3 := if _debug (self f2) then removeDebug f2 else f2).
  assert (E3 : linked (self f3) = linked (self f)
               /\ linked_events (log f3) = linked_events (log f)).
  { unfold f3. destruct (_debug (self f2)); [|exact E2].
    destruct (removeDebug_kept f2) as (_ & A & B). rewrite A, B. exact E2. }
  clearbody f3. exact E3.
Qed.

Lemma complete_block_linked (p : num) (sc : bool) (f : Frame L) :
  linked (self (complete_block p sc f)) = linked (self f)
  /\ linked_events (log (complete_block p sc f)) = linked_events (log f).
Proof.
  unfold complete_block.
  match goal with |- context [if ?b then _ else _] => destruct b end;
    [|split; reflexivity].
  set (f2 := on_self (set_completed true) _).
  assert (E2 : linked (self f2) = linked (self f)
               /\ linked_events (log f2) = linked_events (log f)).
  { unfold f2. destruct (sync (self f)); [|auto].
    split; [reflexivity|]. apply linked_events_emit_call. }
  clearbody f2. destruct E2 as [A B].
  match goal with |- context [if ?b then revert _ else _] => destruct b end;
    [|split; assumption].
  destruct (revert_linked f2) as [A' B']. rewrite A', B'. split; assumption.
Qed.

Lemma seek_block_eased (p : num) (f : Frame L) (l : L) (e : Easing) :
  linked (self f) = Some l ->
  syncEase (self f) = Some e ->
  truthy_opt (syncSmooth (self f)) = false ->
  seek_block lerp interpolate true p f
  = (apply_ease e p, negb (apply_ease e p === prevProgress (self f))%js,
     (linked_progress l === one)%js, f).
Proof.
  intros Hl He Hs. unfold seek_block. rewrite Hl, He, Hs.
  rewrite andb_false_l, andb_false_r.
  destruct (syncSmooth (self f)) as [s|]; [|reflexivity].
  cbn [truthy_opt] in Hs. rewrite Hs. reflexivity.
Qed.

(** X22.  An observer synchronised by an easing, without smoothing and
    without sync methods, seeks its linked object to the eased progress:
    one call of [handleScroll] makes at most one call on the linked
    object, [seek(duration * ease(progress))] with the callbacks not
    muted, and makes it exactly when the position is in view, or the
    observer was in view, or the eased progress differs from the one the
    previous call stored; the eased progress is what the call stores. *)
Theorem eased_observer_seeks_the_linked_object (f : Frame L) (l : L) (e : Easing) :
  linked (self f) = Some l ->
  syncEase (self f) = Some e ->
  truthy_opt (syncSmooth (self f)) = false ->
  no_sync_methods (self f) = true ->
  let p := apply_ease e (progress (self f) (cont f)) in
  let time := (linked_duration l * p)%js in
  let updated :=
    now_in_view f || isInView (self f) || negb (p === prevProgress (self f))%js in
  linked_events (log (tick_of f))
  = linked_events (log f) ++ (if updated then [LinkedSeek time false] else [])
  /\ linked (self (tick_of f))
     = Some (if updated then linked_seek time false l else l)
  /\ prevProgress (self (tick_of f)) = p.
Proof.
  intros Hl He Hs Hm. cbv zeta.
  destruct (handleScroll_blocks lerp interpolate f)
    as (f1 & p & hu & sc & f2 & f3 & f4 & sc' & f5 & f6
        & E1 & E2 & E3 & E4 & E5 & E6 & E7).
  assert (Hseek : should_seek (self f) = true).
  { unfold should_seek. rewrite Hl, He. reflexivity. }
  rewrite Hseek in E2, E4.
  (* the began block *)
  assert (W1 : wiring f1 = wiring f /\ log f1 = log f
               /\ syncEase (self f1) = syncEase (self f)
               /\ syncSmooth (self f1) = syncSmooth (self f)).
  { rewrite E1. unfold began_block. split_ifs; auto. }
  destruct W1 as (W1 & L1 & Ee1 & Es1).
  pose proof W1 as W1'. injection W1' as Wl1 Wp1 Wm1.
  (* the seek block *)
  rewrite (seek_block_eased _ f1 l e) in E2;
    [|congruence|congruence|congruence].
  injection E2 as <- <- <- <-. rewrite Wp1 in *.
  set (p := apply_ease e (progress (self f) (cont f))) in *.
  (* the enter block *)
  destruct (enter_block_unsynced (now_in_view f) (force (now_on_edge f) (view f))
              (_debug (self f) && debugEl (self f)) f1) as [W3 L3];
    [congruence|].
  destruct (enter_block_effect (now_in_view f) (force (now_on_edge f) (view f))
              (_debug (self f) && debugEl (self f)) f1) as (_ & V3 & _).
  rewrite <- E3 in W3, L3, V3.
  assert (V1 : view f1 = view f).
  { rewrite E1. apply began_block_quiet. }
  rewrite V1 in V3.
  assert (Hiv3 : now_in_view f || negb (now_in_view f) && isInView (self f3)
                 = now_in_view f || isInView (self f)).
  { change (isInView (self f3)) with (fst (fst (view f3))). rewrite V3.
    destruct (now_in_view f); [reflexivity|].
    cbn [negb andb orb]. apply view_enter_outside. }
  rewrite Hiv3 in E4.
  pose proof W3 as W3'. injection W3' as Wl3 Wp3 Wm3.
  (* the update block *)
  assert (U : (if now_in_view f || isInView (self f) then true
               else negb (p === prevProgress (self f))%js)
              = now_in_view f || isInView (self f)
                || negb (p === prevProgress (self f))%js).
  { destruct (now_in_view f || isInView (self f)); reflexivity. }
  rewrite U in E4.
  set (updated := now_in_view f || isInView (self f)
                  || negb (p === prevProgress (self f))%js) in *.
  assert (W4 : linked (self f4)
               = Some (if updated then linked_seek (linked_duration l * p)%js false l
                       else l)
               /\ no_sync_methods (self f4) = true
               /\ linked_events (log f4)
                  = linked_events (log f)
                    ++ (if updated then [LinkedSeek (linked_duration l * p)%js false]
                        else [])).
  { rewrite E4. destruct updated.
    - unfold update_block. rewrite Wl3, Wl1, Hl.
      cbn [self log call emit on_self linked set_linked no_sync_methods
             onSyncEnter onSyncLeave onSyncEnterForward onSyncLeaveForward
             onSyncEnterBackward onSyncLeaveBackward].
      split; [reflexivity|]. split; [change (no_sync_methods (self f3) = true); congruence|].
      unfold linked_events. rewrite !List.filter_app.
      cbn [List.filter is_linked_event]. rewrite app_nil_r.
      fold (linked_events (log f3)). rewrite L3, L1. reflexivity.
    - rewrite app_nil_r. split; [congruence|]. split; congruence. }
  destruct W4 as (Wl4 & Wm4 & L4).
  (* the leave block, the completion and the end *)
  destruct (leave_block_unsynced (now_in_view f) (linked_progress l === one)%js f4 Wm4)
    as [W5 L5].
  rewrite E5 in W5, L5. cbn [snd] in W5, L5.
  injection W5 as Wl5 _ _.
  destruct (complete_block_linked p sc' f5) as [Wl6 L6].
  rewrite <- E6 in Wl6, L6.
  destruct (final_block_completed p f6) as [_ P7].
  rewrite E7, log_final_block.
  split; [congruence|]. split; [|exact P7].
  unfold final_block. split_ifs; cbn [self on_self linked set_completed set_prevProgress];
    congruence.
Qed.

End Eased.

(** ** Frames without a scroll *)

Lemma view_step_twice (b isInView' edge : bool) (v : bool * bool * bool) :
  (isInView' = true -> edge = false) ->
  view_step isInView' edge (view_step isInView' edge v) = view_step isInView' edge v
  /\ step_calls b isInView' edge (view_step isInView' edge v) = [].
Proof.
  destruct v as [[iv he] fe].
  destruct isInView', edge, iv, he, fe; intros Hie;
    try discriminate (Hie eq_refl); split; reflexivity.
Qed.

Section Rest.

Context {L : Type} `{Linked L}.
Variable lerp : num -> num -> num -> num.
Variable interpolate : num -> num -> num -> num.

Local Abbreviation tick_of := (handleScroll lerp interpolate).

Lemma now_static (f g : Frame L) :
  static g = static f ->
  now_in_view g = now_in_view f
  /\ now_on_edge g = now_on_edge f
  /\ backward (self g) (cont g) = backward (self f) (cont f).
Proof.
  intros S.
  assert (Es : scroll (self g) (cont g) = scroll (self f) (cont f)).
  { unfold scroll.
    rewrite (f_equal st_horizontal S : horizontal (self g) = horizontal (self f)).
    rewrite (f_equal st_scrollX S : scrollX (cont g) = scrollX (cont f)).
    rewrite (f_equal st_scrollY S : scrollY (cont g) = scrollY (cont f)).
    reflexivity. }
  unfold now_in_view, now_on_edge. rewrite Es.
  rewrite (f_equal st_offsetStart S : offsetStart (self g) = offsetStart (self f)).
  rewrite (f_equal st_offsetEnd S : offsetEnd (self g) = offsetEnd (self f)).
  split; [reflexivity|]. split; [reflexivity|]. apply backward_static, S.
Qed.

(** X23.  Frames without a scroll call no enter and no leave callback:
    however often [handleScroll] runs again at an unchanged scroll
    position and unchanged bounds, as it does on every frame while the
    container is awake, the view state stays what the first call left
    and no enter or leave callback is called again. *)
Theorem handleScroll_again_at_the_same_position (n : nat) (f : Frame L) :
  let after := tick_of f in
  let later := Nat.iter n tick_of after in
  view later = view after
  /\ calls (log later) = calls (log after)
  /\ static later = static f.
Proof.
  cbv zeta. induction n as [|n IH].
  - cbn. split; [reflexivity|]. split; [reflexivity|].
    apply (handleScroll_effect lerp interpolate f).
  - rewrite Nat.iter_succ. destruct IH as (V & C & S).
    set (g := Nat.iter n tick_of (tick_of f)) in *. clearbody g.
    destruct (handleScroll_effect lerp interpolate f) as (S1 & V1 & _).
    destruct (handleScroll_effect lerp interpolate g) as (S2 & V2 & C2).
    destruct (now_static f g S) as (Ei & Ee & Eb).
    rewrite Ei, Ee, V, V1 in V2, C2.
    destruct (view_step_twice (backward (self g) (cont g))
                (now_in_view f) (now_on_edge f) (view f)
                (now_in_view_not_on_edge f)) as [A B].
    rewrite A in V2. rewrite B, app_nil_r in C2.
    split; [rewrite V2, V1; reflexivity|].
    split; [rewrite C2; exact C|rewrite S2; exact S].
Qed.

End Rest.

(** ** The coordinates and the anchors of a threshold *)

Lemma whole_round (x : num) : whole (round x 0).
Proof.
  destruct x as [| | |q]; try exact I.
  change (inject_Z (Qfloor (inject_Z (Qfloor (q + (1 # 2)))))
          == inject_Z (Qfloor (q + (1 # 2)))).
  rewrite Qfloor_Z. reflexivity.
Qed.

Lemma parse_whole (convertValueUnit : num -> string -> num)
    (v : ScrollThresholdValue) (size : num) (under over : option num) :
  whole (parseBoundValue convertValueUnit v size under over).
Proof. unfold parseBoundValue. apply whole_round. Qed.

Section Coordinates.

Context {L : Type} `{Linked L}.
Variable convertValueUnit : num -> string -> num.

(** X24.  [updateBounds] caches four coordinates, each a whole number of
    pixels (or not finite), and the two bounds are the offset of the
    target moved by them: [offsetStart] is the first coordinate plus
    [offset] less the third, [offsetEnd] the second plus [offset] less
    the fourth. *)
Theorem updateBounds_caches_whole_coordinates (rect : DOMRect) (f : Frame L) :
  let o' := self (updateBounds convertValueUnit rect f) in
  exists a b c d,
    coords o' = [a; b; c; d]
    /\ (whole a /\ whole b /\ whole c /\ whole d)
    /\ offsetStart o' = (a + offset o' - c)%js
    /\ offsetEnd o' = (b + offset o' - d)%js
    /\ List.length (thresholds o') = 4%nat.
Proof.
  cbv zeta.
  destruct (anchors (enter (self f)) (VStr "end") (VStr "start")) as [ec et] eqn:Ea.
  destruct (anchors (leave (self f)) (VStr "start") (VStr "end")) as [lc ltg] eqn:El.
  pose proof (updateBounds_caches convertValueUnit rect f ec et lc ltg Ea El) as B.
  cbv zeta in B.
  pose proof (f_equal (fun t => fst (fst (fst (fst (fst t))))) B) as Bo.
  pose proof (f_equal (fun t => snd (fst (fst (fst (fst t))))) B) as Bs.
  pose proof (f_equal (fun t => snd (fst (fst (fst t)))) B) as Be.
  pose proof (f_equal (fun t => snd (fst t)) B) as Bt.
  pose proof (f_equal (fun t => snd t) B) as Bc.
  cbn [cached_bounds fst snd] in Bo, Bs, Be, Bt, Bc.
  do 4 eexists. split; [exact Bc|].
  split; [repeat split; apply parse_whole|].
  rewrite Bs, Be, Bo, Bt. split; [reflexivity|]. split; reflexivity.
Qed.

End Coordinates.

Lemma append_assoc_string (a b c : string) : ((a ++ b) ++ c = a ++ (b ++ c))%string.
Proof.
  induction a as [|x a IH]; [reflexivity|].
  change (String x ((a ++ b) ++ c) = String x (a ++ (b ++ c)))%string.
  rewrite IH. reflexivity.
Qed.

Lemma append_empty_r (s : string) : (s ++ "")%string = s.
Proof.
  induction s as [|x s IH]; [reflexivity|].
  change (String x (s ++ "") = String x s)%string. rewrite IH. reflexivity.
Qed.

Lemma split_word (w cur : string) :
  no_space w = true -> Str.split_from " " w 0 cur = [(cur ++ w)%string].
Proof.
  revert cur. induction w as [|c w IH]; intros cur Hw.
  - cbn [Str.split_from]. rewrite append_empty_r. reflexivity.
  - cbn [no_space] in Hw. apply andb_true_iff in Hw. destruct Hw as [Hc Hw].
    apply negb_true_iff in Hc.
    cbn [Str.split_from Str.startsWith]. rewrite Ascii.eqb_sym, Hc. cbn [andb].
    rewrite (IH _ Hw), append_assoc_string. reflexivity.
Qed.

Lemma split_word_space (w rest cur : string) :
  no_space w = true ->
  Str.split_from " " (w ++ String " " rest) 0 cur
  = (cur ++ w)%string :: Str.split_from " " rest 0 "".
Proof.
  revert cur. induction w as [|c w IH]; intros cur Hw.
  - change ("" ++ String " " rest)%string with (String " " rest).
    rewrite append_empty_r. reflexivity.
  - cbn [no_space] in Hw. apply andb_true_iff in Hw. destruct Hw as [Hc Hw].
    apply negb_true_iff in Hc.
    change (String c w ++ String " " rest)%string
      with (String c (w ++ String " " rest))%string.
    cbn [Str.split_from Str.startsWith]. rewrite Ascii.eqb_sym, Hc. cbn [andb].
    rewrite (IH _ Hw), append_assoc_string. reflexivity.
Qed.

(** X25.  The shorthand of a threshold.  A string of two words, or of
    more, names the anchor on the container and the anchor on the target,
    words after the second being ignored; a single word names the anchor
    on the container and leaves the default anchor on the target; so does
    a number other than [NaN], and [NaN] leaves both defaults. *)
Theorem threshold_shorthand
    (container' target' rest : string) (dc dt : ScrollThresholdValue) (n : num) :
  no_space container' = true ->
  no_space target' = true ->
  anchors (ThValue (VStr (container' ++ " " ++ target'))) dc dt
  = (VStr container', VStr target')
  /\ anchors (ThValue (VStr (container' ++ " " ++ target' ++ " " ++ rest))) dc dt
     = (VStr container', VStr target')
  /\ anchors (ThValue (VStr container')) dc dt = (VStr container', dt)
  /\ anchors (ThValue (VNum n)) dc dt = (if isNaN n then dc else VNum n, dt).
Proof.
  intros Hc Ht. unfold anchors, Str.split.
  split; [|split; [|split]].
  - change (container' ++ " " ++ target')%string
      with (container' ++ String " " target')%string.
    rewrite (split_word_space _ _ _ Hc), (split_word _ _ Ht). reflexivity.
  - change (container' ++ " " ++ target' ++ " " ++ rest)%string
      with (container' ++ String " " (target' ++ String " " rest))%string.
    rewrite (split_word_space _ _ _ Hc), (split_word_space _ _ _ Ht).
    reflexivity.
  - rewrite (split_word _ _ Hc). reflexivity.
  - unfold isNum. destruct (isNaN n); reflexivity.
Qed.

(** * The further properties at concrete inputs *)

Lemma sample_sqrt_zero (q : Q) : q == 0 -> Cases.Math_sqrt (Fin q) = Fin 0.
Proof.
  intros E. unfold Cases.Math_sqrt.
  assert (E' : Qfloor q = 0%Z) by (rewrite E; reflexivity).
  rewrite E'. reflexivity.
Qed.

Lemma sample_world_well_indexed (sync' : SyncParam) (repeat' : bool) (y : num) :
  well_indexed (Sample.world sync' repeat' y).
Proof.
  split; [|split].
  - intros i o Hi. cbn in Hi. apply lookup_singleton_Some in Hi.
    destruct Hi as [<- <-]. split; [reflexivity|cbn; lia].
  - intros i Hi. cbn in Hi. destruct Hi as [<-|[]].
    eexists. cbn. apply lookup_singleton_eq.
  - cbn. constructor; [intros []|constructor].
Qed.

Lemma progress_zero_before_one_after_witness :
  progress (Sample.observer SyncUndefined true) (Sample.container_at (Fin 150)) = Fin 1.
Proof.
  apply (proj2 (progress_zero_before_one_after
                  (Sample.observer SyncUndefined true)
                  (Sample.container_at (Fin 150)) eq_refl) 0 100 150).
  - reflexivity.
  - reflexivity.
  - reflexivity.
  - reflexivity.
  - unfold Qle. simpl. lia.
Defined.

Lemma handleScroll_enters_or_leaves_witness :
  exists cs,
    calls (log (handleScroll Sample.lerp Sample.interpolate
                  (Sample.frame SyncUndefined true (Fin 50))))
    = calls (log (Sample.frame SyncUndefined true (Fin 50))) ++ cs
    /\ (cs = [] \/ cs = enter_forward \/ cs = leave_forward).
Proof.
  exact (proj2 (handleScroll_enters_or_leaves Sample.lerp Sample.interpolate
                  (Sample.frame SyncUndefined true (Fin 50))
                  (fun E : false = true => E))).
Defined.

Lemma handleScroll_outside_the_view_witness :
  calls (log (handleScroll Sample.lerp Sample.interpolate
                (Cases.entered_frame SyncUndefined true true (Fin 150))))
  = leave_forward
  /\ isInView (self (handleScroll Sample.lerp Sample.interpolate
                       (Cases.entered_frame SyncUndefined true true (Fin 150))))
     = false
  /\ hasEntered (self (handleScroll Sample.lerp Sample.interpolate
                         (Cases.entered_frame SyncUndefined true true (Fin 150))))
     = true.
Proof.
  exact (handleScroll_outside_the_view Sample.lerp Sample.interpolate
           (Cases.entered_frame SyncUndefined true true (Fin 150)) eq_refl eq_refl).
Defined.

Lemma handleScroll_in_the_view_witness :
  calls (log (handleScroll Sample.lerp Sample.interpolate
                (Sample.frame SyncUndefined true (Fin 50))))
  = enter_forward
  /\ isInView (self (handleScroll Sample.lerp Sample.interpolate
                       (Sample.frame SyncUndefined true (Fin 50))))
     = true
  /\ hasEntered (self (handleScroll Sample.lerp Sample.interpolate
                         (Sample.frame SyncUndefined true (Fin 50))))
     = true.
Proof.
  exact (handleScroll_in_the_view Sample.lerp Sample.interpolate
           (Sample.frame SyncUndefined true (Fin 50)) eq_refl).
Defined.

Lemma smoothed_observer_without_linked_never_completes_witness :
  completed (self (sweep Sample.lerp Sample.interpolate Cases.down
                     (Sample.frame (SyncBool true) false (Fin (-10)))))
  = false
  /\ children (cont (sweep Sample.lerp Sample.interpolate Cases.down
                       (Sample.frame (SyncBool true) false (Fin (-10)))))
     = [0%nat].
Proof.
  pose proof (smoothed_observer_without_linked_never_completes
                Sample.lerp Sample.interpolate Cases.down
                (Sample.frame (SyncBool true) false (Fin (-10)))
                eq_refl eq_refl eq_refl eq_refl) as W.
  cbv zeta in W. destruct W as (W1 & _ & W2 & _).
  split; [exact W1|exact W2].
Defined.

Lemma revert_of_the_last_observer_reverts_the_container_witness :
  live (cont (revert (Sample.frame SyncUndefined true (Fin 0)))) = false.
Proof.
  exact (proj1 (proj2 (revert_of_the_last_observer_reverts_the_container
                         (Sample.frame SyncUndefined true (Fin 0)) eq_refl))).
Defined.

Lemma back_world_well_indexed (y : num) : well_indexed (Cases.back_world y).
Proof.
  split; [|split].
  - intros i o Hi. cbn in Hi. apply lookup_singleton_Some in Hi.
    destruct Hi as [<- <-]. split; [reflexivity|cbn; lia].
  - intros i Hi. cbn in Hi. destruct Hi as [<-|[]].
    eexists. cbn. apply lookup_singleton_eq.
  - cbn. constructor; [intros []|constructor].
Qed.

Lemma pass_through_the_view_enters_and_leaves_once_witness :
  calls_of 0 (trace (scroll_ticks Sample.lerp Sample.interpolate Cases.up
                       (Cases.back_world (Fin 130))))
  = enter_backward ++ leave_backward
  /\ In 0%nat (children (container (scroll_ticks Sample.lerp Sample.interpolate Cases.up
                                      (Cases.back_world (Fin 130))))).
Proof.
  pose proof (pass_through_the_view_enters_and_leaves_once
                Sample.lerp Sample.interpolate (Cases.back_world (Fin 130)) 0
                (Cases.entered SyncUndefined true false) Cases.up) as W.
  cbv zeta in W.
  destruct W as (W1 & _ & W2 & _).
  - apply back_world_well_indexed.
  - apply lookup_singleton_eq.
  - left. reflexivity.
  - reflexivity.
  - right. reflexivity.
  - repeat constructor.
  - apply Exists_cons_tl, Exists_cons_tl, Exists_cons_hd. reflexivity.
  - reflexivity.
  - split; [exact W1|exact W2].
Defined.

Lemma refresh_caches_the_default_bounds_witness :
  offsetStart (self (refresh Sample.lerp Sample.interpolate Sample.convertValueUnit
                       Cases.no_parameters Cases.target_rect
                       (Sample.frame SyncUndefined true (Fin 0))))
  = Fin (-200)
  /\ offsetEnd (self (refresh Sample.lerp Sample.interpolate Sample.convertValueUnit
                        Cases.no_parameters Cases.target_rect
                        (Sample.frame SyncUndefined true (Fin 0))))
     = Fin 1000.
Proof.
  pose proof (refresh_caches_the_default_bounds
                Sample.lerp Sample.interpolate Sample.convertValueUnit
                Cases.no_parameters Cases.target_rect
                (Sample.frame SyncUndefined true (Fin 0)) eq_refl eq_refl) as W.
  cbv zeta in W. destruct W as (_ & W1 & W2 & _).
  split; [exact W1|exact W2].
Defined.

Lemma repeating_observer_stays_attached_witness :
  reverted (self (sweep Sample.lerp Sample.interpolate Cases.down
                    (Sample.frame (SyncBool false) true (Fin (-10)))))
  = false
  /\ children (cont (sweep Sample.lerp Sample.interpolate Cases.down
                       (Sample.frame (SyncBool false) true (Fin (-10)))))
     = [0%nat].
Proof.
  pose proof (repeating_observer_stays_attached
                Sample.lerp Sample.interpolate Cases.down
                (Sample.frame (SyncBool false) true (Fin (-10))) eq_refl) as W.
  cbv zeta in W. destruct W as (W1 & W2 & _).
  split; [exact W1|exact W2].
Defined.

Lemma refresh_clears_reverted_and_attaches_nothing_witness :
  reverted (self (refresh Sample.lerp Sample.interpolate Sample.convertValueUnit
                    Cases.no_parameters Cases.target_rect
                    (revert (Sample.frame SyncUndefined true (Fin 0)))))
  = false
  /\ children (cont (refresh Sample.lerp Sample.interpolate Sample.convertValueUnit
                       Cases.no_parameters Cases.target_rect
                       (revert (Sample.frame SyncUndefined true (Fin 0)))))
     = [].
Proof.
  pose proof (refresh_clears_reverted_and_attaches_nothing
                Sample.lerp Sample.interpolate Sample.convertValueUnit
                Cases.no_parameters Cases.target_rect
                (revert (Sample.frame SyncUndefined true (Fin 0))) eq_refl) as W.
  cbv zeta in W. destruct W as (W1 & _ & W2).
  split; [exact W1|exact W2].
Defined.

Lemma dataTimer_samples_direction_and_rest_witness :
  backwardY (snd (dataTimer_onUpdate Cases.Math_sqrt (Fin 33) (Fin 0, Fin 100)
                    (Sample.container_at (Fin 40))))
  = true
  /\ velocity
       (snd (dataTimer_onUpdate Cases.Math_sqrt (Fin 33)
               (fst (dataTimer_onUpdate Cases.Math_sqrt (Fin 33) (Fin 0, Fin 100)
                       (Sample.container_at (Fin 40))))
               (snd (dataTimer_onUpdate Cases.Math_sqrt (Fin 33) (Fin 0, Fin 100)
                       (Sample.container_at (Fin 40))))))
     = Fin 0.
Proof.
  pose proof (dataTimer_samples_direction_and_rest Cases.Math_sqrt
                (Fin 33) (Fin 33) 0 100 0 40 (Sample.container_at (Fin 40))
                eq_refl eq_refl sample_sqrt_zero) as W.
  cbv zeta in W. destruct W as (_ & W1 & _ & _ & _ & W2 & _).
  split; [exact W1|exact W2].
Defined.

Lemma observer_indices_stay_unique_witness :
  well_indexed
    (ScrollObserver_new Sample.parseEasings Cases.no_parameters
       (Sample.world SyncUndefined true (Fin 0)))
  /\ observers (Sample.world SyncUndefined true (Fin 0)) !! 1%nat = None.
Proof.
  pose proof (observer_indices_stay_unique
                Sample.lerp Sample.interpolate Sample.parseEasings
                Cases.no_parameters (Fin 0, Fin 50)
                (Sample.world SyncUndefined true (Fin 0))
                (sample_world_well_indexed SyncUndefined true (Fin 0))) as W.
  destruct W as (W1 & _ & W2 & _).
  split; [exact W1|exact W2].
Defined.

Lemma eased_observer_seeks_the_linked_object_witness :
  linked_events (log (handleScroll Sample.lerp Sample.interpolate
                        (Cases.eased_frame (Fin 50))))
  = [LinkedSeek (Fin 1000 * (Fin (1 # 2) * Fin (1 # 2)))%js false]
  /\ prevProgress (self (handleScroll Sample.lerp Sample.interpolate
                           (Cases.eased_frame (Fin 50))))
     = (Fin (1 # 2) * Fin (1 # 2))%js.
Proof.
  pose proof (eased_observer_seeks_the_linked_object
                Sample.lerp Sample.interpolate (Cases.eased_frame (Fin 50))
                Sample.clock Cases.square eq_refl eq_refl eq_refl eq_refl) as W.
  cbv zeta in W. destruct W as (W1 & _ & W2).
  split; [exact W1|exact W2].
Defined.

Lemma threshold_shorthand_witness :
  anchors (ThValue (VStr "end start")) (VStr "end") (VStr "start")
  = (VStr "end", VStr "start")
  /\ anchors (ThValue (VStr "center")) (VStr "end") (VStr "start")
     = (VStr "center", VStr "start").
Proof.
  pose proof (threshold_shorthand "end" "start" "" (VStr "end") (VStr "start") NaN
                eq_refl eq_refl) as W.
  destruct W as (W1 & _ & _ & _).
  pose proof (threshold_shorthand "center" "" "" (VStr "end") (VStr "start") NaN
                eq_refl eq_refl) as W'.
  destruct W' as (_ & _ & W2 & _).
  split; [exact W1|exact W2].
Defined.
